(** * Survey interaction engine: the bot's decision logic, embedded and verified

    The development follows [surveyJunkieBot.tsx] (the attention-check parser,
    the answer-bank lookup, the per-kind field resolvers, the long-form request
    builder, the pointer-motion simulator and the step loop) and
    [gptLongFormResponder.ts].

    Conventions of the embedding:
    - JavaScript strings are [string]s of ASCII code units.  Case mapping,
      whitespace and the regular-expression classes are the ASCII ones; the
      typographic quotes of the source's quote classes lie outside this
      alphabet.
    - The DOM is represented by records that hold what the page-side script
      reads from an element.  For an [<input>] these are the reads of
      [getLabelText] and [getQuestionText] themselves (its labels, its
      attributes, the elements around it), and both functions are embedded;
      for a [<select>] and a [<textarea>] the record holds what
      [getQuestionText] and [collectPrompt] return for the element.
    - [Math.random], the long-form provider and the browser are oracles that
      are passed in explicitly. *)

From Stdlib Require Import String Ascii List Bool Arith ZArith QArith Lia.
From Stdlib Require Import Qround Qabs DecimalString Lqa.
Import ListNotations.

Close Scope Q_scope.
Close Scope Z_scope.
Local Open Scope nat_scope.
Local Open Scope string_scope.
Local Open Scope list_scope.

(* ===================================================================== *)
(** ** JavaScript string primitives *)
(* ===================================================================== *)

Module JS.

(** Truthiness of a string value: only the empty string is falsy. *)
Definition truthy (s : string) : bool :=
  match s with
  | EmptyString => false
  | String _ _ => true
  end.

(** [a || b] on two strings. *)
Definition or_else (a b : string) : string := if truthy a then a else b.

(** [a || b] where [a] may be [undefined] or [null]. *)
Definition opt_or_else (a : option string) (b : string) : string :=
  match a with
  | Some s => or_else s b
  | None => b
  end.

Definition code (c : ascii) : nat := nat_of_ascii c.

Definition in_range (lo hi : nat) (c : ascii) : bool :=
  (lo <=? code c)%nat && (code c <=? hi)%nat.

Definition is_upper : ascii -> bool := in_range 65 90.
Definition is_lower : ascii -> bool := in_range 97 122.
Definition is_digit : ascii -> bool := in_range 48 57.

(** The class [\s] and the characters removed by [trim]: tab, line feed,
    vertical tab, form feed, carriage return and space. *)
Definition is_space (c : ascii) : bool :=
  in_range 9 13 c || (code c =? 32)%nat.

(** The quote class of the source's patterns: the double quote (code 34)
    and the apostrophe (code 39). *)
Definition is_quote (c : ascii) : bool :=
  (code c =? 34)%nat || (code c =? 39)%nat.

Definition lower_char (c : ascii) : ascii :=
  if is_upper c then ascii_of_nat (code c + 32) else c.

Fixpoint toLowerCase (s : string) : string :=
  match s with
  | EmptyString => EmptyString
  | String c rest => String (lower_char c) (toLowerCase rest)
  end.

Fixpoint trimStart (s : string) : string :=
  match s with
  | EmptyString => EmptyString
  | String c rest => if is_space c then trimStart rest else s
  end.

Fixpoint rev_string (acc s : string) : string :=
  match s with
  | EmptyString => acc
  | String c rest => rev_string (String c acc) rest
  end.

Definition trimEnd (s : string) : string :=
  rev_string EmptyString (trimStart (rev_string EmptyString s)).

Definition trim (s : string) : string := trimEnd (trimStart s).

(** [s.startsWith(p)]. *)
Fixpoint startsWith (s p : string) {struct p} : bool :=
  match p, s with
  | EmptyString, _ => true
  | String _ _, EmptyString => false
  | String a p', String b s' => Ascii.eqb a b && startsWith s' p'
  end.

(** [s.includes(sub)]: [sub] occurs in [s] as a contiguous substring. *)
Fixpoint includes (s sub : string) : bool :=
  startsWith s sub ||
  match s with
  | EmptyString => false
  | String _ rest => includes rest sub
  end.

Fixpoint drop (n : nat) (s : string) : string :=
  match n, s with
  | O, _ => s
  | S _, EmptyString => EmptyString
  | S n', String _ rest => drop n' rest
  end.

(** [s.split(sep)] for a non-empty separator: [cur] accumulates (reversed)
    the piece being read. *)
Fixpoint split_go (sep : string) (cur : string) (fuel : nat) (s : string)
  : list string :=
  match fuel with
  | O => [rev_string EmptyString cur]
  | S fuel' =>
      match s with
      | EmptyString => [rev_string EmptyString cur]
      | String c rest =>
          if startsWith s sep
          then rev_string EmptyString cur
               :: split_go sep EmptyString fuel' (drop (String.length sep) s)
          else split_go sep (String c cur) fuel' rest
      end
  end.

Definition split (s sep : string) : list string :=
  split_go sep EmptyString (S (String.length s)) s.

(** [arr.length] used as a condition. *)
Definition nonempty {A : Type} (l : list A) : bool :=
  match l with
  | [] => false
  | _ :: _ => true
  end.

(** [arr.includes(x)] on an array of strings. *)
Definition arr_includes (l : list string) (x : string) : bool :=
  existsb (String.eqb x) l.

(** [Array.from(new Set(arr))]: first occurrences, in order. *)
Fixpoint dedupe_go (seen : list string) (l : list string) : list string :=
  match l with
  | [] => []
  | x :: rest =>
      if arr_includes seen x then dedupe_go seen rest
      else x :: dedupe_go (x :: seen) rest
  end.

Definition dedupe (l : list string) : list string := dedupe_go [] l.

Fixpoint dedupeZ_go (seen : list Z) (l : list Z) : list Z :=
  match l with
  | [] => []
  | x :: rest =>
      if existsb (Z.eqb x) seen then dedupeZ_go seen rest
      else x :: dedupeZ_go (x :: seen) rest
  end.

Definition dedupeZ (l : list Z) : list Z := dedupeZ_go [] l.

(** [arr[i]] for a numeric index: [undefined] outside [0 .. length-1]. *)
Definition at_index {A : Type} (l : list A) (i : Z) : option A :=
  if (i <? 0)%Z then None else nth_error l (Z.to_nat i).

(** Decimal value of a run of digits ([Number.parseInt(ds, 10)] on a
    capture of [\d+]). *)
Fixpoint digits_value (acc : Z) (s : string) : Z :=
  match s with
  | EmptyString => acc
  | String c rest =>
      digits_value (10 * acc + Z.of_nat (code c - 48))%Z rest
  end.

Definition parseInt (s : string) : Z := digits_value 0%Z s.

(** [Number.isFinite] on the result of [parseInt]: a literal at or beyond
    the rounding threshold of the largest double parses to [Infinity]. *)
Definition isFinite (v : Z) : bool := (v <? 2 ^ 1024 - 2 ^ 970)%Z.

End JS.

(* ===================================================================== *)
(** ** A backtracking matcher for the source's regular expressions *)
(* ===================================================================== *)

Module Regex.

(** Patterns.  [Quant lo hi r] is the greedy quantifier [r{lo,hi}]
    ([hi = None] for an open bound); [Group r] is the capture group whose
    text the caller reads as [match[1]]. *)
Inductive regex : Type :=
| Empty : regex
| Class : (ascii -> bool) -> regex
| Cat : regex -> regex -> regex
| Or : regex -> regex -> regex
| Quant : nat -> option nat -> regex -> regex
| Group : regex -> regex.

Definition Chr (c : ascii) : regex := Class (Ascii.eqb c).

(** A literal character under the [i] flag. *)
Definition ChrI (c : ascii) : regex :=
  Class (fun d => Ascii.eqb (JS.lower_char c) (JS.lower_char d)).

Fixpoint Lit (s : string) : regex :=
  match s with
  | EmptyString => Empty
  | String c rest => Cat (Chr c) (Lit rest)
  end.

Fixpoint LitI (s : string) : regex :=
  match s with
  | EmptyString => Empty
  | String c rest => Cat (ChrI c) (LitI rest)
  end.

(** [a|b|c] over a non-empty list of alternatives. *)
Fixpoint Alts (rs : list regex) : regex :=
  match rs with
  | [] => Class (fun _ => false)
  | [r] => r
  | r :: rest => Or r (Alts rest)
  end.

Definition Star (r : regex) : regex := Quant 0 None r.
Definition Plus (r : regex) : regex := Quant 1 None r.
Definition Opt (r : regex) : regex := Quant 0 (Some 1) r.
Definition AtLeast (n : nat) (r : regex) : regex := Quant n None r.

Fixpoint Cats (rs : list regex) : regex :=
  match rs with
  | [] => Empty
  | [r] => r
  | r :: rest => Cat r (Cats rest)
  end.

(** State of a match attempt: the text of capture 1, if it took part. *)
Definition capture := option string.

(** Outcome of a successful attempt: capture 1 and the unread input. *)
Definition success : Type := capture * string.

Definition below (hi : option nat) (count : nat) : bool :=
  match hi with
  | None => true
  | Some h => (count <? h)%nat
  end.

(** The text consumed between input [s] and its suffix [s']. *)
Fixpoint consumed (s : string) (n : nat) : string :=
  match n, s with
  | O, _ => EmptyString
  | S _, EmptyString => EmptyString
  | S n', String c rest => String c (consumed rest n')
  end.

(** Backtracking in continuation-passing style: alternatives are tried left
    to right, quantifiers take as many iterations as possible first, and an
    iteration that consumes nothing ends the repetition. *)
Fixpoint run (r : regex) (s : string) (cap : capture)
         (k : string -> capture -> option success) {struct r}
  : option success :=
  match r with
  | Empty => k s cap
  | Class p =>
      match s with
      | EmptyString => None
      | String c rest => if p c then k rest cap else None
      end
  | Cat a b => run a s cap (fun s' cap' => run b s' cap' k)
  | Or a b =>
      match run a s cap k with
      | Some res => Some res
      | None => run b s cap k
      end
  | Group a =>
      run a s cap
          (fun s' _ =>
             k s' (Some (consumed s (String.length s - String.length s'))))
  | Quant lo hi a =>
      (fix iterate (fuel : nat) (count : nat) (s : string) (cap : capture)
         {struct fuel} : option success :=
         match fuel with
         | O => None
         | S fuel' =>
             let more :=
               if below hi count
               then run a s cap
                        (fun s' cap' =>
                           if (String.length s' <? String.length s)%nat
                           then iterate fuel' (S count) s' cap'
                           else None)
               else None in
             match more with
             | Some res => Some res
             | None => if (lo <=? count)%nat then k s cap else None
             end
         end) (S (String.length s)) O s cap
  end.

Definition match_here (r : regex) (s : string) : option success :=
  run r s None (fun s' cap => Some (cap, s')).

(** [re.exec(s)] without the sticky flag: the leftmost position at which
    the pattern matches. *)
Fixpoint exec (r : regex) (s : string) : option success :=
  match match_here r s with
  | Some res => Some res
  | None =>
      match s with
      | EmptyString => None
      | String _ rest => exec r rest
      end
  end.

(** [re.test(s)]. *)
Definition test (r : regex) (s : string) : bool :=
  match exec r s with
  | Some _ => true
  | None => false
  end.

(** [s.match(re)?.[1]] for a pattern without the [g] flag. *)
Definition match1 (r : regex) (s : string) : option string :=
  match exec r s with
  | Some (cap, _) => cap
  | None => None
  end.

(** The [while ((m = re.exec(s)) !== null)] loop of a [g]-flagged pattern:
    the captures of the successive matches, each search resuming where the
    previous match ended. *)
Fixpoint exec_all (r : regex) (fuel : nat) (s : string) : list capture :=
  match fuel with
  | O => []
  | S fuel' =>
      match exec r s with
      | None => []
      | Some (cap, rest) =>
          if (String.length rest <? String.length s)%nat
          then cap :: exec_all r fuel' rest
          else [cap]
      end
  end.

End Regex.

(* ===================================================================== *)
(** ** Attention-check parser ([detectAttentionInstruction]) *)
(* ===================================================================== *)

Module Attention.

Import Regex.

Definition is_alnum (c : ascii) : bool := JS.is_lower c || JS.is_digit c.

(** [text.replace(/[^a-z0-9]+/g, " ")]: every maximal run of characters
    outside [a-z0-9] becomes one space. *)
Fixpoint collapse (in_run : bool) (s : string) : string :=
  match s with
  | EmptyString => EmptyString
  | String c rest =>
      if is_alnum c then String c (collapse false rest)
      else if in_run then collapse true rest
           else String " " (collapse true rest)
  end.

(** [normalize]: lower-case, collapse non-alphanumeric runs, trim. *)
Definition normalize (text : string) : string :=
  JS.trim (collapse false (JS.toLowerCase text)).

(** [Object.entries(numberWords)], in insertion order. *)
Definition numberWords : list (string * Z) :=
  [ ("one", 1%Z); ("two", 2%Z); ("three", 3%Z); ("four", 4%Z); ("five", 5%Z);
    ("six", 6%Z); ("seven", 7%Z); ("eight", 8%Z); ("nine", 9%Z); ("ten", 10%Z);
    ("first", 1%Z); ("second", 2%Z); ("third", 3%Z); ("fourth", 4%Z);
    ("fifth", 5%Z); ("sixth", 6%Z); ("seventh", 7%Z); ("eighth", 8%Z);
    ("ninth", 9%Z); ("tenth", 10%Z) ].

Record Directive : Type := mkDirective {
  labelTargets : list string;
  indexTargets : list Z;
  typedValue : option string;
  preferredKeywords : list string
}.

(** *** The patterns of the parser *)

Definition ws : regex := Class JS.is_space.
Definition digit : regex := Class JS.is_digit.
Definition quote : regex := Class JS.is_quote.
Definition not_quote : regex := Class (fun c => negb (JS.is_quote c)).
Definition the_opt : regex := Opt (Cat (Lit "the") (Plus ws)).

(** [/(attention|quality check|instruction check|bot check|captcha|
     consistency check|control question|human|verification)/] *)
Definition attentionLanguage : regex :=
  Alts [ Lit "attention"; Lit "quality check"; Lit "instruction check";
         Lit "bot check"; Lit "captcha"; Lit "consistency check";
         Lit "control question"; Lit "human"; Lit "verification" ].

(** [/(please\s+(select|choose|pick|mark|enter|type)|for this question|
     to show you are|just to check|as a check|for verification)/] *)
Definition politeInstruction : regex :=
  Alts [ Cats [ Lit "please"; Plus ws;
                Alts [ Lit "select"; Lit "choose"; Lit "pick"; Lit "mark";
                       Lit "enter"; Lit "type" ] ];
         Lit "for this question"; Lit "to show you are"; Lit "just to check";
         Lit "as a check"; Lit "for verification" ].

(** [/(?:type|enter|write)\s+(?:the\s+)?(?:number|digit)\s*(\d+)/] *)
Definition typedNumber : regex :=
  Cats [ Alts [ Lit "type"; Lit "enter"; Lit "write" ]; Plus ws; the_opt;
         Alts [ Lit "number"; Lit "digit" ]; Star ws; Group (Plus digit) ].

(** [/(?:type|enter|write)[^Q]*[Q]([^Q]{2,})[Q]/i], [Q] the quote class. *)
Definition typedQuoted : regex :=
  Cats [ Alts [ LitI "type"; LitI "enter"; LitI "write" ]; Star not_quote;
         quote; Group (AtLeast 2 not_quote); quote ].

(** [/(?:type|enter|write)\s+(?:the\s+)?(?:word|phrase|text|answer)\s+
     ([a-z0-9 ]{3,})\s*(?:into|in|below|to confirm|exactly|for verification)?/] *)
Definition typedWord : regex :=
  Cats [ Alts [ Lit "type"; Lit "enter"; Lit "write" ]; Plus ws; the_opt;
         Alts [ Lit "word"; Lit "phrase"; Lit "text"; Lit "answer" ]; Plus ws;
         Group (AtLeast 3 (Class (fun c => is_alnum c || Ascii.eqb c " ")));
         Star ws;
         Opt (Alts [ Lit "into"; Lit "in"; Lit "below"; Lit "to confirm";
                     Lit "exactly"; Lit "for verification" ]) ].

(** [/exactly|attention|human/] *)
Definition typedWordGate : regex :=
  Alts [ Lit "exactly"; Lit "attention"; Lit "human" ].

(** [/[Q]([^Q]{2,})[Q]/g] *)
Definition quotePattern : regex :=
  Cats [ quote; Group (AtLeast 2 not_quote); quote ].

(** [/(select|choose|pick|mark)/] *)
Definition selectVerb : regex :=
  Alts [ Lit "select"; Lit "choose"; Lit "pick"; Lit "mark" ].

(** [/(?:select|choose|pick|mark|tap)\s+(?:the\s+)?
     (?:number|option|answer|choice)?\s*(\d+)/] *)
Definition numberMatch : regex :=
  Cats [ Alts [ Lit "select"; Lit "choose"; Lit "pick"; Lit "mark"; Lit "tap" ];
         Plus ws; the_opt;
         Opt (Alts [ Lit "number"; Lit "option"; Lit "answer"; Lit "choice" ]);
         Star ws; Group (Plus digit) ].

Definition explicitPhrases : list string :=
  [ "strongly agree"; "strongly disagree"; "agree"; "disagree"; "neutral";
    "none of the above"; "all of the above"; "i am paying attention";
    "i am human"; "i read the instructions"; "i read the question";
    "attention" ].

Definition colorPhrases : list string :=
  [ "blue"; "red"; "green"; "yellow"; "orange"; "purple"; "black"; "white";
    "pink"; "brown" ].

Definition attentionKeywords : list string :=
  [ "attention"; "paying attention"; "i am paying attention"; "human";
    "quality"; "instruction" ].

(** A capture that is present and non-empty ([m?.[1]] in a condition). *)
Definition truthy_capture (c : option string) : option string :=
  match c with
  | Some s => if JS.truthy s then Some s else None
  | None => None
  end.

Definition opt_truthy (v : option string) : bool :=
  match v with
  | Some s => JS.truthy s
  | None => false
  end.

(** [pushLabel], on the label targets collected so far. *)
Definition pushLabel (shouldConsiderTargets : bool) (targets : list string)
           (value : string) : list string :=
  if negb shouldConsiderTargets then targets
  else
    let normalized := normalize value in
    if negb (JS.truthy normalized) then targets
    else if JS.includes normalized " and " then
      fold_left
        (fun acc part =>
           let trimmed := JS.trim part in
           if JS.truthy trimmed && negb (JS.arr_includes acc trimmed)
           then acc ++ [trimmed] else acc)
        (JS.split normalized " and ") targets
    else if negb (JS.arr_includes targets normalized)
         then targets ++ [normalized] else targets.

(** [pushIndex], on the index targets collected so far. *)
Definition pushIndex (shouldConsiderTargets : bool) (targets : list Z)
           (value : Z) : list Z :=
  if negb shouldConsiderTargets then targets
  else if negb (JS.isFinite value) || (value <=? 0)%Z then targets
  else if negb (existsb (Z.eqb value) targets)
       then targets ++ [value] else targets.

(** The typed value: the number form, overridden by the quoted form; the
    word form is consulted only when neither produced a value and is gated
    on attention language or one of "exactly", "attention", "human". *)
Definition extractTypedValue (raw lower : string) (hasAttentionLanguage : bool)
  : option string :=
  let typedValue :=
    match truthy_capture (match1 typedNumber lower) with
    | Some c => Some (JS.trim c)
    | None => None
    end in
  match truthy_capture (match1 typedQuoted raw) with
  | Some c => Some (JS.trim c)
  | None =>
      if negb (opt_truthy typedValue) then
        match truthy_capture (match1 typedWord lower) with
        | Some c =>
            if hasAttentionLanguage || test typedWordGate lower
            then Some (JS.trim c) else typedValue
        | None => typedValue
        end
      else typedValue
  end.

(** The quoted phrases pushed as label targets when a selection verb
    occurs. *)
Definition quotedLabels (should : bool) (raw lower : string)
           (targets : list string) : list string :=
  if test selectVerb lower then
    fold_left
      (fun acc quoted =>
         match quoted with
         | Some q =>
             let phrase := JS.trim q in
             if JS.truthy phrase then pushLabel should acc phrase else acc
         | None => acc
         end)
      (exec_all quotePattern (S (String.length raw)) raw) targets
  else targets.

Definition phraseLabels (should : bool) (lower : string)
           (phrases : list string) (targets : list string) : list string :=
  fold_left
    (fun acc phrase =>
       if JS.includes lower phrase then pushLabel should acc phrase else acc)
    phrases targets.

Definition wordIndexes (should : bool) (lower : string) (targets : list Z)
  : list Z :=
  fold_left
    (fun acc entry =>
       let word := fst entry in
       if JS.includes lower (word ++ " option")
          || JS.includes lower ("option " ++ word)
          || JS.includes lower (word ++ " answer")
          || JS.includes lower (word ++ " choice")
       then pushIndex should acc (snd entry) else acc)
    numberWords targets.

Definition digitIndex (should : bool) (lower : string) (targets : list Z)
  : list Z :=
  match truthy_capture (match1 numberMatch lower) with
  | Some ds => pushIndex should targets (JS.parseInt ds)
  | None => targets
  end.

Definition keywordList (hasAttentionLanguage : bool) : list string :=
  if hasAttentionLanguage then
    fold_left
      (fun acc keyword =>
         let normalized := normalize keyword in
         if JS.truthy normalized && negb (JS.arr_includes acc normalized)
         then acc ++ [normalized] else acc)
      attentionKeywords []
  else [].

Definition detectAttentionInstruction (text : string) : option Directive :=
  let raw := JS.trim text in
  if negb (JS.truthy raw) then None
  else
    let lower := JS.toLowerCase raw in
    let hasAttentionLanguage := test attentionLanguage lower in
    let hasPoliteInstruction := test politeInstruction lower in
    let shouldConsiderTargets := hasAttentionLanguage || hasPoliteInstruction in
    let typed := extractTypedValue raw lower hasAttentionLanguage in
    let labels := quotedLabels shouldConsiderTargets raw lower [] in
    let labels :=
      if shouldConsiderTargets then
        let labels := phraseLabels shouldConsiderTargets lower explicitPhrases labels in
        if test (Lit "color") lower || hasAttentionLanguage
        then phraseLabels shouldConsiderTargets lower colorPhrases labels
        else labels
      else labels in
    let indexes :=
      if shouldConsiderTargets
      then digitIndex shouldConsiderTargets lower
             (wordIndexes shouldConsiderTargets lower [])
      else [] in
    let keywords := keywordList hasAttentionLanguage in
    let result :=
      mkDirective (JS.dedupe labels) (JS.dedupeZ indexes) typed
                  (JS.dedupe keywords) in
    if negb (JS.nonempty (labelTargets result))
       && negb (JS.nonempty (indexTargets result))
       && negb (JS.nonempty (preferredKeywords result))
       && negb (opt_truthy (typedValue result))
    then None
    else Some result.

End Attention.

(* ===================================================================== *)
(** ** Answer bank ([SerializedAnswerEntry], [findEntry]) *)
(* ===================================================================== *)

Module Bank.

Record Answer : Type := mkAnswer {
  raw : string;
  normalized : string
}.

Record SerializedAnswerEntry : Type := mkEntry {
  rawQuestion : string;
  question : string;
  keywords : list string;
  answers : list Answer
}.

(** The predicate of [answers.find] inside [findEntry]. *)
Definition entryMatches (questionText : string) (entry : SerializedAnswerEntry)
  : bool :=
  (JS.truthy (question entry)
   && (JS.includes questionText (question entry)
       || JS.includes (question entry) questionText))
  || existsb (fun keyword => JS.includes questionText keyword) (keywords entry).

(** [findEntry], given the bank and what [getQuestionText] returns for the
    element. *)
Definition findEntry (bank : list SerializedAnswerEntry)
           (elementQuestionText : string) : option SerializedAnswerEntry :=
  if negb (JS.nonempty bank) then None
  else
    let questionText := Attention.normalize elementQuestionText in
    if negb (JS.truthy questionText) then None
    else find (entryMatches questionText) bank.

(** The lookup as the specification words it: a first pass on the question
    text alone, and a keyword pass only when the first pass finds nothing. *)
Definition questionMatches_spec (prompt : string) (entry : SerializedAnswerEntry)
  : bool :=
  JS.includes prompt (question entry) || JS.includes (question entry) prompt.

Definition keywordMatches_spec (prompt : string) (entry : SerializedAnswerEntry)
  : bool :=
  existsb (fun keyword => JS.includes prompt keyword) (keywords entry).

Definition findEntry_spec (bank : list SerializedAnswerEntry) (prompt : string)
  : option SerializedAnswerEntry :=
  if negb (JS.truthy prompt) then None
  else
    match find (questionMatches_spec prompt) bank with
    | Some entry => Some entry
    | None => find (keywordMatches_spec prompt) bank
    end.

End Bank.

(* ===================================================================== *)
(** ** The page snapshot seen by the in-page script *)
(* ===================================================================== *)

Module Dom.

(** The element found by [closest("[role=group], [data-question], .question,
    .survey-question, .surveyQuestion, .questionContainer")]. *)
Record Container : Type := mkContainer {
  headingText : option string;  (* querySelector("h1, h2, h3, h4, h5, h6,
                                   label, strong, p")?.innerText *)
  startsWithText : bool;        (* container.firstChild instanceof Text *)
  textContent : string          (* container.textContent *)
}.

(** [input.type], for the kinds of input the script selects. *)
Inductive InputType : Type :=
| RadioType
| CheckboxType
| TextType
| NumberType
| TelType
| DateType
| TimeType.

(** An [<input>] element (radio, checkbox or text-like): what the script
    reads from it and around it.  [None] stands for [null] or [undefined]: an
    attribute that is not set, an element that is not there. *)
Record Input : Type := mkInput {
  inputType : InputType;            (* input.type *)
  labelTexts : list string;         (* the innerText of each of input.labels *)
  ariaLabel : option string;        (* getAttribute("aria-label") *)
  ariaDescribedBy : option string;  (* getAttribute("aria-describedby") *)
  describedText : option string;    (* document.getElementById(describedBy)
                                       ?.innerText *)
  closestLabelText : option string; (* input.closest("label")?.innerText *)
  ownText : string;                 (* input.innerText *)
  legendText : option string;       (* input.closest("fieldset")
                                       ?.querySelector("legend")?.innerText *)
  container : option Container;     (* input.closest("[role=group], ...") *)
  previousText : option string;     (* input.previousElementSibling
                                       ?.innerText *)
  nameAttr : option string;         (* getAttribute("name"); [input.name]
                                       reflects it *)
  idAttr : option string;           (* getAttribute("id") *)
  placeholder : string;             (* input.placeholder *)
  checked : bool;                   (* input.checked *)
  disabled : bool;                  (* input.disabled *)
  displayed : bool                  (* input.offsetParent !== null *)
}.

Definition name (i : Input) : string :=
  match nameAttr i with
  | Some n => n
  | None => EmptyString
  end.

(** [if (x)] on a string that may be missing. *)
Definition present (o : option string) : bool :=
  match o with
  | Some s => JS.truthy s
  | None => false
  end.

(** [getLabelText] on an input: the text of its first label; else its
    aria-label; else the text of the element its aria-describedby names;
    else the text of the label it sits in; else its own text. *)
Definition getLabelText (input : Input) : string :=
  match labelTexts input with
  | first :: _ => first
  | [] =>
      if present (ariaLabel input)
      then JS.opt_or_else (ariaLabel input) EmptyString
      else
        match (if present (ariaDescribedBy input)
               then describedText input else None) with
        | Some described => described
        | None =>
            match closestLabelText input with
            | Some text => text
            | None => ownText input
            end
        end
  end.

(** The part of [getQuestionText] that looks at the container. *)
Definition containerText (c : option Container) (otherwise : string)
  : string :=
  match c with
  | Some c =>
      JS.opt_or_else (headingText c)
        (if startsWithText c then textContent c else otherwise)
  | None => otherwise
  end.

(** [getQuestionText] on an input: the first of these that is there and not
    empty: the text of its first label, its aria-label, the legend of its
    fieldset, the heading of its container (or the container's text when the
    container starts with text), the text of the element before it; else its
    name, else its id. *)
Definition getQuestionText (input : Input) : string :=
  JS.opt_or_else (hd_error (labelTexts input))
    (JS.opt_or_else (ariaLabel input)
       (JS.opt_or_else (legendText input)
          (containerText (container input)
             (JS.opt_or_else (previousText input)
                match nameAttr input with
                | Some n => n
                | None =>
                    match idAttr input with
                    | Some i => i
                    | None => EmptyString
                    end
                end)))).

(** [input.value = text]: what the control then holds.  A text or telephone
    input drops the line breaks of the text.  A number, date or time input
    keeps the text when it is a number, a date or a time in the browser's
    format and is emptied otherwise; the format itself is not modelled, only
    that such a text begins with a digit (for a number also with a minus
    sign or a point). *)
Inductive Held : Type :=
| Holds (value : string)
| IfWellFormed (text : string).

Definition is_line_break (c : ascii) : bool :=
  (JS.code c =? 10)%nat || (JS.code c =? 13)%nat.

Fixpoint stripLineBreaks (s : string) : string :=
  match s with
  | EmptyString => EmptyString
  | String c rest =>
      if is_line_break c then stripLineBreaks rest
      else String c (stripLineBreaks rest)
  end.

Definition startsWithDigit (s : string) : bool :=
  match s with
  | String c _ => JS.is_digit c
  | EmptyString => false
  end.

Definition startsNumber (s : string) : bool :=
  match s with
  | String c _ =>
      JS.is_digit c || (JS.code c =? 45)%nat || (JS.code c =? 46)%nat
  | EmptyString => false
  end.

Definition assignValue (type : InputType) (text : string) : Held :=
  match type with
  | TextType | TelType => Holds (stripLineBreaks text)
  | NumberType => if startsNumber text then IfWellFormed text
                  else Holds EmptyString
  | DateType | TimeType => if startsWithDigit text then IfWellFormed text
                           else Holds EmptyString
  | RadioType | CheckboxType => Holds text
  end.

Record OptionElement : Type := mkOption {
  value : string;               (* option.value *)
  innerText : string;           (* option.innerText *)
  optionDisabled : bool         (* option.disabled *)
}.

Record Select : Type := mkSelect {
  selectQuestionText : string;  (* getQuestionText(select) *)
  options : list OptionElement; (* select.options *)
  selectDisabled : bool;
  selectDisplayed : bool
}.

(** [select.value = v]: the option that is selected afterwards is the first
    option, in document order, whose value is [v], disabled or not. *)
Definition selectedAfter (select : Select) (v : string)
  : option OptionElement :=
  find (fun o => String.eqb (value o) v) (options select).

Record TextArea : Type := mkTextArea {
  areaQuestionText : string;    (* getQuestionText(textarea) *)
  collectedPrompt : string;     (* collectPrompt(textarea) *)
  answerKey : option string;    (* textarea.dataset.answerKey *)
  areaName : string;            (* textarea.name *)
  areaId : string;              (* textarea.id *)
  dataQuestionId : option string;
  ariaLabelledBy : option string;
  areaAriaLabel : option string;
  areaPlaceholder : string;     (* textarea.placeholder *)
  rowsProp : Z;                 (* textarea.rows *)
  minLengthProp : Z;            (* textarea.minLength, -1 when not set *)
  maxLengthProp : Z;            (* textarea.maxLength, -1 when not set *)
  areaDisabled : bool;
  areaDisplayed : bool
}.

(** What the selectors of the script return, in document order, and the
    visible text of the body. *)
Record Document : Type := mkDocument {
  radios : list Input;          (* input[type=radio] *)
  checkboxes : list Input;      (* input[type=checkbox] *)
  selects : list Select;        (* select *)
  textInputs : list Input;      (* input[type=text], number, tel, date, time *)
  textareas : list TextArea;    (* textarea *)
  bodyText : string             (* document.body.innerText *)
}.

Definition visible (i : Input) : bool := negb (disabled i) && displayed i.
Definition visibleSelect (s : Select) : bool :=
  negb (selectDisabled s) && selectDisplayed s.
Definition visibleArea (t : TextArea) : bool :=
  negb (areaDisabled t) && areaDisplayed t.

End Dom.

(* ===================================================================== *)
(** ** [Math.random] as an explicit source *)
(* ===================================================================== *)

Module Rng.

(** The draws of [Math.random()], in call order, and the number of draws
    consumed so far. *)
Record t : Type := mk {
  draws : nat -> Q;
  used : nat
}.

Definition random (g : t) : Q * t :=
  (draws g (used g), mk (draws g) (S (used g))).

(** Every draw lies in the half-open unit interval. *)
Definition unit_interval (g : t) : Prop :=
  forall n, (0 <= draws g n)%Q /\ (draws g n < 1)%Q.

(** [Math.floor(Math.random() * n)]. *)
Definition randomIndex (n : nat) (g : t) : Z * t :=
  let (r, g') := random g in
  (Qfloor (r * inject_Z (Z.of_nat n))%Q, g').

End Rng.

(* ===================================================================== *)
(** ** Field resolution ([answerCurrentStep], the in-page script) *)
(* ===================================================================== *)

Module Resolver.

Import Attention Bank Dom.

Definition is_some {A : Type} (o : option A) : bool :=
  match o with
  | Some _ => true
  | None => false
  end.

(** [for (x of xs) { v = f(x); if (v) break; }]: every iteration assigns. *)
Fixpoint assign_until {A B : Type} (f : A -> option B) (xs : list A)
         (current : option B) : option B :=
  match xs with
  | [] => current
  | x :: rest =>
      match f x with
      | Some b => Some b
      | None => assign_until f rest None
      end
  end.

(** [for (x of xs) { c = f(x); if (c) { v = c; break; } }]: only a hit
    assigns. *)
Fixpoint first_hit {A B : Type} (f : A -> option B) (xs : list A)
         (current : option B) : option B :=
  match xs with
  | [] => current
  | x :: rest =>
      match f x with
      | Some b => Some b
      | None => first_hit f rest current
      end
  end.

Definition labelMatch (text target : string) : bool :=
  JS.includes text target || JS.includes target text.

Definition keywordMatch (keywords : list string) (text : string) : bool :=
  existsb (fun keyword => JS.truthy keyword && JS.includes text keyword) keywords.

(** [attention?.labelTargets] and its siblings. *)
Definition labelsOf (attention : option Directive) : list string :=
  match attention with Some d => labelTargets d | None => [] end.
Definition keywordsOf (attention : option Directive) : list string :=
  match attention with Some d => preferredKeywords d | None => [] end.
Definition indexesOf (attention : option Directive) : list Z :=
  match attention with Some d => indexTargets d | None => [] end.
Definition typedOf (attention : option Directive) : option string :=
  match attention with Some d => typedValue d | None => None end.

(** [entry?.answers[0]?.raw] *)
Definition firstRaw (entry : option SerializedAnswerEntry) : option string :=
  match entry with
  | Some e =>
      match answers e with
      | a :: _ => Some (raw a)
      | [] => None
      end
  | None => None
  end.

Definition chooseRandom {A : Type} (items : list A) (g : Rng.t)
  : option A * Rng.t :=
  match items with
  | [] => (None, g)
  | _ :: _ =>
      let (index, g') := Rng.randomIndex (List.length items) g in
      (JS.at_index items index, g')
  end.

(** *** Radio groups *)

Definition radioLabelStage (attention : option Directive) (group : list Input)
  : option Input :=
  if JS.nonempty (labelsOf attention) then
    assign_until
      (fun target =>
         find (fun candidate =>
                 labelMatch (normalize (getLabelText candidate)) target) group)
      (labelsOf attention) None
  else None.

Definition radioKeywordStage (attention : option Directive)
           (group : list Input) (picked : option Input) : option Input :=
  if negb (is_some picked) && JS.nonempty (keywordsOf attention) then
    find (fun candidate =>
            keywordMatch (keywordsOf attention)
                         (normalize (getLabelText candidate))) group
  else picked.

Definition radioIndexStage (attention : option Directive)
           (group : list Input) (picked : option Input) : option Input :=
  if negb (is_some picked) && JS.nonempty (indexesOf attention) then
    first_hit (fun indexTarget => JS.at_index group (indexTarget - 1)%Z)
              (indexesOf attention) picked
  else picked.

Definition radioBankStage (entry : option SerializedAnswerEntry)
           (group : list Input) (picked : option Input) : option Input :=
  match picked, entry with
  | None, Some e =>
      assign_until
        (fun answer =>
           find (fun candidate =>
                   labelMatch (normalize (getLabelText candidate))
                              (normalized answer)) group)
        (answers e) picked
  | _, _ => picked
  end.

(** The option a radio group ends up with, before the click. *)
Definition radioChain (attention : option Directive)
           (entry : option SerializedAnswerEntry) (group : list Input)
           (g : Rng.t) : option Input * Rng.t :=
  let picked := radioLabelStage attention group in
  let picked := radioKeywordStage attention group picked in
  let picked := radioIndexStage attention group picked in
  let picked := radioBankStage entry group picked in
  match picked with
  | Some p => (Some p, g)
  | None => chooseRandom group g
  end.

Definition radioOption (bank : list SerializedAnswerEntry)
           (group : list Input) (g : Rng.t) : option Input * Rng.t :=
  match group with
  | [] => radioChain None None group g
  | first :: _ =>
      let questionText := getQuestionText first in
      let attention :=
        if JS.truthy questionText
        then detectAttentionInstruction questionText else None in
      let entry := findEntry bank (Dom.getQuestionText first) in
      radioChain attention entry group g
  end.

(** [radiosByName]: groups in order of first appearance, members in
    document order. *)
Fixpoint addToGroup (radio : Input) (groups : list (string * list Input))
  : list (string * list Input) :=
  match groups with
  | [] => [(Dom.name radio, [radio])]
  | (n, members) :: rest =>
      if String.eqb n (Dom.name radio)
      then (n, members ++ [radio]) :: rest
      else (n, members) :: addToGroup radio rest
  end.

Definition radiosByName (visibleRadios : list Input)
  : list (string * list Input) :=
  fold_left (fun groups radio => addToGroup radio groups) visibleRadios [].

(** *** Selects *)

Definition selectable (o : OptionElement) : bool :=
  JS.truthy (value o) && negb (optionDisabled o).

Definition optionText (o : OptionElement) : string :=
  normalize (JS.or_else (innerText o) (value o)).

Definition selectLabelStage (attention : option Directive)
           (opts : list OptionElement) : option OptionElement :=
  if JS.nonempty (labelsOf attention) then
    assign_until
      (fun target =>
         find (fun o => selectable o && labelMatch (optionText o) target) opts)
      (labelsOf attention) None
  else None.

Definition selectKeywordStage (attention : option Directive)
           (opts : list OptionElement) (choice : option OptionElement)
  : option OptionElement :=
  if negb (is_some choice) && JS.nonempty (keywordsOf attention) then
    find (fun o => selectable o
                   && keywordMatch (keywordsOf attention) (optionText o)) opts
  else choice.

Definition selectIndexStage (attention : option Directive)
           (opts : list OptionElement) (choice : option OptionElement)
  : option OptionElement :=
  if negb (is_some choice) && JS.nonempty (indexesOf attention) then
    first_hit
      (fun indexTarget =>
         match JS.at_index opts (indexTarget - 1)%Z with
         | Some candidate =>
             if selectable candidate then Some candidate else None
         | None => None
         end)
      (indexesOf attention) choice
  else choice.

(** The bank stage of a select runs whenever an entry was found: the source
    tests [if (entry)], not [if (!choice && entry)]. *)
Definition selectBankStage (entry : option SerializedAnswerEntry)
           (opts : list OptionElement) (choice : option OptionElement)
  : option OptionElement :=
  match entry with
  | Some e =>
      assign_until
        (fun answer =>
           find (fun o => selectable o
                          && labelMatch (optionText o) (normalized answer)) opts)
        (answers e) choice
  | None => choice
  end.

Definition selectFallback (opts : list OptionElement)
           (choice : option OptionElement) : option OptionElement :=
  match choice with
  | Some c => Some c
  | None => find selectable opts
  end.

(** What the three attention stages of a select leave in [choice]. *)
Definition selectAttentionStages (attention : option Directive)
           (opts : list OptionElement) : option OptionElement :=
  selectIndexStage attention opts
    (selectKeywordStage attention opts (selectLabelStage attention opts)).

Definition selectChain (attention : option Directive)
           (entry : option SerializedAnswerEntry) (opts : list OptionElement)
  : option OptionElement :=
  let choice := selectLabelStage attention opts in
  let choice := selectKeywordStage attention opts choice in
  let choice := selectIndexStage attention opts choice in
  let choice := selectBankStage entry opts choice in
  selectFallback opts choice.

Definition selectChoice (bank : list SerializedAnswerEntry) (select : Select)
  : option OptionElement :=
  let attention := detectAttentionInstruction (selectQuestionText select) in
  let entry := findEntry bank (selectQuestionText select) in
  selectChain attention entry (options select).

(** *** Short-text inputs *)

Definition textSample (bank : list SerializedAnswerEntry) (input : Input)
  : string :=
  let attention := detectAttentionInstruction (Dom.getQuestionText input) in
  let entry := findEntry bank (Dom.getQuestionText input) in
  JS.opt_or_else (typedOf attention)
    (JS.opt_or_else (firstRaw entry)
       (JS.or_else (placeholder input)
          (JS.opt_or_else (ariaLabel input)
             (JS.opt_or_else (nameAttr input) "Sample answer")))).

End Resolver.

(* ===================================================================== *)
(** ** Long-form responder ([GptLongFormResponder.generate]) *)
(* ===================================================================== *)

Module Responder.

(** How a call ends: it returns (a promise resolves) or it throws (a
    promise rejects). *)
Inductive outcome (A : Type) : Type :=
| Returned : A -> outcome A
| Thrown : string -> outcome A.

Arguments Returned {A} _.
Arguments Thrown {A} _.

Definition bind {A B : Type} (m : outcome A) (f : A -> outcome B) : outcome B :=
  match m with
  | Returned a => f a
  | Thrown e => Thrown e
  end.

(** [try { body } catch (error) { handler }] *)
Definition try_catch {A : Type} (body : outcome A) (handler : string -> outcome A)
  : outcome A :=
  match body with
  | Returned a => Returned a
  | Thrown e => handler e
  end.

Record GptLongFormRequest : Type := mkRequest {
  prompt : string;
  minLength : option Z;
  maxLength : option Z;
  fallback : option string
}.

(** The argument of [client.responses.create]. *)
Record CreateParams : Type := mkParams {
  paramModel : string;
  systemContent : string;
  userContent : string;
  max_output_tokens : Z
}.

Record Response : Type := mkResponse {
  output_text : option string
}.

(** The provider: it throws, or resolves to a response object (possibly
    without [output_text]), or resolves to no object at all. *)
Definition Client : Type := CreateParams -> outcome (option Response).

Record GptLongFormResponder : Type := mkResponder {
  client : Client;
  model : string;
  basePrompt : string
}.

Definition decimal (z : Z) : string := NilZero.string_of_int (Z.to_int z).

(** [n && n > 0] on an optional number. *)
Definition positive (n : option Z) : option Z :=
  match n with
  | Some v => if (0 <? v)%Z then Some v else None
  | None => None
  end.

Definition newline : string := String (ascii_of_nat 10) EmptyString.

Fixpoint join (sep : string) (parts : list string) : string :=
  match parts with
  | [] => EmptyString
  | [p] => p
  | p :: rest => (p ++ sep ++ join sep rest)%string
  end.

Definition requirements (request : GptLongFormRequest) : list string :=
  [ "Respond as a human participant describing personal experiences.";
    "Keep the answer within 3-5 sentences unless the question requests otherwise." ]
  ++ match positive (minLength request) with
     | Some v =>
         [ ("Ensure the response is at least " ++ decimal v ++ " characters.")%string ]
     | None => []
     end
  ++ match positive (maxLength request) with
     | Some v =>
         [ ("Keep the response under " ++ decimal v ++ " characters.")%string ]
     | None => []
     end.

Definition createParams (self : GptLongFormResponder)
           (request : GptLongFormRequest) (trimmedPrompt : string)
  : CreateParams :=
  mkParams (model self)
           (basePrompt self ++ newline ++ newline
            ++ join newline (requirements request))%string
           ("Survey prompt: " ++ trimmedPrompt ++ newline ++ newline
            ++ "Write a thoughtful answer in the first person.")%string
           match positive (maxLength request) with
           | Some v => Z.max 120 v
           | None => 240%Z
           end.

(** The body of the [try] block: [Some text] stands for its [return text],
    [None] for running off its end. *)
Definition attempt (self : GptLongFormResponder) (request : GptLongFormRequest)
           (trimmedPrompt : string) : outcome (option string) :=
  bind (client self (createParams self request trimmedPrompt))
       (fun response =>
          match response with
          | None => Thrown "TypeError: cannot read properties of undefined"
          | Some r =>
              match output_text r with
              | Some t =>
                  let text := JS.trim t in
                  if JS.truthy text then Returned (Some text) else Returned None
              | None => Returned None
              end
          end).

Definition generate (self : GptLongFormResponder) (request : GptLongFormRequest)
  : outcome (option string) :=
  let trimmedPrompt := JS.trim (prompt request) in
  if negb (JS.truthy trimmedPrompt) then Returned (fallback request)
  else
    bind (try_catch (attempt self request trimmedPrompt)
                    (fun _error => Returned None))
         (fun early =>
            match early with
            | Some text => Returned (Some text)
            | None => Returned (fallback request)
            end).

End Responder.

(* ===================================================================== *)
(** ** Long-form requests ([buildLongFormAnswers]) *)
(* ===================================================================== *)

Module LongForm.

Import Dom Responder.

Record LongFormTarget : Type := mkTarget {
  key : string;
  targetPrompt : string;
  targetMinLength : option Z;
  targetMaxLength : option Z;
  targetPlaceholder : option string;
  rows : option Z
}.

(** The answers object, a plain object: the list of its own keys with their
    values. *)
Definition Answers : Type := list (string * string).

(** The own property [k] of the object. *)
Fixpoint own (k : string) (m : Answers) : option string :=
  match m with
  | [] => None
  | (k', v) :: rest => if String.eqb k k' then Some v else own k rest
  end.

Fixpoint define (k v : string) (m : Answers) : Answers :=
  match m with
  | [] => [(k, v)]
  | (k', v') :: rest =>
      if String.eqb k k' then (k, v) :: rest else (k', v') :: define k v rest
  end.

(** [answers[k] = v] with a string [v]: it creates or overwrites the own
    property [k], except for the key [__proto__], whose inherited setter
    ignores a string. *)
Definition store (k v : string) (m : Answers) : Answers :=
  if String.eqb k "__proto__" then m else define k v m.

(** The members every plain object inherits from [Object.prototype]. *)
Definition inheritedNames : list string :=
  [ "constructor"; "__defineGetter__"; "__defineSetter__"; "hasOwnProperty";
    "__lookupGetter__"; "__lookupSetter__"; "isPrototypeOf";
    "propertyIsEnumerable"; "toString"; "valueOf"; "__proto__";
    "toLocaleString" ].

(** What [longForm[k]] evaluates to: a stored text, or an inherited member
    (a built-in function, or the prototype object for [__proto__]). *)
Inductive Member : Type :=
| Text (text : string)
| Inherited (name : string).

Definition lookup (k : string) (m : Answers) : option Member :=
  match own k m with
  | Some v => Some (Text v)
  | None => if JS.arr_includes inheritedNames k then Some (Inherited k)
            else None
  end.

(** The string a member becomes when it is assigned to [textarea.value]: a
    built-in function prints as its native source text, the prototype
    object as an object. *)
Definition memberText (member : Member) : string :=
  match member with
  | Text text => text
  | Inherited name =>
      if String.eqb name "__proto__" then "[object Object]"
      else if String.eqb name "constructor"
      then "function Object() { [native code] }"
      else ("function " ++ name ++ "() { [native code] }")%string
  end.

Definition indexText (index : nat) : string :=
  NilEmpty.string_of_uint (Nat.to_uint index).

(** The key a textarea gets when none is cached on it. *)
Definition freshKey (textarea : TextArea) (index : nat) : string :=
  JS.or_else (areaName textarea)
    (JS.or_else (areaId textarea)
       (JS.opt_or_else (dataQuestionId textarea)
          (JS.opt_or_else (ariaLabelledBy textarea)
             (JS.opt_or_else (areaAriaLabel textarea)
                (JS.or_else (areaPlaceholder textarea)
                   ("textarea-" ++ indexText index)%string))))).

(** [deriveKey]: the cached key when there is one, else a fresh key. *)
Definition deriveKey (textarea : TextArea) (index : nat) : string :=
  match answerKey textarea with
  | Some cached => if JS.truthy cached then cached else freshKey textarea index
  | None => freshKey textarea index
  end.

Definition truthyZ (z : Z) : option Z :=
  if (z =? 0)%Z then None else Some z.

Definition truthyString (s : string) : option string :=
  if JS.truthy s then Some s else None.

Definition toTarget (textarea : TextArea) (index : nat) : LongFormTarget :=
  mkTarget (deriveKey textarea index)
           (collectedPrompt textarea)
           (if (0 <? minLengthProp textarea)%Z
            then Some (minLengthProp textarea) else None)
           (if (0 <? maxLengthProp textarea)%Z
            then Some (maxLengthProp textarea) else None)
           (truthyString (areaPlaceholder textarea))
           (truthyZ (rowsProp textarea)).

Fixpoint mapi {A B : Type} (f : A -> nat -> B) (index : nat) (l : list A)
  : list B :=
  match l with
  | [] => []
  | x :: rest => f x index :: mapi f (S index) rest
  end.

(** The targets collected in the page: enabled, displayed textareas. *)
Definition collectTargets (doc : Document) : list LongFormTarget :=
  mapi toTarget 0 (filter visibleArea (textareas doc)).

Definition orZero (n : option Z) : Z :=
  match n with
  | Some v => v
  | None => 0%Z
  end.

Definition shouldUseGpt (target : LongFormTarget) : bool :=
  (2 <? orZero (rows target))%Z
  || (120 <=? orZero (targetMinLength target))%Z
  || (40 <=? String.length (targetPrompt target))%nat.

Definition defaultLongForm : string :=
  "This response was generated automatically.".

Definition requestFor (target : LongFormTarget) : GptLongFormRequest :=
  let fallback :=
    match targetPlaceholder target with
    | Some p =>
        if (0 <? String.length (JS.trim p))%nat then p else defaultLongForm
    | None => defaultLongForm
    end in
  mkRequest
    (JS.or_else (targetPrompt target)
       (JS.opt_or_else (targetPlaceholder target)
          "Provide a friendly, first-person survey response."))
    (targetMinLength target) (targetMaxLength target) (Some fallback).

(** What one call of [buildLongFormAnswers] did: the answers it returns and
    the requests it sent to the responder, in order. *)
Record Built : Type := mkBuilt {
  answers : Answers;
  requests : list GptLongFormRequest
}.

Fixpoint requestLoop (responder : GptLongFormResponder)
         (targets : list LongFormTarget) (acc : Built) : outcome Built :=
  match targets with
  | [] => Returned acc
  | target :: rest =>
      if negb (shouldUseGpt target) then requestLoop responder rest acc
      else
        let request := requestFor target in
        bind (generate responder request)
             (fun response =>
                let answers' :=
                  match response with
                  | Some text =>
                      if JS.truthy text
                      then store (key target) text (answers acc)
                      else answers acc
                  | None => answers acc
                  end in
                requestLoop responder rest
                            (mkBuilt answers' (requests acc ++ [request])))
  end.

Definition buildLongFormAnswers (longFormResponder : option GptLongFormResponder)
           (doc : Document) : outcome Built :=
  match longFormResponder with
  | None => Returned (mkBuilt [] [])
  | Some responder => requestLoop responder (collectTargets doc) (mkBuilt [] [])
  end.

(** The document after the target collection, which caches each derived key
    on its textarea. *)
Fixpoint cacheKeys (index : nat) (areas : list TextArea) : list TextArea :=
  match areas with
  | [] => []
  | t :: rest =>
      if visibleArea t
      then mkTextArea (areaQuestionText t) (collectedPrompt t)
                      (Some (deriveKey t index)) (areaName t) (areaId t)
                      (dataQuestionId t) (ariaLabelledBy t) (areaAriaLabel t)
                      (areaPlaceholder t) (rowsProp t) (minLengthProp t)
                      (maxLengthProp t) (areaDisabled t) (areaDisplayed t)
           :: cacheKeys (S index) rest
      else t :: cacheKeys index rest
  end.

Definition afterCollect (longFormResponder : option GptLongFormResponder)
           (doc : Document) : Document :=
  match longFormResponder with
  | None => doc
  | Some _ =>
      mkDocument (radios doc) (checkboxes doc) (selects doc) (textInputs doc)
                 (cacheKeys 0 (textareas doc)) (bodyText doc)
  end.

End LongForm.

(* ===================================================================== *)
(** ** The whole field pass ([answerCurrentStep]) *)
(* ===================================================================== *)

Module Script.

Import Attention Bank Dom Resolver.

(** The DOM effects of the pass, in the order they happen: [option.click()],
    [checkbox.click()], [select.value = value], [input.value = sample] and
    [textarea.value = sample] (the last three with their events). *)
Inductive Action : Type :=
| ClickRadio (radio : Input)
| ClickCheckbox (index : nat)
| AssignSelect (select : Select) (value : string)
| TypeInput (input : Input) (sample : string)
| TypeArea (key : string) (sample : string).

(** The running state of the pass: the [interacted] flag, the effects so far
    and the random source. *)
Record Pass : Type := mkPass {
  interacted : bool;
  actions : list Action;
  rng : Rng.t
}.

Definition act (a : Action) (p : Pass) : Pass :=
  mkPass true (actions p ++ [a]) (rng p).

(** *** Radio groups, in order of first appearance *)

Definition radioPass (bank : list SerializedAnswerEntry)
           (groups : list (string * list Input)) (p : Pass) : Pass :=
  fold_left
    (fun p group =>
       let (picked, g) := radioOption bank (snd group) (rng p) in
       let p := mkPass (interacted p) (actions p) g in
       match picked with
       | Some radio => act (ClickRadio radio) p
       | None => p
       end)
    groups p.

(** *** Checkboxes: one group made of all visible checkboxes.  A checkbox is
    identified by its position; clicking toggles its [checked] flag, which
    later tests read. *)

Fixpoint find_index {A : Type} (f : A -> bool) (l : list A) (index : nat)
  : option nat :=
  match l with
  | [] => None
  | x :: rest => if f x then Some index else find_index f rest (S index)
  end.

Definition index_at {A : Type} (l : list A) (i : Z) : option nat :=
  match JS.at_index l i with
  | Some _ => Some (Z.to_nat i)
  | None => None
  end.

Definition isChecked (boxes : list Input) (index : nat) : bool :=
  match nth_error boxes index with
  | Some box => checked box
  | None => false
  end.

Definition toggle (box : Input) : Input :=
  mkInput (inputType box) (labelTexts box) (ariaLabel box)
          (ariaDescribedBy box) (describedText box) (closestLabelText box)
          (ownText box) (legendText box) (container box) (previousText box)
          (nameAttr box) (idAttr box) (placeholder box)
          (negb (checked box)) (disabled box) (displayed box).

Fixpoint click (boxes : list Input) (index : nat) : list Input :=
  match boxes, index with
  | [], _ => []
  | box :: rest, O => toggle box :: rest
  | box :: rest, S index' => box :: click rest index'
  end.

Definition pushRequired (required : list nat) (found : option nat) : list nat :=
  match found with
  | Some index =>
      if existsb (Nat.eqb index) required then required
      else required ++ [index]
  | None => required
  end.

Definition requiredBoxes (attention : Directive) (boxes : list Input)
  : list nat :=
  let required : list nat := [] in
  let required :=
    if JS.nonempty (labelTargets attention) then
      fold_left
        (fun required target =>
           pushRequired required
             (find_index (fun candidate =>
                            labelMatch (normalize (getLabelText candidate)) target)
                         boxes 0))
        (labelTargets attention) required
    else required in
  let required :=
    if negb (JS.nonempty required) && JS.nonempty (preferredKeywords attention)
    then
      match find_index
              (fun candidate =>
                 keywordMatch (preferredKeywords attention)
                              (normalize (getLabelText candidate))) boxes 0 with
      | Some index => required ++ [index]
      | None => required
      end
    else required in
  if negb (JS.nonempty required) && JS.nonempty (indexTargets attention) then
    fold_left
      (fun required indexTarget =>
         pushRequired required (index_at boxes (indexTarget - 1)%Z))
      (indexTargets attention) required
  else required.

(** The state threaded through the checkbox block. *)
Record Boxes : Type := mkBoxes {
  boxes : list Input;
  pass : Pass;
  matched : bool
}.

(** [if (!checkbox.checked) { checkbox.click(); interacted = true; }];
    [mark] is what the branch does to [matched]. *)
Definition clickUnchecked (mark : bool) (st : Boxes) (index : nat) : Boxes :=
  if negb (isChecked (boxes st) index)
  then mkBoxes (click (boxes st) index) (act (ClickCheckbox index) (pass st))
               (matched st || mark)
  else st.

Fixpoint insertByWeight (x : nat * Q) (sorted : list (nat * Q))
  : list (nat * Q) :=
  match sorted with
  | [] => [x]
  | y :: rest =>
      if Qle_bool (snd y) (snd x) then y :: insertByWeight x rest
      else x :: y :: rest
  end.

(** The stable ascending sort on the weights. *)
Definition sortByWeight (l : list (nat * Q)) : list (nat * Q) :=
  fold_left (fun sorted x => insertByWeight x sorted) l [].

Fixpoint drawWeights (count index : nat) (g : Rng.t)
  : list (nat * Q) * Rng.t :=
  match count with
  | O => ([], g)
  | S count' =>
      let (weight, g') := Rng.random g in
      let (rest, g'') := drawWeights count' (S index) g' in
      ((index, weight) :: rest, g'')
  end.

Definition checkboxPass (bank : list SerializedAnswerEntry)
           (visibleBoxes : list Input) (p : Pass) : Pass :=
  match visibleBoxes with
  | [] => p
  | first :: _ =>
      let attention := detectAttentionInstruction (Dom.getQuestionText first) in
      let entry := findEntry bank (Dom.getQuestionText first) in
      let st := mkBoxes visibleBoxes p false in
      let st :=
        match attention with
        | Some directive =>
            let required := requiredBoxes directive (boxes st) in
            let st := fold_left (clickUnchecked false) required st in
            mkBoxes (boxes st) (pass st) (JS.nonempty required)
        | None => st
        end in
      let st :=
        match entry with
        | Some e =>
            if negb (matched st) then
              fold_left
                (fun st answer =>
                   match find_index
                           (fun candidate =>
                              labelMatch (normalize (getLabelText candidate))
                                         (normalized answer))
                           (boxes st) 0 with
                   | Some index => clickUnchecked true st index
                   | None => st
                   end)
                (answers e) st
            else st
        | None => st
        end in
      if negb (matched st) then
        let selections := Nat.max 1 (Nat.min (List.length (boxes st)) 2) in
        let (weighted, g) :=
          drawWeights (List.length (boxes st)) 0 (rng (pass st)) in
        let shuffled := map fst (firstn selections (sortByWeight weighted)) in
        let st :=
          mkBoxes (boxes st)
                  (mkPass (interacted (pass st)) (actions (pass st)) g)
                  (matched st) in
        pass (fold_left (clickUnchecked false) shuffled st)
      else pass st
  end.

(** *** Selects *)

Definition selectPass (bank : list SerializedAnswerEntry)
           (visibleSelects : list Select) (p : Pass) : Pass :=
  fold_left
    (fun p select =>
       match selectChoice bank select with
       | Some choice => act (AssignSelect select (value choice)) p
       | None => p
       end)
    visibleSelects p.

(** *** Short-text inputs: the first two visible ones *)

Definition textPass (bank : list SerializedAnswerEntry)
           (visibleInputs : list Input) (p : Pass) : Pass :=
  fold_left
    (fun p input => act (TypeInput input (textSample bank input)) p)
    (firstn 2 visibleInputs) p.

(** *** Long-form textareas *)

Definition areaSample (bank : list SerializedAnswerEntry)
           (longForm : LongForm.Answers) (textarea : TextArea) (index : nat)
  : string :=
  let attention := detectAttentionInstruction (areaQuestionText textarea) in
  let entry := findEntry bank (areaQuestionText textarea) in
  let longFormSample :=
    option_map LongForm.memberText
      (LongForm.lookup (LongForm.deriveKey textarea index) longForm) in
  JS.opt_or_else (typedOf attention)
    (JS.opt_or_else longFormSample
       (JS.opt_or_else (firstRaw entry)
          (JS.or_else (areaPlaceholder textarea)
             (JS.opt_or_else (areaAriaLabel textarea)
                LongForm.defaultLongForm)))).

Fixpoint areaPass (bank : list SerializedAnswerEntry)
         (longForm : LongForm.Answers) (index : nat)
         (visibleAreas : list TextArea) (p : Pass) : Pass :=
  match visibleAreas with
  | [] => p
  | textarea :: rest =>
      areaPass bank longForm (S index) rest
               (act (TypeArea (LongForm.deriveKey textarea index)
                              (areaSample bank longForm textarea index)) p)
  end.

(** The script evaluated in the frame: radios, checkboxes, selects, short
    text, long form, in this order; it returns [interacted]. *)
Definition answerCurrentStep (bank : list SerializedAnswerEntry)
           (longFormAnswers : LongForm.Answers) (doc : Document) (g : Rng.t)
  : Pass :=
  let p := mkPass false [] g in
  let p := radioPass bank (radiosByName (filter visible (radios doc))) p in
  let p := checkboxPass bank (filter visible (checkboxes doc)) p in
  let p := selectPass bank (filter visibleSelect (selects doc)) p in
  let p := textPass bank (filter visible (textInputs doc)) p in
  areaPass bank longFormAnswers 0 (filter visibleArea (textareas doc)) p.

End Script.

(* ===================================================================== *)
(** ** The step loop ([answerSurvey]) *)
(* ===================================================================== *)

Module Steps.

Import Dom Responder.

Record Frame : Type := mkFrame {
  frameId : nat;                (* the identity of the frame object *)
  url : string                  (* frame.url() *)
}.

Definition sameFrame (a b : Frame) : bool := Nat.eqb (frameId a) (frameId b).

Record Page : Type := mkPage {
  frames : list Frame;          (* page.frames() *)
  mainFrame : Frame             (* page.mainFrame() *)
}.

(** [/survey|qualtrics|question|form/i] *)
Definition surveyUrl : Regex.regex :=
  Regex.Alts [ Regex.LitI "survey"; Regex.LitI "qualtrics";
               Regex.LitI "question"; Regex.LitI "form" ].

(** [getActiveSurveyFrame], on the page [getPage()] returned: the result
    type of the source is [Frame | undefined]. *)
Definition getActiveSurveyFrame (page : Page) : option Frame :=
  let candidate :=
    find (fun frame =>
            Regex.test surveyUrl (url frame)
            && negb (sameFrame frame (mainFrame page)))
         (frames page) in
  match candidate with
  | Some frame => Some frame
  | None => Some (mainFrame page)
  end.

Definition completionHints : list string :=
  [ "thank you"; "completed"; "finished"; "you've earned"; "no more surveys" ].

Definition hasCompletedSurvey (doc : Document) : bool :=
  let bodyText := JS.toLowerCase (Dom.bodyText doc) in
  existsb (fun hint => JS.includes bodyText hint) completionHints.

(** What the browser presents while one step runs: the page, the document of
    each frame, whether an advance control can be clicked in a frame, and the
    random draws of the in-page script. *)
Record World : Type := mkWorld {
  page : Page;
  documentOf : Frame -> Document;
  advance : Frame -> bool;
  scriptRandom : Rng.t
}.

(** The bot: whether [this.page] is set, the configured step cap, the loaded
    answer bank and the responder. *)
Record Bot : Type := mkBot {
  pageOpened : bool;
  maxSteps : Z;
  answerBank : option (list Bank.SerializedAnswerEntry);
  longFormResponder : option GptLongFormResponder
}.

Inductive Status : Type :=
| Completed
| AssumedCompleteNoFrame
| StalledNoInteraction
| StalledNoAdvance
| MaxStepsReached.

(** Observable events of a run; [step] counts from 0 as in the source. *)
Inductive Event : Type :=
| CompletionCheck (step : nat) (isComplete : bool)
| LongFormRequests (step : nat) (sent : list GptLongFormRequest)
| FieldPass (step : nat) (interacted : bool) (actions : list Script.Action)
| AdvanceAttempt (step : nat) (advanced : bool)
| IdleWait (step : nat).

(** How a run ends: its status, the number of steps begun, and its events. *)
Record Run : Type := mkRun {
  status : Status;
  stepsBegun : nat;
  log : list Event
}.

Definition getPage (bot : Bot) : outcome unit :=
  if pageOpened bot then Returned tt
  else Thrown "The browser page has not been initialised yet.".

Definition serializedAnswers (bot : Bot) : list Bank.SerializedAnswerEntry :=
  match answerBank bot with
  | Some entries => entries
  | None => []
  end.

(** One pass of the body of [answerCurrentStep] on the host side: the
    long-form requests, then the in-page script. *)
Definition answerStep (bot : Bot) (doc : Document) (g : Rng.t)
  : outcome (list GptLongFormRequest * Script.Pass) :=
  bind (LongForm.buildLongFormAnswers (longFormResponder bot) doc)
       (fun built =>
          Returned
            (LongForm.requests built,
             Script.answerCurrentStep (serializedAnswers bot)
               (LongForm.answers built)
               (LongForm.afterCollect (longFormResponder bot) doc) g)).

(** The [for] loop: [remaining] iterations are left, [step] is the loop
    variable. *)
Fixpoint stepLoop (bot : Bot) (env : nat -> World) (remaining step : nat)
         (events : list Event) : outcome Run :=
  match remaining with
  | O => Returned (mkRun MaxStepsReached step events)
  | S remaining' =>
      let world := env step in
      match getActiveSurveyFrame (page world) with
      | None => Returned (mkRun AssumedCompleteNoFrame (S step) events)
      | Some frame =>
          let doc := documentOf world frame in
          let isComplete := hasCompletedSurvey doc in
          let events := events ++ [CompletionCheck step isComplete] in
          if isComplete then Returned (mkRun Completed (S step) events)
          else
            bind (answerStep bot doc (scriptRandom world))
                 (fun result =>
                    let (sent, pass) := result in
                    let events :=
                      events ++ [ LongFormRequests step sent;
                                  FieldPass step (Script.interacted pass)
                                            (Script.actions pass) ] in
                    if negb (Script.interacted pass)
                    then Returned (mkRun StalledNoInteraction (S step) events)
                    else
                      let advanced := advance world frame in
                      let events := events ++ [AdvanceAttempt step advanced] in
                      if negb advanced
                      then Returned (mkRun StalledNoAdvance (S step) events)
                      else stepLoop bot env remaining' (S step)
                                    (events ++ [IdleWait step]))
      end
  end.

Definition answerSurvey (bot : Bot) (env : nat -> World) : outcome Run :=
  bind (getPage bot)
       (fun _ => stepLoop bot env (Z.to_nat (maxSteps bot)) 0 []).

End Steps.

(* ===================================================================== *)
(** ** Pointer motion ([moveMouseNaturally], [followPath]) *)
(* ===================================================================== *)

Module Motion.

(** Numbers of the motion code: exact rationals stand for the finite
    doubles, and [NaN] is kept because [clamp] tests for it. *)
Inductive num : Type :=
| NaN : num
| Num : Q -> num.

Definition lift2 (f : Q -> Q -> Q) (a b : num) : num :=
  match a, b with
  | Num p, Num q => Num (f p q)
  | _, _ => NaN
  end.

Definition add : num -> num -> num := lift2 Qplus.
Definition sub : num -> num -> num := lift2 Qminus.
Definition mul : num -> num -> num := lift2 Qmult.

(** [a < b]; any comparison with [NaN] is false. *)
Definition lt (a b : num) : bool :=
  match a, b with
  | Num p, Num q => negb (Qle_bool q p)
  | _, _ => false
  end.

Definition isNaN (a : num) : bool :=
  match a with
  | NaN => true
  | Num _ => false
  end.

(** [Math.min(a, b)] *)
Definition min (a b : num) : num :=
  match a, b with
  | Num p, Num q => if Qle_bool p q then Num p else Num q
  | _, _ => NaN
  end.

(** [Math.round] on a finite number: the nearest integer, halves upward. *)
Definition round (q : Q) : Z := Qfloor (q + (1 # 2))%Q.

Definition clamp (value lo hi : num) : num :=
  if isNaN value then lo
  else if lt value lo then lo
  else if lt hi value then hi
  else value.

Record Viewport : Type := mkViewport {
  width : Q;
  height : Q
}.

Record Point : Type := mkPoint {
  x : num;
  y : num
}.

(** One [page.mouse.move] with its [steps] option, followed by a pause of
    the given number of milliseconds. *)
Record Hop : Type := mkHop {
  dest : Point;
  steps : Z;
  pauseAfter : Z
}.

(** What one [followPath] call does: the moves of its loop, then the move
    onto the end point. *)
Record Path : Type := mkPath {
  intermediates : list Hop;
  landing : Hop
}.

(** What one [moveMouseNaturally] call does. *)
Inductive Motion : Type :=
| Direct (target : Point)
| Natural (seed : option Hop) (paths : list Path).

(** The simulator: the persisted cursor position and the random source. *)
Record Sim : Type := mkSim {
  mousePosition : option Point;
  rng : Rng.t
}.

Definition randomBetween (lo hi : Q) (g : Rng.t) : Q * Rng.t :=
  let (r, g') := Rng.random g in
  ((lo + r * (hi - lo))%Q, g').

(** [humanPause(lo, hi)]: the rounded duration handed to [delay]. *)
Definition humanPause (lo hi : Q) (g : Rng.t) : Z * Rng.t :=
  let (duration, g') := randomBetween lo hi g in
  (round duration, g').

Section Follow.

(** [Math.hypot], left uninterpreted: no property below depends on it. *)
Variable hypot : num -> num -> num.

Variable viewport : Viewport.

Definition clampX (value : num) : num :=
  clamp value (Num 1) (Num (width viewport - 1)%Q).
Definition clampY (value : num) : num :=
  clamp value (Num 1) (Num (height viewport - 1)%Q).

(** The loop of [followPath]: [count] iterations are left and [index] is
    the loop variable. *)
Fixpoint intermediateHops (from to : Point) (segments : Z) (maxOffset : num)
         (count : nat) (index : Z) (g : Rng.t) : list Hop * Rng.t :=
  match count with
  | O => ([], g)
  | S count' =>
      let progress := (inject_Z index / inject_Z (segments + 1))%Q in
      let (r, g) := Rng.random g in
      let offsetStrength :=
        mul (mul (mul (Num (r - (1 # 2))%Q) (Num 2)) maxOffset)
            (Num (1 - progress)%Q) in
      let intermediateX :=
        clampX (add (add (x from) (mul (sub (x to) (x from)) (Num progress)))
                    offsetStrength) in
      let intermediateY :=
        clampY (add (add (y from) (mul (sub (y to) (y from)) (Num progress)))
                    (mul offsetStrength (Num (6 # 10)))) in
      let (s, g) := randomBetween 4 8 g in
      let (pause, g) := humanPause 25 60 g in
      let (rest, g) :=
        intermediateHops from to segments maxOffset count' (index + 1)%Z g in
      (mkHop (mkPoint intermediateX intermediateY) (Z.max 3 (round s)) pause
         :: rest, g)
  end.

Definition followPath (from to : Point) (g : Rng.t) : Path * Rng.t :=
  let (s, g) := randomBetween 2 4 g in
  let segments := Z.max 1 (round s) in
  let distance := hypot (sub (x to) (x from)) (sub (y to) (y from)) in
  let maxOffset := min (Num 45) (mul distance (Num (3 # 10))) in
  let (hops, g) :=
    intermediateHops from to segments maxOffset (Z.to_nat segments) 1%Z g in
  let (s, g) := randomBetween 6 14 g in
  let (pause, g) := humanPause 30 70 g in
  (mkPath hops (mkHop (mkPoint (clampX (x to)) (clampY (y to)))
                      (Z.max 4 (round s)) pause), g).

(** The seeding move made when no cursor position is persisted yet. *)
Definition seedStart (g : Rng.t) : Hop * Rng.t :=
  let (seedX, g) :=
    randomBetween (width viewport * (25 # 100)) (width viewport * (75 # 100)) g in
  let (seedY, g) :=
    randomBetween (height viewport * (25 # 100)) (height viewport * (75 # 100)) g in
  let (r, g) := Rng.random g in
  let (pause, g) := humanPause 60 140 g in
  (mkHop (mkPoint (Num seedX) (Num seedY)) (2 + Qfloor (r * 3)%Q)%Z pause, g).

(** The part of [moveMouseNaturally] after the start point is known: the
    optional path to a point near the target, then the path to the target. *)
Definition travel (start target : Point) (overshoot : bool) (g : Rng.t)
  : list Path * Rng.t :=
  let origin := start in
  let '(first, origin, g) :=
    if overshoot then
      let (dx, g) := randomBetween (-18) 18 g in
      let overshootX := clampX (add (x target) (Num dx)) in
      let (dy, g) := randomBetween (-18) 18 g in
      let overshootY := clampY (add (y target) (Num dy)) in
      let (path, g) := followPath origin (mkPoint overshootX overshootY) g in
      ([path], mkPoint overshootX overshootY, g)
    else ([], origin, g) in
  let (path, g) := followPath origin target g in
  (first ++ [path], g).

(** [moveMouseNaturally] on a page that reports a viewport. *)
Definition moveWithViewport (target : Point) (overshoot : bool) (sim : Sim)
  : Motion * Sim :=
  let '(seed, start, g) :=
    match mousePosition sim with
    | Some start => (None, start, rng sim)
    | None =>
        let (hop, g) := seedStart (rng sim) in
        (Some hop, dest hop, g)
    end in
  let (paths, g) := travel start target overshoot g in
  (Natural seed paths,
   mkSim (Some (mkPoint (clampX (x target)) (clampY (y target)))) g).

End Follow.

(** [moveMouseNaturally]: [viewport] is what [page.viewport()] returns. *)
Definition moveMouseNaturally (hypot : num -> num -> num)
           (viewport : option Viewport) (target : Point) (overshoot : bool)
           (sim : Sim) : Motion * Sim :=
  match viewport with
  | None => (Direct target, mkSim (Some target) (rng sim))
  | Some vp => moveWithViewport hypot vp target overshoot sim
  end.



Definition pathsOf (m : Motion) : list Path :=
  match m with
  | Direct _ => []
  | Natural _ paths => paths
  end.

End Motion.

(* ===================================================================== *)
(** * Properties *)
(* ===================================================================== *)

(** ** Substrings *)

(** [sub] occurs in [s]. *)
Definition Substring (sub s : string) : Prop :=
  exists before after : string, s = (before ++ sub ++ after)%string.

Lemma startsWith_spec (p s : string) :
  JS.startsWith s p = true <-> exists after, s = (p ++ after)%string.
Proof.
  revert s; induction p as [|a p IH]; intros s; simpl.
  - split; [intros _; now exists s | reflexivity].
  - destruct s as [|b s].
    + split; [discriminate | intros [after H]; discriminate].
    + rewrite andb_true_iff, IH. split.
      * intros [Hab [after ->]]. apply Ascii.eqb_eq in Hab. subst.
        now exists after.
      * intros [after H]. injection H as -> ->. split.
        -- apply Ascii.eqb_refl.
        -- now exists after.
Qed.

Lemma includes_spec (s sub : string) :
  JS.includes s sub = true <-> Substring sub s.
Proof.
  unfold Substring. induction s as [|c s IH]; simpl.
  - rewrite orb_false_r, startsWith_spec. split.
    + intros [after H]. now exists EmptyString, after.
    + intros [[|b before] [after H]]; simpl in H.
      * now exists after.
      * discriminate.
  - rewrite orb_true_iff, startsWith_spec, IH. split.
    + intros [[after H] | [before [after H]]].
      * now exists EmptyString, after.
      * exists (String c before), after. simpl. now rewrite H.
    + intros [[|b before] [after H]]; simpl in H.
      * left. now exists after.
      * right. injection H as -> ->. now exists before, after.
Qed.

Lemma truthy_spec (s : string) : JS.truthy s = true <-> s <> EmptyString.
Proof. destruct s; simpl; split; congruence. Qed.

Lemma truthy_false (s : string) : JS.truthy s = false <-> s = EmptyString.
Proof. destruct s; simpl; split; congruence. Qed.

(** ** The matcher on literal patterns: [test] is substring search *)

Lemma run_Lit (p : string) :
  forall s cap k,
    Regex.run (Regex.Lit p) s cap k
    = if JS.startsWith s p then k (JS.drop (String.length p) s) cap else None.
Proof.
  induction p as [|c p IH]; intros s cap k.
  - reflexivity.
  - cbn [Regex.Lit Regex.run Regex.Chr]. destruct s as [|d s]; trivial.
    cbn [JS.startsWith String.length JS.drop].
    destruct (Ascii.eqb c d); cbn [andb]; [apply IH | reflexivity].
Qed.

(** Whether the pattern matches at the start of the input. *)
Definition matches_here (r : Regex.regex) (s : string) : bool :=
  match Regex.match_here r s with
  | Some _ => true
  | None => false
  end.

Lemma test_unfold (r : Regex.regex) (s : string) :
  Regex.test r s
  = matches_here r s
    || match s with
       | EmptyString => false
       | String _ rest => Regex.test r rest
       end.
Proof.
  unfold Regex.test, matches_here.
  destruct s as [|c s]; cbn [Regex.exec];
    destruct (Regex.match_here r _); reflexivity.
Qed.

Lemma test_Lit (p s : string) :
  Regex.test (Regex.Lit p) s = JS.includes s p.
Proof.
  induction s as [|c s IH]; rewrite test_unfold; cbn [JS.includes];
    unfold matches_here, Regex.match_here; rewrite run_Lit;
    destruct (JS.startsWith _ p); cbn [orb]; trivial.
Qed.

Lemma test_Or (a b : Regex.regex) (s : string) :
  Regex.test (Regex.Or a b) s = Regex.test a s || Regex.test b s.
Proof.
  assert (Hhere : forall t, matches_here (Regex.Or a b) t
                            = matches_here a t || matches_here b t).
  { intros t. unfold matches_here, Regex.match_here. cbn [Regex.run].
    now destruct (Regex.run a t None _). }
  induction s as [|c s IH];
    rewrite (test_unfold (Regex.Or a b)), (test_unfold a), (test_unfold b),
      Hhere.
  - now rewrite !orb_false_r.
  - rewrite IH.
    destruct (matches_here a _), (matches_here b _), (Regex.test a s);
      reflexivity.
Qed.

Lemma test_never (s : string) : Regex.test (Regex.Class (fun _ => false)) s = false.
Proof.
  induction s as [|c s IH]; rewrite test_unfold; trivial.
Qed.

(** An alternation of literals matches exactly when one of them occurs. *)
Lemma test_Alts_Lit (ps : list string) (s : string) :
  Regex.test (Regex.Alts (map Regex.Lit ps)) s = existsb (JS.includes s) ps.
Proof.
  induction ps as [|p ps IH].
  - apply test_never.
  - destruct ps as [|q ps].
    + cbn [map Regex.Alts existsb]. now rewrite test_Lit, orb_false_r.
    + change (Regex.Alts (map Regex.Lit (p :: q :: ps)))
        with (Regex.Or (Regex.Lit p) (Regex.Alts (map Regex.Lit (q :: ps)))).
      rewrite test_Or, test_Lit, IH. reflexivity.
Qed.

(** Attention language is the occurrence of one of nine phrases. *)
Lemma attentionLanguage_spec (lower : string) :
  Regex.test Attention.attentionLanguage lower = true
  <-> exists phrase,
      In phrase [ "attention"; "quality check"; "instruction check";
                  "bot check"; "captcha"; "consistency check";
                  "control question"; "human"; "verification" ]
      /\ Substring phrase lower.
Proof.
  change Attention.attentionLanguage
    with (Regex.Alts (map Regex.Lit
                          [ "attention"; "quality check"; "instruction check";
                            "bot check"; "captcha"; "consistency check";
                            "control question"; "human"; "verification" ])).
  rewrite test_Alts_Lit, existsb_exists.
  split; intros [phrase [Hin H]]; exists phrase; split; trivial;
    now apply includes_spec.
Qed.

(** ** Lists: [find] returns the first element that satisfies the test *)

Definition FirstSuch {A : Type} (f : A -> bool) (l : list A) (a : A) : Prop :=
  exists l1 l2, l = l1 ++ a :: l2 /\ f a = true
                /\ forall x, In x l1 -> f x = false.

Lemma find_first {A : Type} (f : A -> bool) (l : list A) (a : A) :
  find f l = Some a <-> FirstSuch f l a.
Proof.
  unfold FirstSuch. induction l as [|x l IH]; simpl.
  - split; [discriminate | intros [[|? ?] [l2 [H _]]]; discriminate].
  - destruct (f x) eqn:Hx.
    + split.
      * intros [= ->]. exists [], l. repeat split; simpl; tauto.
      * intros [[|y l1] [l2 [H [Ha Hl1]]]]; simpl in H.
        -- now injection H as ->.
        -- injection H as <- _. rewrite (Hl1 x) in Hx by now left.
           discriminate.
    + rewrite IH. split.
      * intros [l1 [l2 [-> [Ha Hl1]]]]. exists (x :: l1), l2.
        repeat split; trivial. intros y [<- | Hy]; auto.
      * intros [[|y l1] [l2 [H [Ha Hl1]]]]; simpl in H.
        -- injection H as -> _. congruence.
        -- injection H as _ ->. exists l1, l2. repeat split; trivial.
           intros z Hz. apply Hl1. now right.
Qed.

Lemma find_none_iff {A : Type} (f : A -> bool) (l : list A) :
  find f l = None <-> forall x, In x l -> f x = false.
Proof.
  split.
  - intros H x Hx. now apply (find_none f l H).
  - induction l as [|x l IH]; simpl; intros H; trivial.
    rewrite (H x) by now left. apply IH. intros y Hy. apply H. now right.
Qed.

(** ** Answer-bank lookup *)

(** An entry matches a normalized prompt when its non-empty question text
    contains the prompt or is contained in it, or when one of its keywords
    occurs in the prompt. *)
Definition EntryMatches (prompt : string) (entry : Bank.SerializedAnswerEntry)
  : Prop :=
  (Bank.question entry <> EmptyString
   /\ (Substring (Bank.question entry) prompt
       \/ Substring prompt (Bank.question entry)))
  \/ exists keyword, In keyword (Bank.keywords entry) /\ Substring keyword prompt.

Lemma entryMatches_spec (prompt : string) (entry : Bank.SerializedAnswerEntry) :
  Bank.entryMatches prompt entry = true <-> EntryMatches prompt entry.
Proof.
  unfold Bank.entryMatches, EntryMatches.
  rewrite orb_true_iff, andb_true_iff, orb_true_iff, existsb_exists,
    truthy_spec, !includes_spec.
  split; (intros [H | [k Hk]]; [left; exact H | right; exists k]).
  - now rewrite <- includes_spec.
  - now rewrite includes_spec.
Qed.

Lemma entryMatches_false (prompt : string) (entry : Bank.SerializedAnswerEntry) :
  Bank.entryMatches prompt entry = false <-> ~ EntryMatches prompt entry.
Proof.
  rewrite <- entryMatches_spec. destruct (Bank.entryMatches prompt entry);
    split; congruence.
Qed.

Lemma findEntry_unfold (bank : list Bank.SerializedAnswerEntry) (text : string) :
  Bank.findEntry bank text =
  if JS.truthy (Attention.normalize text)
  then find (Bank.entryMatches (Attention.normalize text)) bank
  else None.
Proof.
  unfold Bank.findEntry. destruct bank as [|e bank]; simpl.
  - now destruct (JS.truthy _).
  - now destruct (JS.truthy _).
Qed.

(** C5, as the code has it.  [findEntry] scans the bank once: it returns the
    first entry, in list order, that matches the normalized prompt either by
    its (non-empty) question text, in one of the two containment directions,
    or by one of its keywords; a question-text match of a later entry does
    not take precedence over a keyword match of an earlier one.  It returns
    nothing exactly when the normalized prompt is empty or no entry matches;
    in particular an empty normalized prompt never matches. *)
Theorem findEntry_first_match
        (bank : list Bank.SerializedAnswerEntry) (text : string) :
  let prompt := Attention.normalize text in
  (forall entry,
      Bank.findEntry bank text = Some entry <->
      prompt <> EmptyString
      /\ exists earlier later,
          bank = earlier ++ entry :: later
          /\ EntryMatches prompt entry
          /\ forall other, In other earlier -> ~ EntryMatches prompt other)
  /\ (Bank.findEntry bank text = None <->
      prompt = EmptyString
      \/ forall entry, In entry bank -> ~ EntryMatches prompt entry).
Proof.
  intros prompt. rewrite findEntry_unfold. fold prompt. split.
  - intros entry. destruct (JS.truthy prompt) eqn:Ht.
    + apply truthy_spec in Ht. rewrite find_first. unfold FirstSuch. split.
      * intros [l1 [l2 [Hb [Hm Hl1]]]]. split; trivial.
        exists l1, l2. repeat split; trivial.
        -- now apply entryMatches_spec.
        -- intros other Ho. apply entryMatches_false. now apply Hl1.
      * intros [_ [l1 [l2 [Hb [Hm Hl1]]]]]. exists l1, l2. repeat split; trivial.
        -- now apply entryMatches_spec.
        -- intros other Ho. apply entryMatches_false. now apply Hl1.
    + apply truthy_false in Ht. split; [discriminate | intros [H _]; congruence].
  - destruct (JS.truthy prompt) eqn:Ht.
    + apply truthy_spec in Ht. rewrite find_none_iff. split.
      * intros H. right. intros e He. apply entryMatches_false. now apply H.
      * intros [H | H]; [congruence |].
        intros e He. apply entryMatches_false. now apply H.
    + apply truthy_false in Ht. split; [now left | reflexivity].
Qed.

(** The lookup of the specification and the lookup of the code differ: the
    first entry is reached through a keyword, the second through its
    question text. *)
Definition foodEntry : Bank.SerializedAnswerEntry :=
  Bank.mkEntry "Favorite food" "favorite food" ["color"]
               [Bank.mkAnswer "Pizza" "pizza"].

Definition colorEntry : Bank.SerializedAnswerEntry :=
  Bank.mkEntry "What is your favorite color" "what is your favorite color" []
               [Bank.mkAnswer "Blue" "blue"].

(** C5, counterexample.  With the bank [foodEntry; colorEntry] and the prompt
    "What is your favorite color?", the second entry matches by question text
    and the first only by keyword; the code returns the first, where the
    two-pass lookup of the specification returns the second. *)
Lemma findEntry_keyword_before_question :
  let bank := [foodEntry; colorEntry] in
  let text := "What is your favorite color?" in
  let prompt := Attention.normalize text in
  Bank.questionMatches_spec prompt foodEntry = false
  /\ Bank.questionMatches_spec prompt colorEntry = true
  /\ Bank.findEntry_spec bank prompt = Some colorEntry
  /\ Bank.findEntry bank text = Some foodEntry
  /\ Bank.findEntry bank text <> Bank.findEntry_spec bank prompt.
Proof.
  cbv zeta. repeat split; try (vm_compute; reflexivity).
  vm_compute. discriminate.
Qed.

(** ** Priority chains: a hit of an attention stage of a radio group stands *)

(** What the three attention stages of a radio group leave in [option]. *)
Definition radioAttentionStages (attention : option Attention.Directive)
           (group : list Dom.Input) : option Dom.Input :=
  Resolver.radioIndexStage attention group
    (Resolver.radioKeywordStage attention group
       (Resolver.radioLabelStage attention group)).

Lemma radioChain_attention_hit
      (attention : option Attention.Directive)
      (entry : option Bank.SerializedAnswerEntry)
      (group : list Dom.Input) (g : Rng.t) (p : Dom.Input) :
  radioAttentionStages attention group = Some p ->
  Resolver.radioChain attention entry group g = (Some p, g).
Proof.
  unfold radioAttentionStages, Resolver.radioChain. intros ->.
  now destruct entry.
Qed.

(** The attention directive a radio group is resolved with. *)
Definition radioDirective (group : list Dom.Input)
  : option Attention.Directive :=
  match group with
  | [] => None
  | first :: _ =>
      if JS.truthy (Dom.getQuestionText first)
      then Attention.detectAttentionInstruction (Dom.getQuestionText first)
      else None
  end.

Lemma radioOption_attention_hit
      (bank : list Bank.SerializedAnswerEntry) (group : list Dom.Input)
      (g : Rng.t) (p : Dom.Input) :
  radioAttentionStages (radioDirective group) group = Some p ->
  Resolver.radioOption bank group g = (Some p, g).
Proof.
  destruct group as [|first rest]; intros H.
  - discriminate H.
  - unfold Resolver.radioOption. now apply radioChain_attention_hit.
Qed.

(** ** The field pass on a document with a single kind of field *)


Definition selectDocument (select : Dom.Select) : Dom.Document :=
  Dom.mkDocument [] [] [select] [] [] EmptyString.

Definition textDocument (input : Dom.Input) : Dom.Document :=
  Dom.mkDocument [] [] [] [input] [] EmptyString.


(** A visible select is assigned the value of the option [selectChoice]
    yields. *)
Lemma select_pass
      (bank : list Bank.SerializedAnswerEntry) (longForm : LongForm.Answers)
      (select : Dom.Select) (g : Rng.t) (choice : Dom.OptionElement) :
  Dom.visibleSelect select = true ->
  Resolver.selectChoice bank select = Some choice ->
  Script.answerCurrentStep bank longForm (selectDocument select) g
  = Script.mkPass true [Script.AssignSelect select (Dom.value choice)] g.
Proof.
  intros Hvisible Hchoice. unfold Script.answerCurrentStep, selectDocument.
  cbn [Dom.radios Dom.checkboxes Dom.selects Dom.textInputs Dom.textareas
       filter].
  rewrite Hvisible. unfold Script.selectPass. cbn [fold_left].
  rewrite Hchoice. reflexivity.
Qed.

(** A visible short-text input is filled with its [textSample]. *)
Lemma text_input_pass
      (bank : list Bank.SerializedAnswerEntry) (longForm : LongForm.Answers)
      (input : Dom.Input) (g : Rng.t) :
  Dom.visible input = true ->
  Script.answerCurrentStep bank longForm (textDocument input) g
  = Script.mkPass true
      [Script.TypeInput input (Resolver.textSample bank input)] g.
Proof.
  intros Hvisible. unfold Script.answerCurrentStep, textDocument.
  cbn [Dom.radios Dom.checkboxes Dom.selects Dom.textInputs Dom.textareas
       filter].
  rewrite Hvisible. reflexivity.
Qed.

(** ** The worked examples of the specification *)

(** A radio of the group [q1] that has no [<label>] and no aria-label: it
    sits in a fieldset whose legend is the question, and its option text is
    the text of the element its aria-describedby names. *)
Definition radio (questionText labelText : string) : Dom.Input :=
  Dom.mkInput Dom.RadioType [] None
              (Some ("q1-" ++ labelText)%string) (Some labelText) None
              EmptyString (Some questionText) None None
              (Some "q1") None EmptyString false false true.


Definition bluePrompt : string :=
  "Please select 'Blue' to verify you are paying attention".

Definition colourGroup : list Dom.Input :=
  map (radio bluePrompt) ["Red"; "Green"; "Blue"; "Yellow"].


(** A bank whose entry matches the prompt and answers it with Red. *)
Definition redEntry : Bank.SerializedAnswerEntry :=
  Bank.mkEntry "Please select Blue to verify you are paying attention"
               "please select blue to verify you are paying attention"
               ["attention"] [Bank.mkAnswer "Red" "red"].

Definition redBank : list Bank.SerializedAnswerEntry := [redEntry].

(** A random source whose draws are all [r]. *)
Definition constantRng (r : Q) : Rng.t := Rng.mk (fun _ => r) 0.





Definition thirdPrompt : string := "Choose the third option".

Definition lettersGroup (questionText : string) : list Dom.Input :=
  map (radio questionText) ["A"; "B"; "C"; "D"].





Definition bananaPrompt : string :=
  "Type the word banana to confirm you read this".
Definition quotedBananaPrompt : string :=
  "Type the word 'banana' to confirm you read this".

(** A text input whose [<label>] holds the question, with the given
    attributes. *)
Definition textInput (questionText : string) (name aria : option string)
           (placeholder : string) : Dom.Input :=
  Dom.mkInput Dom.TextType [questionText] aria None None None
              EmptyString None None None name None placeholder
              false false true.

(** The value a short-text input gets from the stages after the typed
    directive value. *)
Definition untypedSample (entry : option Bank.SerializedAnswerEntry)
           (input : Dom.Input) : string :=
  JS.opt_or_else (Resolver.firstRaw entry)
    (JS.or_else (Dom.placeholder input)
       (JS.opt_or_else (Dom.ariaLabel input)
          (JS.opt_or_else (Dom.nameAttr input) "Sample answer"))).

Lemma textSample_untyped (bank : list Bank.SerializedAnswerEntry)
      (input : Dom.Input) :
  Resolver.typedOf (Attention.detectAttentionInstruction (Dom.getQuestionText input))
  = None ->
  Resolver.textSample bank input
  = untypedSample (Bank.findEntry bank (Dom.getQuestionText input)) input.
Proof.
  unfold Resolver.textSample, untypedSample. now intros ->.
Qed.

Lemma textSample_typed (bank : list Bank.SerializedAnswerEntry)
      (input : Dom.Input) (c : ascii) (rest : string) :
  Resolver.typedOf (Attention.detectAttentionInstruction (Dom.getQuestionText input))
  = Some (String c rest) ->
  Resolver.textSample bank input = String c rest.
Proof.
  unfold Resolver.textSample. now intros ->.
Qed.

(** C4, counterexample.  The prompt yields no directive, hence no typed value
    "banana"; a field with this prompt and nothing else to draw on is filled
    with the default text. *)
Lemma banana_prompt_is_not_typed :
  ~ (exists directive,
        Attention.detectAttentionInstruction bananaPrompt = Some directive
        /\ Attention.typedValue directive = Some "banana")
  /\ Resolver.textSample [] (textInput bananaPrompt None None EmptyString)
     = "Sample answer"
  /\ Resolver.textSample [] (textInput bananaPrompt None None EmptyString)
     <> "banana".
Proof.
  split; [| split].
  - intros [directive [H _]]. vm_compute in H. discriminate H.
  - vm_compute. reflexivity.
  - vm_compute. discriminate.
Qed.

(** C4, as the code has it.  "Type the word banana to confirm you read this"
    has no quoted text and none of the words that open the word form of the
    typed-value extraction (attention language, "exactly", "attention",
    "human"), so the parser returns no directive and a short-text field with
    this prompt takes its value from the later stages: the bank's first
    answer, the placeholder, the aria-label, the name, else "Sample answer".
    With the word quoted, "Type the word 'banana' to confirm you read this",
    the typed value is exactly "banana" and the field is filled with exactly
    "banana", whatever the bank and the field's attributes. *)
Theorem banana_typed_value_needs_quotes :
  Attention.detectAttentionInstruction bananaPrompt = None
  /\ (forall bank name aria placeholder,
         let input := textInput bananaPrompt name aria placeholder in
         Resolver.textSample bank input
         = untypedSample (Bank.findEntry bank bananaPrompt) input)
  /\ Attention.detectAttentionInstruction quotedBananaPrompt
     = Some (Attention.mkDirective [] [] (Some "banana") [])
  /\ (forall bank name aria placeholder,
         Resolver.textSample bank
           (textInput quotedBananaPrompt name aria placeholder)
         = "banana")
  /\ forall bank longForm name aria placeholder g,
      let input := textInput quotedBananaPrompt name aria placeholder in
      Script.answerCurrentStep bank longForm (textDocument input) g
      = Script.mkPass true [Script.TypeInput input "banana"] g.
Proof.
  assert (Htyped : forall bank name aria placeholder,
             Resolver.textSample bank
               (textInput quotedBananaPrompt name aria placeholder)
             = "banana").
  { intros bank name aria placeholder.
    apply textSample_typed. vm_compute. reflexivity. }
  split; [vm_compute; reflexivity |].
  split.
  { intros bank name aria placeholder input.
    apply textSample_untyped. vm_compute. reflexivity. }
  split; [vm_compute; reflexivity |].
  split; [exact Htyped |].
  intros bank longForm name aria placeholder g input.
  rewrite text_input_pass by reflexivity.
  subst input. now rewrite Htyped.
Qed.

(** ** Selects: the bank stage is not guarded *)

Definition colourOption (text : string) : Dom.OptionElement :=
  Dom.mkOption (JS.toLowerCase text) text false.

Definition colourSelect : Dom.Select :=
  Dom.mkSelect bluePrompt (map colourOption ["Red"; "Green"; "Blue"])
               false true.

(** A bank whose entry matches the prompt with an answer that is no option. *)
Definition purpleBank : list Bank.SerializedAnswerEntry :=
  [ Bank.mkEntry "Please select Blue to verify you are paying attention"
                 "please select blue to verify you are paying attention"
                 [] [Bank.mkAnswer "Purple" "purple"] ].

(** Whenever the bank entry of a select has an answer, what the attention
    stages chose plays no part in the result. *)
Lemma selectChain_entry_discards_attention
      (attention : option Attention.Directive)
      (entry : Bank.SerializedAnswerEntry) (opts : list Dom.OptionElement) :
  Bank.answers entry <> [] ->
  Resolver.selectChain attention (Some entry) opts
  = Resolver.selectChain None (Some entry) opts.
Proof.
  unfold Resolver.selectChain, Resolver.selectBankStage.
  destruct (Bank.answers entry) as [|answer rest]; [congruence | intros _].
  simpl. reflexivity.
Qed.

(** Without a bank entry the choice of the attention stages stands. *)
Lemma selectChain_no_entry
      (attention : option Attention.Directive) (opts : list Dom.OptionElement) :
  Resolver.selectChain attention None opts
  = Resolver.selectFallback opts (Resolver.selectAttentionStages attention opts).
Proof. reflexivity. Qed.

(** C1, the code at the failing input.  For the select Red, Green, Blue under
    the prompt "Please select 'Blue' to verify you are paying attention" the
    attention stages choose Blue.  With a bank entry that answers Red the
    select is assigned the value of Red and ends on Red; with a bank entry
    whose answer matches no option the choice is dropped and the fallback
    takes the first option, Red.  The radio group with the same prompt,
    options and bank keeps Blue. *)
Theorem select_bank_stage_overrides_attention :
  Resolver.selectAttentionStages
    (Attention.detectAttentionInstruction bluePrompt)
    (Dom.options colourSelect)
  = Some (colourOption "Blue")
  /\ Resolver.selectChoice [] colourSelect = Some (colourOption "Blue")
  /\ Resolver.selectChoice redBank colourSelect = Some (colourOption "Red")
  /\ Resolver.selectChoice purpleBank colourSelect = Some (colourOption "Red")
  /\ (forall longForm g,
         Script.answerCurrentStep redBank longForm
           (selectDocument colourSelect) g
         = Script.mkPass true [Script.AssignSelect colourSelect "red"] g)
  /\ Dom.selectedAfter colourSelect "red" = Some (colourOption "Red")
  /\ forall g,
      Resolver.radioOption redBank colourGroup g
      = (Some (radio bluePrompt "Blue"), g).
Proof.
  assert (Hred : Resolver.selectChoice redBank colourSelect
                 = Some (colourOption "Red")) by (vm_compute; reflexivity).
  split; [vm_compute; reflexivity |].
  split; [vm_compute; reflexivity |].
  split; [exact Hred |].
  split; [vm_compute; reflexivity |].
  split.
  { intros longForm g.
    now rewrite (select_pass redBank longForm colourSelect g
                             (colourOption "Red")). }
  split; [vm_compute; reflexivity |].
  intros g. apply radioOption_attention_hit. vm_compute. reflexivity.
Qed.

(* ===================================================================== *)
(** ** The long-form responder never throws *)
(* ===================================================================== *)

Import Responder.

(** The provider call [generate] makes for a request with a non-blank
    prompt. *)
Definition providerCall (self : GptLongFormResponder)
           (request : GptLongFormRequest) : outcome (option Response) :=
  client self (createParams self request (JS.trim (prompt request))).

(** A response object that carries no text: [output_text] is missing, empty
    or blank. *)
Definition EmptyOutput (response : Response) : Prop :=
  match output_text response with
  | Some text => JS.trim text = EmptyString
  | None => True
  end.

(** The value of a call that returned. *)
Definition value_or {A : Type} (default : A) (o : outcome A) : A :=
  match o with
  | Returned a => a
  | Thrown _ => default
  end.

Lemma generate_blank_prompt (self : GptLongFormResponder)
      (request : GptLongFormRequest) :
  JS.trim (prompt request) = EmptyString ->
  generate self request = Returned (fallback request).
Proof. unfold generate. now intros ->. Qed.

Lemma generate_cases (self : GptLongFormResponder)
      (request : GptLongFormRequest) :
  generate self request = Returned (fallback request)
  \/ exists response text,
      providerCall self request = Returned (Some response)
      /\ output_text response = Some text
      /\ JS.trim text <> EmptyString
      /\ generate self request = Returned (Some (JS.trim text)).
Proof.
  unfold generate, attempt, providerCall.
  destruct (JS.truthy (JS.trim (prompt request))); simpl; [| now left].
  destruct (client self _) as [[response |] | error]; simpl; try now left.
  destruct (output_text response) as [text |] eqn:Hout; simpl; [| now left].
  destruct (JS.truthy (JS.trim text)) eqn:Ht; simpl; [| now left].
  right. exists response, text. repeat split; trivial.
  now apply truthy_spec.
Qed.

Lemma generate_returns (self : GptLongFormResponder)
      (request : GptLongFormRequest) :
  generate self request = Returned (value_or None (generate self request)).
Proof.
  destruct (generate_cases self request) as [H | [r [t [_ [_ [_ H]]]]]];
    now rewrite H.
Qed.

(** C8.  [generate] always returns: its result is a string or nothing, never
    a thrown error.  It returns the request's fallback when the prompt is
    empty or blank, when the provider call throws, when the provider
    resolves to no response object, and when the response carries no text;
    the only other result is the trimmed, non-empty text of the provider. *)
Theorem generate_falls_back_never_throws
        (self : GptLongFormResponder) (request : GptLongFormRequest) :
  (exists value : option string, generate self request = Returned value)
  /\ (JS.trim (prompt request) = EmptyString ->
      generate self request = Returned (fallback request))
  /\ (forall error,
         providerCall self request = Thrown error ->
         generate self request = Returned (fallback request))
  /\ (providerCall self request = Returned None ->
      generate self request = Returned (fallback request))
  /\ (forall response,
         providerCall self request = Returned (Some response) ->
         EmptyOutput response ->
         generate self request = Returned (fallback request))
  /\ (forall value,
         generate self request = Returned value ->
         value = fallback request
         \/ exists response text,
             providerCall self request = Returned (Some response)
             /\ output_text response = Some text
             /\ JS.trim text <> EmptyString
             /\ value = Some (JS.trim text)).
Proof.
  split; [eexists; apply generate_returns |].
  split; [apply generate_blank_prompt |].
  assert (Hcall : forall r : outcome (option Response),
             providerCall self request = r ->
             match r with
             | Returned (Some response) => EmptyOutput response
             | _ => True
             end ->
             generate self request = Returned (fallback request)).
  { intros r Hr Hempty. unfold generate, attempt.
    destruct (JS.truthy (JS.trim (prompt request))); simpl; trivial.
    unfold providerCall in Hr. rewrite Hr.
    destruct r as [[response |] | error]; simpl; trivial.
    unfold EmptyOutput in Hempty.
    destruct (output_text response) as [text |]; simpl; trivial.
    now rewrite Hempty. }
  split; [intros error H; now apply (Hcall _ H) |].
  split; [intros H; now apply (Hcall _ H) |].
  split; [intros response H He; now apply (Hcall _ H) |].
  intros value Hv.
  destruct (generate_cases self request) as [H | [r [t [Hc [Ho [Ht H]]]]]];
    rewrite H in Hv; injection Hv as <-.
  - now left.
  - right. now exists r, t.
Qed.

(** A responder whose provider always fails. *)
Definition failingResponder : GptLongFormResponder :=
  mkResponder (fun _ => Thrown "429 Too Many Requests") "gpt-4.1-mini"
              "You are helping complete market research surveys.".

Definition dayRequest : GptLongFormRequest :=
  mkRequest "Describe your typical day." (Some 150%Z) None
            (Some "This response was generated automatically.").

Lemma generate_falls_back_never_throws_witness :
  generate failingResponder dayRequest
  = Returned (Some "This response was generated automatically.").
Proof.
  exact (proj1 (proj2 (proj2 (generate_falls_back_never_throws
                                failingResponder dayRequest)))
               "429 Too Many Requests" eq_refl).
Defined.

(* ===================================================================== *)
(** ** Long-form eligibility *)
(* ===================================================================== *)

Import LongForm.

Lemma requestLoop_returns (responder : GptLongFormResponder)
      (targets : list LongFormTarget) (acc : Built) :
  exists built,
    requestLoop responder targets acc = Returned built
    /\ requests built
       = requests acc ++ map requestFor (filter shouldUseGpt targets).
Proof.
  revert acc. induction targets as [|target rest IH]; intros acc; simpl.
  - exists acc. split; trivial. now rewrite app_nil_r.
  - destruct (shouldUseGpt target); simpl.
    + rewrite generate_returns. simpl.
      match goal with
      | |- context [requestLoop responder rest ?a] =>
          destruct (IH a) as [built [Hb Hr]]
      end.
      exists built. split; trivial. rewrite Hr. simpl.
      now rewrite <- app_assoc.
    + apply IH.
Qed.

Lemma buildLongFormAnswers_returns
      (responder : option GptLongFormResponder) (doc : Dom.Document) :
  buildLongFormAnswers responder doc
  = Returned (value_or (mkBuilt [] []) (buildLongFormAnswers responder doc)).
Proof.
  destruct responder as [responder |]; simpl; trivial.
  destruct (requestLoop_returns responder (collectTargets doc) (mkBuilt [] []))
    as [built [-> _]].
  reflexivity.
Qed.



Definition oneAreaDocument (textarea : Dom.TextArea) : Dom.Document :=
  Dom.mkDocument [] [] [] [] [textarea] EmptyString.


(** The same textarea with no minimum length. *)
Definition plainArea : Dom.TextArea :=
  Dom.mkTextArea "Comments:?" "Comments:?" None "comments" EmptyString
                 None None None EmptyString 1%Z (-1)%Z (-1)%Z false true.


(* ===================================================================== *)
(** ** The step loop *)
(* ===================================================================== *)

Import Steps.

Lemma getActiveSurveyFrame_some (page : Page) :
  exists frame, getActiveSurveyFrame page = Some frame.
Proof.
  unfold getActiveSurveyFrame.
  destruct (find _ (frames page)) as [frame |]; eauto.
Qed.

(** The frame a step works on. *)
Definition activeFrame (page : Page) : Frame :=
  match getActiveSurveyFrame page with
  | Some frame => frame
  | None => mainFrame page
  end.

Lemma getActiveSurveyFrame_active (page : Page) :
  getActiveSurveyFrame page = Some (activeFrame page).
Proof.
  unfold activeFrame. now destruct (getActiveSurveyFrame_some page) as [f ->].
Qed.

(** The document a step sees. *)
Definition stepDocument (env : nat -> World) (step : nat) : Dom.Document :=
  documentOf (env step) (activeFrame (page (env step))).

(** The long-form requests and the field pass of a step. *)
Definition stepPass (bot : Bot) (env : nat -> World) (step : nat)
  : list GptLongFormRequest * Script.Pass :=
  value_or ([], Script.mkPass false [] (scriptRandom (env step)))
           (answerStep bot (stepDocument env step) (scriptRandom (env step))).

Lemma answerStep_returns (bot : Bot) (env : nat -> World) (step : nat) :
  answerStep bot (stepDocument env step) (scriptRandom (env step))
  = Returned (stepPass bot env step).
Proof.
  unfold stepPass, answerStep.
  now rewrite buildLongFormAnswers_returns.
Qed.

(** The events of a step that does not end at its completion check. *)
Definition passEvents (bot : Bot) (env : nat -> World) (step : nat)
  : list Event :=
  [ CompletionCheck step false;
    LongFormRequests step (fst (stepPass bot env step));
    FieldPass step (Script.interacted (snd (stepPass bot env step)))
              (Script.actions (snd (stepPass bot env step))) ].

(** One iteration of the loop, spelled out. *)
Lemma stepLoop_step (bot : Bot) (env : nat -> World) (remaining step : nat)
      (events : list Event) :
  stepLoop bot env (S remaining) step events =
  if hasCompletedSurvey (stepDocument env step)
  then Returned (mkRun Completed (S step)
                       (events ++ [CompletionCheck step true]))
  else if negb (Script.interacted (snd (stepPass bot env step)))
  then Returned (mkRun StalledNoInteraction (S step)
                       (events ++ passEvents bot env step))
  else if negb (advance (env step) (activeFrame (page (env step))))
  then Returned (mkRun StalledNoAdvance (S step)
                       (events ++ passEvents bot env step
                               ++ [AdvanceAttempt step false]))
  else stepLoop bot env remaining (S step)
                (events ++ passEvents bot env step
                        ++ [AdvanceAttempt step true; IdleWait step]).
Proof.
  cbn [stepLoop]. rewrite getActiveSurveyFrame_active. fold (stepDocument env step).
  destruct (hasCompletedSurvey (stepDocument env step)); trivial.
  rewrite answerStep_returns. cbn [bind].
  destruct (stepPass bot env step) as [sent pass] eqn:E.
  unfold passEvents. rewrite E. cbn [fst snd].
  destruct (Script.interacted pass); cbn [negb].
  - destruct (advance (env step) (activeFrame (page (env step)))); cbn [negb].
    + now rewrite <- !app_assoc.
    + now rewrite <- !app_assoc.
  - now rewrite <- !app_assoc.
Qed.

(** Every run of the loop returns, and its log extends the events it started
    with. *)
Lemma stepLoop_returns (bot : Bot) (env : nat -> World) (remaining : nat) :
  forall step events,
  exists run suffix,
    stepLoop bot env remaining step events = Returned run
    /\ log run = events ++ suffix.
Proof.
  induction remaining as [|remaining IH]; intros step events.
  - exists (mkRun MaxStepsReached step events), []. split; trivial.
    simpl. now rewrite app_nil_r.
  - rewrite stepLoop_step.
    destruct (hasCompletedSurvey _); [eexists; eexists; split; reflexivity |].
    destruct (negb (Script.interacted _));
      [eexists; eexists; split; reflexivity |].
    destruct (negb (advance _ _)).
    + eexists; eexists; split; [reflexivity |]. simpl. reflexivity.
    + destruct (IH (S step)
                   (events ++ passEvents bot env step
                           ++ [AdvanceAttempt step true; IdleWait step]))
        as [run [suffix [Hr Hl]]].
      exists run. eexists. split; [exact Hr |].
      rewrite Hl, <- app_assoc. reflexivity.
Qed.

(** The step whose fields an event works on: the long-form requests and the
    in-page field pass are the two parts of the field resolution. *)
Definition fieldWork (e : Event) : option nat :=
  match e with
  | LongFormRequests step _ => Some step
  | FieldPass step _ _ => Some step
  | _ => None
  end.

(** The completion check of a step, with a negative result, comes before
    any field resolution of that step. *)
Definition CheckedBeforeFields (events : list Event) : Prop :=
  forall before e after step,
    events = before ++ e :: after ->
    fieldWork e = Some step ->
    In (CompletionCheck step false) before.

Lemma CheckedBeforeFields_app (events extra : list Event) :
  CheckedBeforeFields events ->
  CheckedBeforeFields extra ->
  CheckedBeforeFields (events ++ extra).
Proof.
  intros He Hx before e after step H Hw.
  apply app_eq_app in H.
  destruct H as [mid [[H1 H2] | [H1 H2]]].
  - destruct mid as [|e' mid]; simpl in H2.
    + destruct (Hx [] e after step (eq_sym H2) Hw).
    + injection H2 as <- H2. subst events.
      eapply He; [reflexivity | exact Hw].
  - subst before. apply in_or_app. right. eapply Hx; [exact H2 | exact Hw].
Qed.

Lemma CheckedBeforeFields_idle (events : list Event) :
  (forall e, In e events -> fieldWork e = None) ->
  CheckedBeforeFields events.
Proof.
  intros Hidle before e after step H Hw.
  rewrite Hidle in Hw; [discriminate Hw |].
  rewrite H. apply in_or_app. right. now left.
Qed.

Lemma passEvents_checked (bot : Bot) (env : nat -> World) (step : nat)
      (tail : list Event) :
  (forall e, In e tail -> fieldWork e = None) ->
  CheckedBeforeFields (passEvents bot env step ++ tail).
Proof.
  intros Htail before e after s H Hw.
  unfold passEvents in H. cbn [app] in H.
  destruct before as [|e1 before]; cbn [app] in H.
  { injection H as <- _. discriminate Hw. }
  injection H as <- H.
  destruct before as [|e2 before]; cbn [app] in H.
  { injection H as <- _. injection Hw as <-. now left. }
  injection H as <- H.
  destruct before as [|e3 before]; cbn [app] in H.
  { injection H as <- _. injection Hw as <-. now left. }
  injection H as _ H.
  rewrite Htail in Hw; [discriminate Hw |].
  rewrite H. apply in_or_app. right. now left.
Qed.

Lemma stepLoop_ordered (bot : Bot) (env : nat -> World) (remaining : nat) :
  forall step events run,
    CheckedBeforeFields events ->
    stepLoop bot env remaining step events = Returned run ->
    CheckedBeforeFields (log run).
Proof.
  induction remaining as [|remaining IH]; intros step events run Hev Hrun.
  - injection Hrun as <-. exact Hev.
  - rewrite stepLoop_step in Hrun.
    destruct (hasCompletedSurvey _).
    { injection Hrun as <-. apply CheckedBeforeFields_app; trivial.
      apply CheckedBeforeFields_idle. intros e [<- | []]. reflexivity. }
    assert (Hpass : forall tail,
               (forall e, In e tail -> fieldWork e = None) ->
               CheckedBeforeFields (events ++ passEvents bot env step ++ tail)).
    { intros tail Htail. apply CheckedBeforeFields_app; trivial.
      now apply passEvents_checked. }
    destruct (negb (Script.interacted _)).
    { injection Hrun as <-. cbn [log].
      rewrite <- (app_nil_r (passEvents bot env step)). apply Hpass.
      intros e []. }
    destruct (negb (advance _ _)).
    + injection Hrun as <-. apply Hpass.
      intros e [<- | []]. reflexivity.
    + eapply IH; [| exact Hrun]. apply Hpass.
      intros e [<- | [<- | []]]; reflexivity.
Qed.

Lemma stepLoop_finds_frame (bot : Bot) (env : nat -> World) (remaining : nat) :
  forall step events run,
    stepLoop bot env remaining step events = Returned run ->
    status run <> AssumedCompleteNoFrame.
Proof.
  induction remaining as [|remaining IH]; intros step events run Hrun.
  - injection Hrun as <-. discriminate.
  - rewrite stepLoop_step in Hrun.
    destruct (hasCompletedSurvey _); [injection Hrun as <-; discriminate |].
    destruct (negb (Script.interacted _));
      [injection Hrun as <-; discriminate |].
    destruct (negb (advance _ _)); [injection Hrun as <-; discriminate |].
    eapply IH. exact Hrun.
Qed.

(** A document in which the script finds no enabled, displayed field. *)
Definition NoVisibleFields (doc : Dom.Document) : Prop :=
  filter Dom.visible (Dom.radios doc) = []
  /\ filter Dom.visible (Dom.checkboxes doc) = []
  /\ filter Dom.visibleSelect (Dom.selects doc) = []
  /\ filter Dom.visible (Dom.textInputs doc) = []
  /\ filter Dom.visibleArea (Dom.textareas doc) = [].

Lemma answerCurrentStep_no_fields
      (bank : list Bank.SerializedAnswerEntry) (longForm : LongForm.Answers)
      (doc : Dom.Document) (g : Rng.t) :
  NoVisibleFields doc ->
  Script.answerCurrentStep bank longForm doc g = Script.mkPass false [] g.
Proof.
  intros [Hr [Hc [Hs [Ht Ha]]]]. unfold Script.answerCurrentStep.
  rewrite Hr, Hc, Hs, Ht, Ha. reflexivity.
Qed.

Lemma cacheKeys_no_visible (areas : list Dom.TextArea) :
  forall index,
    filter Dom.visibleArea areas = [] ->
    cacheKeys index areas = areas.
Proof.
  induction areas as [|t areas IH]; intros index H; simpl in *; trivial.
  destruct (Dom.visibleArea t); [discriminate H |].
  now rewrite IH.
Qed.

Lemma stepPass_no_fields (bot : Bot) (env : nat -> World) (step : nat) :
  NoVisibleFields (stepDocument env step) ->
  stepPass bot env step
  = ([], Script.mkPass false [] (scriptRandom (env step))).
Proof.
  intros Hno. unfold stepPass, answerStep.
  assert (Hdoc : afterCollect (longFormResponder bot) (stepDocument env step)
                 = stepDocument env step).
  { destruct Hno as [_ [_ [_ [_ Ha]]]]. unfold afterCollect.
    destruct (longFormResponder bot); trivial.
    rewrite cacheKeys_no_visible by exact Ha.
    now destruct (stepDocument env step). }
  assert (Hbuilt : buildLongFormAnswers (longFormResponder bot)
                                        (stepDocument env step)
                   = Returned (mkBuilt [] [])).
  { destruct Hno as [_ [_ [_ [_ Ha]]]]. unfold buildLongFormAnswers.
    destruct (longFormResponder bot); trivial.
    unfold collectTargets. rewrite Ha. reflexivity. }
  rewrite Hbuilt, Hdoc. cbn [bind value_or LongForm.requests LongForm.answers].
  now rewrite answerCurrentStep_no_fields.
Qed.

(** C6.  In every run on an opened page: the completion check of a step
    precedes every part of the field resolution of that step (the long-form
    requests and the in-page field pass); if the first check finds the
    completion text, the run ends as completed on step 1 and its only event
    is that check (no long-form request, no field pass); and if the first
    field pass interacts with nothing, the run ends as stalled without
    interaction on step 1.  The same is stated on the scripted environment:
    with at least one step allowed, completion text in the first document
    gives completed on step 1, and a first document without completion text
    in which nothing is interacted with (in particular one without visible
    fields) gives stalled-no-interaction on step 1. *)
Theorem completion_check_precedes_field_pass
        (bot : Bot) (env : nat -> World) :
  pageOpened bot = true ->
  exists run,
    answerSurvey bot env = Returned run
    /\ CheckedBeforeFields (log run)
    /\ (forall rest,
           log run = CompletionCheck 0 true :: rest ->
           run = mkRun Completed 1 [CompletionCheck 0 true])
    /\ (forall sent actions rest,
           log run = CompletionCheck 0 false :: LongFormRequests 0 sent
                     :: FieldPass 0 false actions :: rest ->
           status run = StalledNoInteraction /\ stepsBegun run = 1
           /\ rest = [])
    /\ ((0 < maxSteps bot)%Z ->
        hasCompletedSurvey (stepDocument env 0) = true ->
        run = mkRun Completed 1 [CompletionCheck 0 true])
    /\ ((0 < maxSteps bot)%Z ->
        hasCompletedSurvey (stepDocument env 0) = false ->
        Script.interacted (snd (stepPass bot env 0)) = false ->
        status run = StalledNoInteraction /\ stepsBegun run = 1)
    /\ (NoVisibleFields (stepDocument env 0) ->
        Script.interacted (snd (stepPass bot env 0)) = false).
Proof.
  intros Hpage. unfold answerSurvey, getPage. rewrite Hpage. cbn [bind].
  destruct (stepLoop_returns bot env (Z.to_nat (maxSteps bot)) 0 [])
    as [run [suffix [Hrun Hlog]]].
  exists run. split; [exact Hrun |].
  split.
  { eapply stepLoop_ordered; [| exact Hrun].
    apply CheckedBeforeFields_idle. intros e []. }
  assert (Hno : NoVisibleFields (stepDocument env 0) ->
                Script.interacted (snd (stepPass bot env 0)) = false).
  { intros H. now rewrite stepPass_no_fields. }
  destruct (Z.to_nat (maxSteps bot)) as [|remaining] eqn:Hsteps.
  - (* no step is allowed: the log is empty *)
    injection Hrun as <-. cbn [log].
    split; [intros rest H; discriminate H |].
    split; [intros sent actions rest H; discriminate H |].
    split; [intros Hpos; lia |].
    split; [intros Hpos; lia | exact Hno].
  - rewrite stepLoop_step in Hrun. cbn [app] in Hrun.
    destruct (hasCompletedSurvey (stepDocument env 0)) eqn:Hdone.
    { (* completion text at the first check *)
      injection Hrun as <-. cbn [log status stepsBegun].
      split; [reflexivity |].
      split; [intros sent actions rest H; discriminate H |].
      split; [reflexivity |].
      split; [intros _ H; discriminate H | exact Hno]. }
    destruct (Script.interacted (snd (stepPass bot env 0))) eqn:Hint;
      cbn [negb] in Hrun.
    + (* the first field pass interacted: the log starts with its events *)
      assert (Hhead : exists rest,
                 log run = CompletionCheck 0 false
                           :: LongFormRequests 0 (fst (stepPass bot env 0))
                           :: FieldPass 0 true
                                (Script.actions (snd (stepPass bot env 0)))
                           :: rest).
      { unfold passEvents in Hrun. rewrite Hint in Hrun. cbn [app] in Hrun.
        destruct (negb (advance _ _)).
        - injection Hrun as <-. eexists. reflexivity.
        - destruct (stepLoop_returns bot env remaining 1
                      [CompletionCheck 0 false;
                       LongFormRequests 0 (fst (stepPass bot env 0));
                       FieldPass 0 true
                         (Script.actions (snd (stepPass bot env 0)));
                       AdvanceAttempt 0 true; IdleWait 0])
            as [run' [suffix' [Hrun' Hlog']]].
          rewrite Hrun' in Hrun. injection Hrun as <-.
          rewrite Hlog'. eexists. reflexivity. }
      destruct Hhead as [rest' Hhead]. rewrite Hhead.
      split; [intros rest H; discriminate H |].
      split; [intros sent actions rest H; discriminate H |].
      split; [intros _ H; discriminate H |].
      split; [intros _ _ H; discriminate H | exact Hno].
    + (* the first field pass interacted with nothing *)
      injection Hrun as <-. unfold passEvents. rewrite Hint.
      cbn [log status stepsBegun app].
      split; [intros rest H; discriminate H |].
      split; [intros sent actions rest H; injection H as _ _ <-; auto |].
      split; [intros _ H; discriminate H |].
      split; [auto | exact Hno].
Qed.

(** A page made of its main frame alone, showing the given body text and no
    field. *)
Definition soloFrame : Frame := mkFrame 0 "https://app.surveyjunkie.com/dashboard".

Definition textWorld (bodyText : string) : World :=
  mkWorld (mkPage [soloFrame] soloFrame)
          (fun _ => Dom.mkDocument [] [] [] [] [] bodyText)
          (fun _ => true)
          (constantRng 0).

Definition defaultBot : Bot := mkBot true 35%Z None None.

Lemma completion_check_precedes_field_pass_witness :
  answerSurvey defaultBot (fun _ => textWorld "Thank you for your time!")
  = Returned (mkRun Completed 1 [CompletionCheck 0 true])
  /\ exists run,
      answerSurvey defaultBot (fun _ => textWorld "Loading...") = Returned run
      /\ status run = StalledNoInteraction /\ stepsBegun run = 1.
Proof.
  split.
  - destruct (completion_check_precedes_field_pass
                defaultBot (fun _ => textWorld "Thank you for your time!")
                eq_refl)
      as [run [Hrun [_ [_ [_ [Hdone _]]]]]].
    rewrite Hrun. f_equal. apply Hdone; reflexivity.
  - destruct (completion_check_precedes_field_pass
                defaultBot (fun _ => textWorld "Loading...") eq_refl)
      as [run [Hrun [_ [_ [_ [_ [Hstall Hnone]]]]]]].
    exists run. split; [exact Hrun |].
    apply Hstall; [reflexivity | reflexivity |].
    apply Hnone. repeat split.
Defined.

(** C10.  On an opened page [getActiveSurveyFrame] always yields a frame: a
    frame other than the main frame whose URL matches the survey pattern
    when there is one, else the main frame of the page.  Hence no run of the
    step loop ends through the branch that takes a missing frame for
    completion. *)
Theorem survey_frame_always_resolved (bot : Bot) (env : nat -> World) :
  pageOpened bot = true ->
  (forall page, exists frame,
        getActiveSurveyFrame page = Some frame
        /\ (frame = mainFrame page
            \/ (In frame (frames page)
                /\ Regex.test surveyUrl (url frame) = true
                /\ sameFrame frame (mainFrame page) = false)))
  /\ (forall page,
         (forall frame, In frame (frames page) ->
                        Regex.test surveyUrl (url frame) = false) ->
         getActiveSurveyFrame page = Some (mainFrame page))
  /\ exists run,
      answerSurvey bot env = Returned run
      /\ status run <> AssumedCompleteNoFrame.
Proof.
  intros Hpage. split; [| split].
  - intros page. unfold getActiveSurveyFrame.
    destruct (find _ (frames page)) as [frame |] eqn:Hfind.
    + exists frame. split; trivial. right.
      apply find_some in Hfind. destruct Hfind as [Hin Htest].
      apply andb_true_iff in Htest. destruct Htest as [Hurl Hmain].
      repeat split; trivial. now apply negb_true_iff.
    + exists (mainFrame page). split; trivial. now left.
  - intros page Hnone. unfold getActiveSurveyFrame.
    destruct (find _ (frames page)) as [frame |] eqn:Hfind; trivial.
    apply find_some in Hfind. destruct Hfind as [Hin Htest].
    rewrite (Hnone frame Hin) in Htest. discriminate Htest.
  - unfold answerSurvey, getPage. rewrite Hpage. cbn [bind].
    destruct (stepLoop_returns bot env (Z.to_nat (maxSteps bot)) 0 [])
      as [run [suffix [Hrun _]]].
    exists run. split; trivial.
    eapply stepLoop_finds_frame. exact Hrun.
Qed.

Lemma survey_frame_always_resolved_witness :
  getActiveSurveyFrame (mkPage [soloFrame] soloFrame) = Some soloFrame
  /\ exists run,
      answerSurvey defaultBot (fun _ => textWorld "Loading...") = Returned run
      /\ status run <> AssumedCompleteNoFrame.
Proof.
  destruct (survey_frame_always_resolved
              defaultBot (fun _ => textWorld "Loading...") eq_refl)
    as [_ [_ Hrun]].
  split; [reflexivity | exact Hrun].
Defined.

(* ===================================================================== *)
(** ** Pointer motion *)
(* ===================================================================== *)

Import Motion.

(** Drawing does not change the source of the draws. *)
Definition SameDraws (g g' : Rng.t) : Prop := Rng.draws g' = Rng.draws g.

Lemma SameDraws_refl (g : Rng.t) : SameDraws g g.
Proof. reflexivity. Qed.

Lemma SameDraws_trans (g1 g2 g3 : Rng.t) :
  SameDraws g1 g2 -> SameDraws g2 g3 -> SameDraws g1 g3.
Proof. unfold SameDraws. congruence. Qed.

Lemma SameDraws_unit (g g' : Rng.t) :
  SameDraws g g' -> Rng.unit_interval g -> Rng.unit_interval g'.
Proof. unfold SameDraws, Rng.unit_interval. now intros ->. Qed.

Lemma random_draws (g : Rng.t) : SameDraws g (snd (Rng.random g)).
Proof. reflexivity. Qed.

Lemma randomBetween_draws (lo hi : Q) (g : Rng.t) :
  SameDraws g (snd (randomBetween lo hi g)).
Proof. reflexivity. Qed.

Lemma humanPause_draws (lo hi : Q) (g : Rng.t) :
  SameDraws g (snd (humanPause lo hi g)).
Proof. reflexivity. Qed.

(** [Math.round] of a number between two integers lies between them. *)
Lemma round_between (q : Q) (lo hi : Z) :
  (inject_Z lo <= q)%Q -> (q <= inject_Z hi)%Q ->
  (lo <= round q <= hi)%Z.
Proof.
  intros Hlo Hhi. unfold round. split.
  - rewrite <- (Qfloor_Z lo). apply Qfloor_resp_le. lra.
  - assert (H : (Qfloor (q + (1 # 2)) <= Qfloor (inject_Z hi + (1 # 2)))%Z)
      by (apply Qfloor_resp_le; lra).
    assert (Hf : Qfloor (inject_Z hi + (1 # 2)) = hi).
    { apply Z.le_antisymm.
      - apply Z.lt_succ_r. rewrite Zlt_Qlt.
        eapply Qle_lt_trans; [apply Qfloor_le |].
        unfold Z.succ. rewrite inject_Z_plus.
        change (inject_Z 1) with 1%Q. lra.
      - rewrite <- (Qfloor_Z hi) at 1. apply Qfloor_resp_le. lra. }
    lia.
Qed.

Lemma segments_bound (g : Rng.t) :
  Rng.unit_interval g ->
  (2 <= Z.max 1 (round (fst (randomBetween 2 4 g))) <= 4)%Z.
Proof.
  intros Hu. unfold randomBetween, Rng.random. cbn [fst].
  destruct (Hu (Rng.used g)) as [H0 H1].
  assert (H : (2 <= round (2 + Rng.draws g (Rng.used g) * (4 - 2)) <= 4)%Z).
  { apply round_between;
      [change (inject_Z 2) with 2%Q | change (inject_Z 4) with 4%Q]; lra. }
  lia.
Qed.

Section MotionFacts.

Variable hypot : num -> num -> num.
Variable viewport : Viewport.

Lemma intermediateHops_facts (from to : Point) (segments : Z) (maxOffset : num)
      (count : nat) :
  forall index g,
    List.length (fst (intermediateHops viewport from to segments maxOffset
                                       count index g)) = count
    /\ SameDraws g (snd (intermediateHops viewport from to segments maxOffset
                                          count index g)).
Proof.
  induction count as [|count IH]; intros index g.
  - split; reflexivity.
  - cbn [intermediateHops].
    destruct (Rng.random g) as [r g1] eqn:E1.
    destruct (randomBetween 4 8 g1) as [s g2] eqn:E2.
    destruct (humanPause 25 60 g2) as [pause g3] eqn:E3.
    destruct (IH (index + 1)%Z g3) as [Hlen Hdraws].
    destruct (intermediateHops viewport from to segments maxOffset count
                               (index + 1)%Z g3) as [rest g4].
    cbn [fst snd List.length] in *. split; [now rewrite Hlen |].
    apply (SameDraws_trans g g3); trivial.
    apply (SameDraws_trans g g2);
      [apply (SameDraws_trans g g1) |].
    + replace g1 with (snd (Rng.random g)) by now rewrite E1.
      apply random_draws.
    + replace g2 with (snd (randomBetween 4 8 g1)) by now rewrite E2.
      apply randomBetween_draws.
    + replace g3 with (snd (humanPause 25 60 g2)) by now rewrite E3.
      apply humanPause_draws.
Qed.

(** One [followPath]: its last move goes to the clamped end point, its loop
    makes between two and four moves, and the random source is the same
    afterwards. *)
Lemma followPath_facts (from to : Point) (g : Rng.t) :
  Rng.unit_interval g ->
  dest (landing (fst (followPath hypot viewport from to g)))
  = mkPoint (clampX viewport (x to)) (clampY viewport (y to))
  /\ 2 <= List.length (intermediates (fst (followPath hypot viewport from to g)))
     <= 4
  /\ SameDraws g (snd (followPath hypot viewport from to g)).
Proof.
  intros Hu. unfold followPath.
  pose proof (segments_bound g Hu) as Hseg.
  destruct (randomBetween 2 4 g) as [s g1] eqn:E1. cbn [fst] in Hseg.
  assert (H1 : SameDraws g g1).
  { replace g1 with (snd (randomBetween 2 4 g)) by now rewrite E1.
    apply randomBetween_draws. }
  match goal with
  | |- context [intermediateHops viewport from to ?sg ?mo ?c ?i g1] =>
      destruct (intermediateHops_facts from to sg mo c i g1) as [Hlen H2];
      destruct (intermediateHops viewport from to sg mo c i g1)
        as [hops g2] eqn:E2
  end.
  cbn [fst snd] in Hlen, H2.
  destruct (randomBetween 6 14 g2) as [s' g3] eqn:E3.
  destruct (humanPause 30 70 g3) as [pause g4] eqn:E4.
  cbn [fst snd landing intermediates dest].
  split; [reflexivity |]. split; [rewrite Hlen; lia |].
  apply (SameDraws_trans g g1); trivial.
  apply (SameDraws_trans g1 g2); trivial.
  apply (SameDraws_trans g2 g3).
  - replace g3 with (snd (randomBetween 6 14 g2)) by now rewrite E3.
    apply randomBetween_draws.
  - replace g4 with (snd (humanPause 30 70 g3)) by now rewrite E4.
    apply humanPause_draws.
Qed.

End MotionFacts.

Section MoveFacts.

Variable hypot : num -> num -> num.
Variable viewport : Viewport.

Lemma seedStart_draws (g : Rng.t) : SameDraws g (snd (seedStart viewport g)).
Proof. reflexivity. Qed.


End MoveFacts.



(** A stand-in for [Math.hypot] on rationals (the sum of the two absolute
    values), used where a concrete function is needed. *)
Definition taxicab (a b : num) : num :=
  lift2 (fun p q => Qabs p + Qabs q)%Q a b.

Definition laptop : Viewport := mkViewport 1366 768.


(** [clamp] does clamp: with ordered finite bounds its result is a finite
    number between them, whatever the value (also [NaN]). *)
Lemma clamp_in_range (value : num) (lo hi : Q) :
  (lo <= hi)%Q ->
  exists q, clamp value (Num lo) (Num hi) = Num q /\ (lo <= q)%Q /\ (q <= hi)%Q.
Proof.
  intros Hle. unfold clamp. destruct value as [|v]; cbn [isNaN lt].
  - exists lo. repeat split; trivial. apply Qle_refl.
  - destruct (Qle_bool lo v) eqn:Hlo; cbn [negb].
    + apply Qle_bool_iff in Hlo.
      destruct (Qle_bool v hi) eqn:Hhi; cbn [negb].
      * apply Qle_bool_iff in Hhi. now exists v.
      * exists hi. repeat split; trivial. apply Qle_refl.
    + exists lo. repeat split; trivial. apply Qle_refl.
Qed.

(* ===================================================================== *)
(** * Further properties of the code *)
(* ===================================================================== *)

(** ** [clamp] *)

(** [clamp] with ordered bounds: [NaN] becomes the lower bound, the result
    is a finite number between the bounds, a value between the bounds is
    returned as it is, and clamping twice is clamping once. *)
Theorem clamp_keeps_inside (value : num) (lo hi : Q) :
  (lo <= hi)%Q ->
  clamp NaN (Num lo) (Num hi) = Num lo
  /\ (exists q, clamp value (Num lo) (Num hi) = Num q
                /\ (lo <= q)%Q /\ (q <= hi)%Q)
  /\ (forall v, (lo <= v)%Q -> (v <= hi)%Q ->
                clamp (Num v) (Num lo) (Num hi) = Num v)
  /\ clamp (clamp value (Num lo) (Num hi)) (Num lo) (Num hi)
     = clamp value (Num lo) (Num hi).
Proof.
  intros Hle.
  assert (Hfix : forall v, (lo <= v)%Q -> (v <= hi)%Q ->
                           clamp (Num v) (Num lo) (Num hi) = Num v).
  { intros v Hlo Hhi. unfold clamp. cbn [isNaN lt].
    apply Qle_bool_iff in Hlo, Hhi. now rewrite Hlo, Hhi. }
  split; [reflexivity |].
  split; [now apply clamp_in_range |].
  split; [exact Hfix |].
  destruct (clamp_in_range value lo hi Hle) as [q [-> [Hlo Hhi]]].
  now apply Hfix.
Qed.

Lemma clamp_keeps_inside_witness :
  clamp (Num 5000) (Num 1) (Num 1365) = Num 1365
  /\ clamp NaN (Num 1) (Num 1365) = Num 1.
Proof.
  destruct (clamp_keeps_inside (Num 5000) 1 1365) as [Hnan _].
  - discriminate.
  - split; [reflexivity | exact Hnan].
Defined.

(** ** Timing and random ranges *)

Lemma randomBetween_range (lo hi : Q) (g : Rng.t) :
  Rng.unit_interval g -> (lo <= hi)%Q ->
  (lo <= fst (randomBetween lo hi g))%Q
  /\ (fst (randomBetween lo hi g) <= hi)%Q.
Proof.
  intros Hu Hle. unfold randomBetween, Rng.random. cbn [fst].
  destruct (Hu (Rng.used g)) as [H0 H1].
  set (r := Rng.draws g (Rng.used g)) in *.
  assert (Hp0 : (0 <= r * (hi - lo))%Q)
    by (apply Qmult_le_0_compat; lra).
  assert (Hp1 : (r * (hi - lo) <= 1 * (hi - lo))%Q)
    by (apply Qmult_le_compat_r; lra).
  set (p := (r * (hi - lo))%Q) in *. lra.
Qed.

(** [randomBetween(min, max)] lies between its bounds, whatever numbers
    they are, and [humanPause(min, max)] sleeps a whole number of
    milliseconds between the rounded bounds: when the bounds lie between two
    whole numbers, so does the pause (with whole-millisecond bounds, the
    pause lies between the bounds), and no pause is negative or longer than
    asked. *)
Theorem pauses_stay_within_bounds (lo hi : Q) (g : Rng.t) :
  Rng.unit_interval g -> (lo <= hi)%Q ->
  (lo <= fst (randomBetween lo hi g))%Q
  /\ (fst (randomBetween lo hi g) <= hi)%Q
  /\ (round lo <= fst (humanPause lo hi g) <= round hi)%Z
  /\ forall a b : Z,
      (inject_Z a <= lo)%Q -> (hi <= inject_Z b)%Q ->
      (a <= fst (humanPause lo hi g) <= b)%Z.
Proof.
  intros Hu Hle.
  destruct (randomBetween_range lo hi g Hu Hle) as [H1 H2].
  split; [exact H1 |]. split; [exact H2 |].
  unfold humanPause.
  destruct (randomBetween lo hi g) as [d g']. cbn [fst] in *.
  split.
  - unfold round. split; apply Qfloor_resp_le; lra.
  - intros a b Ha Hb. apply round_between; lra.
Qed.

Lemma unit_constant_half : Rng.unit_interval (constantRng (1 # 2)).
Proof. intros n. split; [discriminate | reflexivity]. Qed.

Lemma pauses_stay_within_bounds_witness :
  (120 <= fst (humanPause 120 280 (constantRng (1 # 2))) <= 280)%Z
  /\ ((2049 # 10) <= fst (randomBetween (2049 # 10) (11611 # 10)
                                        (constantRng (1 # 2))))%Q.
Proof.
  split.
  - refine (proj2 (proj2 (proj2 (pauses_stay_within_bounds
                                   120 280 (constantRng (1 # 2))
                                   unit_constant_half _))) 120%Z 280%Z _ _);
      unfold Qle; simpl; lia.
  - refine (proj1 (pauses_stay_within_bounds
                     (2049 # 10) (11611 # 10) (constantRng (1 # 2))
                     unit_constant_half _)).
    unfold Qle; simpl; lia.
Defined.

(** ** Every point of a followed path lies in the viewport *)

(** A point with finite coordinates between 1 and the viewport size less
    one. *)
Definition Inside (viewport : Viewport) (p : Point) : Prop :=
  exists px py,
    x p = Num px /\ y p = Num py
    /\ (1 <= px)%Q /\ (px <= width viewport - 1)%Q
    /\ (1 <= py)%Q /\ (py <= height viewport - 1)%Q.

Lemma clamped_point_inside (viewport : Viewport) (a b : num) :
  (2 <= width viewport)%Q -> (2 <= height viewport)%Q ->
  Inside viewport (mkPoint (clampX viewport a) (clampY viewport b)).
Proof.
  intros Hw Hh. unfold Inside, clampX, clampY. cbn [x y].
  destruct (clamp_in_range a 1 (width viewport - 1)) as [px [-> [H1 H2]]];
    [lra |].
  destruct (clamp_in_range b 1 (height viewport - 1)) as [py [-> [H3 H4]]];
    [lra |].
  exists px, py. repeat split; trivial.
Qed.

(** A move whose end point is in the viewport, with a step count and a pause
    in the given ranges. *)
Definition HopWithin (viewport : Viewport) (steps_lo steps_hi pause_lo pause_hi : Z)
           (hop : Hop) : Prop :=
  Inside viewport (dest hop)
  /\ (steps_lo <= steps hop <= steps_hi)%Z
  /\ (pause_lo <= pauseAfter hop <= pause_hi)%Z.

Lemma unit_after (g g' : Rng.t) (A : Type) (r : A * Rng.t) :
  SameDraws g (snd r) -> r = (fst r, g') -> Rng.unit_interval g ->
  Rng.unit_interval g'.
Proof.
  intros Hd Hr Hu. apply (SameDraws_unit g); trivial.
  rewrite Hr in Hd. exact Hd.
Qed.

Section PathFacts.

Variable hypot : num -> num -> num.
Variable viewport : Viewport.
Hypothesis wide : (2 <= width viewport)%Q.
Hypothesis high : (2 <= height viewport)%Q.

Lemma intermediateHops_within (from to : Point) (segments : Z)
      (maxOffset : num) (count : nat) :
  forall index g,
    Rng.unit_interval g ->
    Forall (HopWithin viewport 4 8 25 60)
           (fst (intermediateHops viewport from to segments maxOffset
                                  count index g)).
Proof.
  induction count as [|count IH]; intros index g Hu.
  - apply Forall_nil.
  - cbn [intermediateHops].
    destruct (Rng.random g) as [r g1] eqn:E1.
    assert (Hu1 : Rng.unit_interval g1).
    { apply (unit_after g g1 _ (Rng.random g)); trivial.
      - apply random_draws.
      - now rewrite E1. }
    pose proof (pauses_range_aux := randomBetween_range 4 8 g1 Hu1).
    destruct (randomBetween 4 8 g1) as [s g2] eqn:E2.
    assert (Hu2 : Rng.unit_interval g2).
    { apply (unit_after g1 g2 _ (randomBetween 4 8 g1)); trivial.
      - apply randomBetween_draws.
      - now rewrite E2. }
    assert (Hpause : (25 <= fst (humanPause 25 60 g2) <= 60)%Z).
    { unfold humanPause.
      pose proof (randomBetween_range 25 60 g2 Hu2) as Hr.
      destruct (randomBetween 25 60 g2) as [d g'].
      cbn [fst] in *. apply round_between; apply Hr; discriminate. }
    destruct (humanPause 25 60 g2) as [pause g3] eqn:E3.
    assert (Hu3 : Rng.unit_interval g3).
    { apply (unit_after g2 g3 _ (humanPause 25 60 g2)); trivial.
      - apply humanPause_draws.
      - now rewrite E3. }
    specialize (IH (index + 1)%Z g3 Hu3).
    destruct (intermediateHops viewport from to segments maxOffset count
                               (index + 1)%Z g3) as [rest g4].
    cbn [fst] in *. apply Forall_cons; [| exact IH].
    unfold HopWithin. cbn [dest steps pauseAfter].
    split; [now apply clamped_point_inside |].
    split; [| exact Hpause].
    assert (Hs : (4 <= round s <= 8)%Z).
    { apply round_between; apply pauses_range_aux; discriminate. }
    lia.
Qed.

Lemma followPath_within (from to : Point) (g : Rng.t) :
  Rng.unit_interval g ->
  Forall (HopWithin viewport 4 8 25 60)
         (intermediates (fst (followPath hypot viewport from to g)))
  /\ HopWithin viewport 6 14 30 70
               (landing (fst (followPath hypot viewport from to g))).
Proof.
  intros Hu. unfold followPath.
  destruct (randomBetween 2 4 g) as [s g1] eqn:E1.
  assert (Hu1 : Rng.unit_interval g1).
  { apply (unit_after g g1 _ (randomBetween 2 4 g)); trivial.
    - apply randomBetween_draws.
    - now rewrite E1. }
  match goal with
  | |- context [intermediateHops viewport from to ?sg ?mo ?c ?i g1] =>
      pose proof (intermediateHops_within from to sg mo c i g1 Hu1) as Hhops;
      destruct (intermediateHops_facts viewport from to sg mo c i g1)
        as [_ Hdraws];
      destruct (intermediateHops viewport from to sg mo c i g1)
        as [hops g2] eqn:E2
  end.
  cbn [fst snd] in Hhops, Hdraws.
  assert (Hu2 : Rng.unit_interval g2) by now apply (SameDraws_unit g1).
  pose proof (randomBetween_range 6 14 g2 Hu2) as Hsteps.
  destruct (randomBetween 6 14 g2) as [s' g3] eqn:E3.
  assert (Hu3 : Rng.unit_interval g3).
  { apply (unit_after g2 g3 _ (randomBetween 6 14 g2)); trivial.
    - apply randomBetween_draws.
    - now rewrite E3. }
  assert (Hpause : (30 <= fst (humanPause 30 70 g3) <= 70)%Z).
  { unfold humanPause.
    pose proof (randomBetween_range 30 70 g3 Hu3) as Hr.
    destruct (randomBetween 30 70 g3) as [d g'].
    cbn [fst] in *. apply round_between; apply Hr; discriminate. }
  destruct (humanPause 30 70 g3) as [pause g4].
  cbn [fst intermediates landing] in *.
  split; [exact Hhops |].
  unfold HopWithin. cbn [dest steps pauseAfter].
  split; [now apply clamped_point_inside |].
  split; [| exact Hpause].
  assert (Hs : (6 <= round s' <= 14)%Z).
  { apply round_between; apply Hsteps; discriminate. }
  lia.
Qed.

Lemma travel_within (start target : Point) (overshoot : bool) (g : Rng.t) :
  Rng.unit_interval g ->
  Forall (fun path =>
            Forall (HopWithin viewport 4 8 25 60) (intermediates path)
            /\ HopWithin viewport 6 14 30 70 (landing path))
         (fst (travel hypot viewport start target overshoot g)).
Proof.
  intros Hu. unfold travel. destruct overshoot.
  - destruct (randomBetween (-18) 18 g) as [dx g1] eqn:E1.
    destruct (randomBetween (-18) 18 g1) as [dy g2] eqn:E2.
    assert (Hu2 : Rng.unit_interval g2).
    { apply (SameDraws_unit g); trivial.
      apply (SameDraws_trans g g1).
      - replace g1 with (snd (randomBetween (-18) 18 g)) by now rewrite E1.
        apply randomBetween_draws.
      - replace g2 with (snd (randomBetween (-18) 18 g1)) by now rewrite E2.
        apply randomBetween_draws. }
    match goal with
    | |- context [followPath hypot viewport start ?near g2] =>
        pose proof (followPath_within start near g2 Hu2) as H1;
        destruct (followPath_facts hypot viewport start near g2 Hu2)
          as [_ [_ Hdraws]];
        destruct (followPath hypot viewport start near g2) as [path1 g3];
        cbn [fst snd] in H1, Hdraws;
        pose proof (followPath_within near target g3
                      (SameDraws_unit g2 g3 Hdraws Hu2)) as H2;
        destruct (followPath hypot viewport near target g3) as [path2 g4]
    end.
    cbn [fst app] in *.
    apply Forall_cons; [exact H1 |].
    apply Forall_cons; [exact H2 | apply Forall_nil].
  - pose proof (followPath_within start target g Hu) as H.
    destruct (followPath hypot viewport start target g) as [path g1].
    cbn [fst app] in *. apply Forall_cons; [exact H | apply Forall_nil].
Qed.

End PathFacts.

(** On a viewport at least two pixels wide and high, every move of every
    path of a natural mouse move (also the moves towards the overshoot
    point) ends inside the viewport, between 1 and the size less one on both
    axes; an intermediate move takes 4 to 8 steps and is followed by a pause
    of 25 to 60 ms, the last move of a path takes 6 to 14 steps and is
    followed by a pause of 30 to 70 ms. *)
Theorem natural_path_stays_in_viewport
        (hypot : num -> num -> num) (viewport : Viewport) (target : Point)
        (overshoot : bool) (sim : Sim) :
  Rng.unit_interval (rng sim) ->
  (2 <= width viewport)%Q -> (2 <= height viewport)%Q ->
  Forall (fun path =>
            Forall (HopWithin viewport 4 8 25 60) (intermediates path)
            /\ HopWithin viewport 6 14 30 70 (landing path))
         (pathsOf (fst (moveMouseNaturally hypot (Some viewport) target
                                           overshoot sim))).
Proof.
  intros Hu Hw Hh. unfold moveMouseNaturally, moveWithViewport.
  assert (Hstart : exists seed start g,
             Rng.unit_interval g
             /\ match mousePosition sim with
                | Some start => (None, start, rng sim)
                | None =>
                    let (hop, g) := seedStart viewport (rng sim) in
                    (Some hop, dest hop, g)
                end = (seed, start, g)).
  { destruct (mousePosition sim) as [start |].
    - exists None, start, (rng sim). now split.
    - pose proof (seedStart_draws viewport (rng sim)) as Hd.
      destruct (seedStart viewport (rng sim)) as [hop g] eqn:E.
      exists (Some hop), (dest hop), g. split; trivial.
      now apply (SameDraws_unit (rng sim)). }
  destruct Hstart as [seed [start [g [Hg ->]]]].
  pose proof (travel_within hypot viewport Hw Hh start target overshoot g Hg)
    as H.
  destruct (travel hypot viewport start target overshoot g) as [paths g'].
  exact H.
Qed.

Lemma natural_path_stays_in_viewport_witness :
  Forall (fun path =>
            Forall (HopWithin laptop 4 8 25 60) (intermediates path)
            /\ HopWithin laptop 6 14 30 70 (landing path))
         (pathsOf (fst (moveMouseNaturally taxicab (Some laptop)
                          (mkPoint (Num 5000) (Num (-3))) true
                          (mkSim None (constantRng (1 # 2)))))).
Proof.
  apply (natural_path_stays_in_viewport
           taxicab laptop (mkPoint (Num 5000) (Num (-3))) true
           (mkSim None (constantRng (1 # 2))) unit_constant_half).
  - discriminate.
  - discriminate.
Defined.

(* ===================================================================== *)
(** ** Construction of the bot ([pickRandom], the two constructors) *)
(* ===================================================================== *)

Module Setup.

Import Responder.

(** [pickRandom]: it throws on an empty list; otherwise it reads the list at
    the drawn index forced into the range of the list.  [None] stands for
    [undefined]. *)
Definition pickRandom {A : Type} (values : list A) (g : Rng.t)
  : outcome (option A) * Rng.t :=
  match values with
  | [] => (Thrown "Unable to select a random value from an empty list.", g)
  | _ :: _ =>
      let (index, g') := Rng.randomIndex (List.length values) g in
      (Returned
         (JS.at_index values
            (Z.max 0 (Z.min (Z.of_nat (List.length values) - 1) index))),
       g')
  end.

Definition USER_AGENTS : list string :=
  [ "Mozilla/5.0 (Windows NT 10.0; Win64; x64) AppleWebKit/537.36 (KHTML, like Gecko) Chrome/123.0.0.0 Safari/537.36";
    "Mozilla/5.0 (Macintosh; Intel Mac OS X 13_5) AppleWebKit/605.1.15 (KHTML, like Gecko) Version/17.0 Safari/605.1.15";
    "Mozilla/5.0 (Windows NT 10.0; Win64; x64) AppleWebKit/537.36 (KHTML, like Gecko) Chrome/124.0.0.0 Safari/537.36";
    "Mozilla/5.0 (X11; Linux x86_64) AppleWebKit/537.36 (KHTML, like Gecko) Chrome/122.0.0.0 Safari/537.36" ].

Definition ACCEPT_LANGUAGES : list string :=
  [ "en-US,en;q=0.9"; "en-GB,en;q=0.8"; "en-CA,en;q=0.8"; "en-AU,en;q=0.8" ].

Definition TIMEZONES : list string :=
  [ "America/New_York"; "America/Chicago"; "America/Los_Angeles";
    "America/Denver"; "Europe/London" ].

Definition VIEWPORTS : list Motion.Viewport :=
  [ Motion.mkViewport 1280 720; Motion.mkViewport 1366 768;
    Motion.mkViewport 1440 900; Motion.mkViewport 1536 864 ].

Record SurveyJunkieBotOptions : Type := mkBotOptions {
  email : string;
  password : string;
  surveyUrl : option string;
  headless : option bool;
  idleTimeoutMs : option Z;
  maxSteps : option Z;
  answerWorkbookPath : option string;
  useGptLongForm : option bool;
  openAIApiKey : option string;
  gptModel : option string;
  gptPrompt : option string
}.

(** [this.options]: the options with their defaults filled in. *)
Record Resolved : Type := mkResolved {
  r_email : string;
  r_password : string;
  r_surveyUrl : option string;
  r_headless : bool;
  r_idleTimeoutMs : Z;
  r_maxSteps : Z;
  r_answerWorkbookPath : option string;
  r_useGptLongForm : bool;
  r_openAIApiKey : option string;
  r_gptModel : option string;
  r_gptPrompt : option string
}.

Record HumanProfile : Type := mkProfile {
  userAgent : option string;
  language : option string;
  timezone : option string;
  viewport : option Motion.Viewport
}.

Record SurveyJunkieBot : Type := mkSurveyJunkieBot {
  options : Resolved;
  humanProfile : HumanProfile;
  longFormResponder : option GptLongFormResponder
}.

Definition DEFAULT_BASE_PROMPT : string :=
  "You are helping complete market research surveys. Provide sincere, first-person answers that sound natural and specific.".

Definition orDefault {A : Type} (o : option A) (default : A) : A :=
  match o with
  | Some a => a
  | None => default
  end.

(** [Boolean(x)] on an optional boolean. *)
Definition toBoolean (o : option bool) : bool := orDefault o false.

Definition opt_truthy (o : option string) : bool :=
  match o with
  | Some s => JS.truthy s
  | None => false
  end.

(** The constructor of [GptLongFormResponder]; [makeClient] stands for
    [new OpenAI({ apiKey })]. *)
Definition newResponder (makeClient : string -> Client)
           (apiKey : option string) (model basePrompt : option string)
  : outcome GptLongFormResponder :=
  if negb (opt_truthy apiKey)
  then Thrown "An OpenAI API key is required to enable GPT long-form responses."
  else
    Returned
      (mkResponder
         (makeClient (orDefault apiKey EmptyString))
         (orDefault model "gpt-4.1-mini")
         match basePrompt with
         | Some p =>
             if (0 <? String.length (JS.trim p))%nat
             then p else DEFAULT_BASE_PROMPT
         | None => DEFAULT_BASE_PROMPT
         end).

(** The four [pickRandom] calls that make [humanProfile]. *)
Definition pickProfile (g : Rng.t) : outcome HumanProfile * Rng.t :=
  let (ua, g) := pickRandom USER_AGENTS g in
  let (lang, g) := pickRandom ACCEPT_LANGUAGES g in
  let (tz, g) := pickRandom TIMEZONES g in
  let (vp, g) := pickRandom VIEWPORTS g in
  (bind ua (fun ua =>
    bind lang (fun lang =>
     bind tz (fun tz =>
      bind vp (fun vp => Returned (mkProfile ua lang tz vp))))), g).

(** The constructor of [SurveyJunkieBot]. *)
Definition newBot (makeClient : string -> Client)
           (o : SurveyJunkieBotOptions) (g : Rng.t)
  : outcome SurveyJunkieBot * Rng.t :=
  if negb (JS.truthy (email o))
  then (Thrown "A Survey Junkie email address is required.", g)
  else if negb (JS.truthy (password o))
  then (Thrown "A Survey Junkie password is required.", g)
  else
    let resolved :=
      mkResolved (email o) (password o) (surveyUrl o)
                 (orDefault (headless o) true)
                 (orDefault (idleTimeoutMs o) 15000%Z)
                 (orDefault (maxSteps o) 35%Z)
                 (answerWorkbookPath o)
                 (toBoolean (useGptLongForm o))
                 (openAIApiKey o) (gptModel o) (gptPrompt o) in
    let (profile, g) := pickProfile g in
    (bind profile
       (fun profile =>
          if r_useGptLongForm resolved then
            if negb (opt_truthy (r_openAIApiKey resolved))
            then Thrown "OpenAI API key is required when GPT long-form responses are enabled."
            else
              bind (newResponder makeClient (r_openAIApiKey resolved)
                                 (r_gptModel resolved) (r_gptPrompt resolved))
                   (fun responder =>
                      Returned (mkSurveyJunkieBot resolved profile
                                                  (Some responder)))
          else Returned (mkSurveyJunkieBot resolved profile None)),
     g).

End Setup.

Lemma pickRandom_cons (A : Type) (first : A) (rest : list A) (g : Rng.t) :
  exists v,
    fst (Setup.pickRandom (first :: rest) g) = Returned (Some v)
    /\ In v (first :: rest).
Proof.
  unfold Setup.pickRandom.
  destruct (Rng.randomIndex (List.length (first :: rest)) g) as [index g'].
  cbn [fst]. unfold JS.at_index.
  set (n := List.length (first :: rest)).
  set (i := Z.max 0 (Z.min (Z.of_nat n - 1) index)).
  assert (Hn : 0 < n) by (unfold n; simpl; lia).
  assert (Hi : (0 <= i < Z.of_nat n)%Z) by lia.
  destruct (Z.ltb_spec i 0) as [Hneg | _]; [lia |].
  destruct (nth_error (first :: rest) (Z.to_nat i)) as [v |] eqn:Hv.
  - exists v. split; trivial. eapply nth_error_In. exact Hv.
  - apply nth_error_None in Hv. fold n in Hv. lia.
Qed.

(** For a non-empty list [pickRandom] returns one of its elements, whatever
    the random draw is (the index is forced into range); for the empty list
    it throws and draws nothing. *)
Theorem pickRandom_picks_a_member
        (A : Type) (first : A) (rest : list A) (g : Rng.t) :
  (exists v,
      fst (Setup.pickRandom (first :: rest) g) = Returned (Some v)
      /\ In v (first :: rest))
  /\ Setup.pickRandom (@nil A) g
     = (Thrown "Unable to select a random value from an empty list.", g).
Proof.
  split; [apply pickRandom_cons | reflexivity].
Qed.

Lemma pickProfile_returns (g : Rng.t) :
  exists ua lang tz vp,
    fst (Setup.pickProfile g)
    = Returned (Setup.mkProfile (Some ua) (Some lang) (Some tz) (Some vp))
    /\ In ua Setup.USER_AGENTS /\ In lang Setup.ACCEPT_LANGUAGES
    /\ In tz Setup.TIMEZONES /\ In vp Setup.VIEWPORTS.
Proof.
  unfold Setup.pickProfile.
  pose proof (fun A f r => pickRandom_cons A f r) as Hpick.
  unfold Setup.USER_AGENTS at 1.
  match goal with
  | |- context [Setup.pickRandom (?f :: ?r) g] =>
      destruct (Hpick _ f r g) as [ua [Hua Hin1]];
      destruct (Setup.pickRandom (f :: r) g) as [o1 g1]
  end.
  unfold Setup.ACCEPT_LANGUAGES at 1.
  match goal with
  | |- context [Setup.pickRandom (?f :: ?r) g1] =>
      destruct (Hpick _ f r g1) as [lang [Hlang Hin2]];
      destruct (Setup.pickRandom (f :: r) g1) as [o2 g2]
  end.
  unfold Setup.TIMEZONES at 1.
  match goal with
  | |- context [Setup.pickRandom (?f :: ?r) g2] =>
      destruct (Hpick _ f r g2) as [tz [Htz Hin3]];
      destruct (Setup.pickRandom (f :: r) g2) as [o3 g3]
  end.
  unfold Setup.VIEWPORTS at 1.
  match goal with
  | |- context [Setup.pickRandom (?f :: ?r) g3] =>
      destruct (Hpick _ f r g3) as [vp [Hvp Hin4]];
      destruct (Setup.pickRandom (f :: r) g3) as [o4 g4]
  end.
  cbn [fst] in *. subst o1 o2 o3 o4.
  exists ua, lang, tz, vp. repeat split; trivial.
Qed.

(** The constructor of the bot succeeds exactly when the email and the
    password are non-empty and, when long-form generation is enabled, the
    API key is non-empty.  The bot it returns has a responder exactly when
    long-form generation is enabled, takes 35 steps and 15000 ms of idle
    timeout and runs headless unless the options say otherwise, and has a
    profile drawn from the four fixed lists. *)
Theorem constructor_checks_configuration
        (makeClient : string -> Client) (o : Setup.SurveyJunkieBotOptions)
        (g : Rng.t) :
  ((exists bot, fst (Setup.newBot makeClient o g) = Returned bot)
   <-> Setup.email o <> EmptyString
       /\ Setup.password o <> EmptyString
       /\ (Setup.useGptLongForm o = Some true ->
           exists key, Setup.openAIApiKey o = Some key /\ key <> EmptyString))
  /\ forall bot,
      fst (Setup.newBot makeClient o g) = Returned bot ->
      (Setup.longFormResponder bot <> None
       <-> Setup.useGptLongForm o = Some true)
      /\ Setup.r_maxSteps (Setup.options bot)
         = Setup.orDefault (Setup.maxSteps o) 35%Z
      /\ Setup.r_idleTimeoutMs (Setup.options bot)
         = Setup.orDefault (Setup.idleTimeoutMs o) 15000%Z
      /\ Setup.r_headless (Setup.options bot)
         = Setup.orDefault (Setup.headless o) true
      /\ exists ua lang tz vp,
          Setup.humanProfile bot
          = Setup.mkProfile (Some ua) (Some lang) (Some tz) (Some vp)
          /\ In ua Setup.USER_AGENTS /\ In lang Setup.ACCEPT_LANGUAGES
          /\ In tz Setup.TIMEZONES /\ In vp Setup.VIEWPORTS.
Proof.
  unfold Setup.newBot.
  destruct (JS.truthy (Setup.email o)) eqn:He; cbn [negb].
  2: { apply truthy_false in He. split.
       - split; [intros [bot H]; discriminate H | intros [H _]; congruence].
       - intros bot H. discriminate H. }
  destruct (JS.truthy (Setup.password o)) eqn:Hp; cbn [negb].
  2: { apply truthy_false in Hp. split.
       - split; [intros [bot H]; discriminate H | intros [_ [H _]]; congruence].
       - intros bot H. discriminate H. }
  apply truthy_spec in He, Hp.
  destruct (pickProfile_returns g) as [ua [lang [tz [vp [Hprof Hin]]]]].
  destruct (Setup.pickProfile g) as [profile g']. cbn [fst] in *.
  subst profile. cbn [bind Setup.r_useGptLongForm Setup.r_openAIApiKey
                      Setup.r_gptModel Setup.r_gptPrompt].
  unfold Setup.toBoolean, Setup.orDefault at 4.
  destruct (Setup.useGptLongForm o) as [[|] |].
  - (* long-form generation enabled *)
    unfold Setup.newResponder.
    destruct (Setup.openAIApiKey o) as [key |]; cbn [Setup.opt_truthy].
    + destruct (JS.truthy key) eqn:Hk; cbn [negb bind].
      * apply truthy_spec in Hk. split.
        -- split; [intros _ | intros _; eexists; reflexivity].
           repeat split; trivial. intros _. now exists key.
        -- intros bot [= <-]. cbn.
           split; [split; [reflexivity | discriminate] |].
           repeat split. now exists ua, lang, tz, vp.
      * apply truthy_false in Hk. split.
        -- split; [intros [bot H]; discriminate H |].
           intros [_ [_ H]]. destruct (H eq_refl) as [k [[= <-] Hne]].
           congruence.
        -- intros bot H. discriminate H.
    + cbn [negb]. split.
      * split; [intros [bot H]; discriminate H |].
        intros [_ [_ H]]. destruct (H eq_refl) as [k [Hk _]]. discriminate Hk.
      * intros bot H. discriminate H.
  - split.
    + split; [intros _ | intros _; eexists; reflexivity].
      repeat split; trivial. discriminate.
    + intros bot [= <-]. cbn.
      split; [split; [congruence | discriminate] |].
      repeat split. now exists ua, lang, tz, vp.
  - split.
    + split; [intros _ | intros _; eexists; reflexivity].
      repeat split; trivial. discriminate.
    + intros bot [= <-]. cbn.
      split; [split; [congruence | discriminate] |].
      repeat split. now exists ua, lang, tz, vp.
Qed.

(* ===================================================================== *)
(** ** What the resolvers choose *)
(* ===================================================================== *)

Lemma assign_until_some {A B : Type} (f : A -> option B) (xs : list A) :
  forall (current : option B) (b : B),
    Resolver.assign_until f xs current = Some b ->
    (exists x, In x xs /\ f x = Some b) \/ (xs = [] /\ current = Some b).
Proof.
  induction xs as [|x xs IH]; intros current b H; simpl in H.
  - right. now split.
  - left. destruct (f x) as [b' |] eqn:Hx.
    + injection H as <-. exists x. split; [now left | exact Hx].
    + destruct (IH None b H) as [[y [Hy Hfy]] | [_ Hnone]].
      * exists y. split; [now right | exact Hfy].
      * discriminate Hnone.
Qed.

Lemma first_hit_some {A B : Type} (f : A -> option B) (xs : list A) :
  forall (current : option B) (b : B),
    Resolver.first_hit f xs current = Some b ->
    (exists x, In x xs /\ f x = Some b) \/ current = Some b.
Proof.
  induction xs as [|x xs IH]; intros current b H; simpl in H.
  - now right.
  - destruct (f x) as [b' |] eqn:Hx.
    + injection H as <-. left. exists x. split; [now left | exact Hx].
    + destruct (IH current b H) as [[y [Hy Hfy]] | Hc]; [left | now right].
      exists y. split; [now right | exact Hfy].
Qed.

Lemma at_index_In {A : Type} (l : list A) (i : Z) (a : A) :
  JS.at_index l i = Some a -> In a l.
Proof.
  unfold JS.at_index. destruct (i <? 0)%Z; [discriminate |].
  apply nth_error_In.
Qed.

(** [Math.floor(Math.random() * n)] is an index of a list of [n] elements. *)
Lemma randomIndex_range (n : nat) (g : Rng.t) :
  Rng.unit_interval g -> 0 < n ->
  (0 <= fst (Rng.randomIndex n g) < Z.of_nat n)%Z.
Proof.
  intros Hu Hn. unfold Rng.randomIndex, Rng.random. cbn [fst].
  destruct (Hu (Rng.used g)) as [H0 H1].
  set (r := Rng.draws g (Rng.used g)) in *.
  assert (Hpos : (0 < inject_Z (Z.of_nat n))%Q).
  { change 0%Q with (inject_Z 0). rewrite <- Zlt_Qlt. lia. }
  split.
  - change 0%Z with (Qfloor (inject_Z 0)). apply Qfloor_resp_le.
    apply Qmult_le_0_compat; [exact H0 | now apply Qlt_le_weak].
  - rewrite Zlt_Qlt. eapply Qle_lt_trans; [apply Qfloor_le |].
    rewrite <- (Qmult_1_l (inject_Z (Z.of_nat n))) at 2.
    now apply Qmult_lt_compat_r.
Qed.

Lemma chooseRandom_member {A : Type} (first : A) (rest : list A) (g : Rng.t) :
  Rng.unit_interval g ->
  exists a, fst (Resolver.chooseRandom (first :: rest) g) = Some a
            /\ In a (first :: rest).
Proof.
  intros Hu. unfold Resolver.chooseRandom.
  pose proof (randomIndex_range (List.length (first :: rest)) g Hu
                                ltac:(simpl; lia)) as Hr.
  destruct (Rng.randomIndex (List.length (first :: rest)) g) as [index g'].
  cbn [fst] in *. unfold JS.at_index.
  destruct (Z.ltb_spec index 0) as [Hneg | _]; [lia |].
  destruct (nth_error (first :: rest) (Z.to_nat index)) as [a |] eqn:Ha.
  - exists a. split; trivial. eapply nth_error_In. exact Ha.
  - apply nth_error_None in Ha. lia.
Qed.

Lemma radioChain_member (attention : option Attention.Directive)
      (entry : option Bank.SerializedAnswerEntry)
      (first : Dom.Input) (rest : list Dom.Input) (g : Rng.t) :
  Rng.unit_interval g ->
  exists p,
    fst (Resolver.radioChain attention entry (first :: rest) g) = Some p
    /\ In p (first :: rest).
Proof.
  intros Hu. set (group := first :: rest).
  assert (H1 : forall p, Resolver.radioLabelStage attention group = Some p ->
                         In p group).
  { intros p H. unfold Resolver.radioLabelStage in H.
    destruct (JS.nonempty _); [| discriminate H].
    apply assign_until_some in H.
    destruct H as [[t [_ Hf]] | [_ H]]; [| discriminate H].
    now apply find_some in Hf. }
  assert (H2 : forall p,
             Resolver.radioKeywordStage attention group
               (Resolver.radioLabelStage attention group) = Some p ->
             In p group).
  { intros p H. unfold Resolver.radioKeywordStage in H.
    destruct (_ && _); [now apply find_some in H | now apply H1]. }
  assert (H3 : forall p, radioAttentionStages attention group = Some p ->
                         In p group).
  { intros p H. unfold radioAttentionStages, Resolver.radioIndexStage in H.
    destruct (_ && _); [| now apply H2].
    apply first_hit_some in H.
    destruct H as [[i [_ Hi]] | H]; [now apply at_index_In in Hi | now apply H2]. }
  unfold Resolver.radioChain. fold (radioAttentionStages attention group).
  destruct (radioAttentionStages attention group) as [p |] eqn:Hatt.
  - exists p. split; [now destruct entry | now apply H3].
  - unfold Resolver.radioBankStage.
    destruct entry as [e |].
    + destruct (Resolver.assign_until _ (Bank.answers e) None) as [p |] eqn:Hb.
      * exists p. split; trivial.
        apply assign_until_some in Hb.
        destruct Hb as [[a [_ Hf]] | [_ H]]; [| discriminate H].
        now apply find_some in Hf.
      * now apply chooseRandom_member.
    + now apply chooseRandom_member.
Qed.

(** A radio group with at least one enabled, displayed radio always gets one
    of its own radios clicked: whatever the prompt, the bank and the draws of
    [Math.random] (each in the unit interval), the priority chain ends on a
    member of the group. *)
Theorem radio_group_always_gets_one_of_its_options
        (bank : list Bank.SerializedAnswerEntry)
        (first : Dom.Input) (rest : list Dom.Input) (g : Rng.t) :
  Rng.unit_interval g ->
  exists p,
    fst (Resolver.radioOption bank (first :: rest) g) = Some p
    /\ In p (first :: rest).
Proof.
  intros Hu. unfold Resolver.radioOption. now apply radioChain_member.
Qed.

Lemma radio_group_always_gets_one_of_its_options_witness :
  exists p,
    fst (Resolver.radioOption redBank (lettersGroup thirdPrompt)
                              (constantRng (1 # 2))) = Some p
    /\ In p (lettersGroup thirdPrompt).
Proof.
  exact (radio_group_always_gets_one_of_its_options
           redBank (radio thirdPrompt "A")
           (map (radio thirdPrompt) ["B"; "C"; "D"])
           (constantRng (1 # 2)) unit_constant_half).
Defined.

(** *** Selects *)

Lemma selectChain_selectable (attention : option Attention.Directive)
      (entry : option Bank.SerializedAnswerEntry)
      (opts : list Dom.OptionElement) :
  match Resolver.selectChain attention entry opts with
  | Some c => In c opts /\ Resolver.selectable c = true
  | None => forall o, In o opts -> Resolver.selectable o = false
  end.
Proof.
  set (Good := fun c : Dom.OptionElement =>
                 In c opts /\ Resolver.selectable c = true).
  assert (Hfind : forall (f : Dom.OptionElement -> bool) c,
             find (fun o => Resolver.selectable o && f o) opts = Some c ->
             Good c).
  { intros f c H. apply find_some in H. destruct H as [Hin H].
    apply andb_true_iff in H. now split. }
  assert (H1 : forall c, Resolver.selectLabelStage attention opts = Some c ->
                         Good c).
  { intros c H. unfold Resolver.selectLabelStage in H.
    destruct (JS.nonempty _); [| discriminate H].
    apply assign_until_some in H.
    destruct H as [[t [_ Hf]] | [_ H]]; [| discriminate H].
    now apply Hfind in Hf. }
  assert (H2 : forall c,
             Resolver.selectKeywordStage attention opts
               (Resolver.selectLabelStage attention opts) = Some c ->
             Good c).
  { intros c H. unfold Resolver.selectKeywordStage in H.
    destruct (_ && _); [now apply Hfind in H | now apply H1]. }
  assert (H3 : forall c, Resolver.selectAttentionStages attention opts = Some c ->
                         Good c).
  { intros c H.
    unfold Resolver.selectAttentionStages, Resolver.selectIndexStage in H.
    destruct (_ && _); [| now apply H2].
    apply first_hit_some in H.
    destruct H as [[i [_ Hi]] | H]; [| now apply H2].
    destruct (JS.at_index opts (i - 1)) as [candidate |] eqn:Hat;
      [| discriminate Hi].
    destruct (Resolver.selectable candidate) eqn:Hs; [| discriminate Hi].
    injection Hi as <-. split; [now apply at_index_In in Hat | exact Hs]. }
  assert (H4 : forall c,
             Resolver.selectBankStage entry opts
               (Resolver.selectAttentionStages attention opts) = Some c ->
             Good c).
  { intros c H. unfold Resolver.selectBankStage in H.
    destruct entry as [e |]; [| now apply H3].
    apply assign_until_some in H.
    destruct H as [[a [_ Hf]] | [_ H]]; [now apply Hfind in Hf | now apply H3]. }
  unfold Resolver.selectChain. fold (Resolver.selectAttentionStages attention opts).
  unfold Resolver.selectFallback.
  destruct (Resolver.selectBankStage entry opts _) as [c |] eqn:Hb.
  - now apply H4.
  - destruct (find Resolver.selectable opts) as [c |] eqn:Hf.
    + apply find_some in Hf. exact Hf.
    + intros o Ho. now apply (find_none _ _ Hf).
Qed.

Lemma selectedAfter_shares_value (select : Dom.Select)
      (c : Dom.OptionElement) :
  In c (Dom.options select) ->
  exists o,
    Dom.selectedAfter select (Dom.value c) = Some o
    /\ In o (Dom.options select)
    /\ Dom.value o = Dom.value c.
Proof.
  intros Hin. unfold Dom.selectedAfter.
  destruct (find _ (Dom.options select)) as [o |] eqn:Hfind.
  - apply find_some in Hfind. destruct Hfind as [Ho Hv].
    apply String.eqb_eq in Hv. now exists o.
  - exfalso. apply (find_none _ _ Hfind) in Hin.
    now rewrite String.eqb_refl in Hin.
Qed.

(** A select in which a disabled option comes first and shares its value
    with the option after it. *)
Definition twinSelect : Dom.Select :=
  Dom.mkSelect "Pick one"
               [ Dom.mkOption "a" "First" true; Dom.mkOption "a" "Second" false ]
               false true.

(** The option chosen for a select is one of its own options, with a
    non-empty value and not disabled, whichever stage chose it, and a select
    is left alone exactly when it has no such option.  The script then
    assigns the value of the chosen option to the select, which selects the
    first option with this value: the chosen option itself when no other
    option shares its value, otherwise possibly another one, also a disabled
    one. *)
Theorem select_choice_is_a_selectable_option
        (bank : list Bank.SerializedAnswerEntry) (select : Dom.Select) :
  (forall c,
      Resolver.selectChoice bank select = Some c ->
      In c (Dom.options select)
      /\ Dom.value c <> EmptyString /\ Dom.optionDisabled c = false
      /\ exists o,
          Dom.selectedAfter select (Dom.value c) = Some o
          /\ In o (Dom.options select)
          /\ Dom.value o = Dom.value c
          /\ ((forall o', In o' (Dom.options select) ->
                          Dom.value o' = Dom.value c -> o' = c) ->
              o = c))
  /\ (Resolver.selectChoice bank select = None
      <-> forall o, In o (Dom.options select) ->
                    Dom.value o = EmptyString \/ Dom.optionDisabled o = true)
  /\ (Resolver.selectChoice bank twinSelect
      = Some (Dom.mkOption "a" "Second" false)
      /\ Dom.selectedAfter twinSelect "a" = Some (Dom.mkOption "a" "First" true)).
Proof.
  unfold Resolver.selectChoice.
  pose proof (selectChain_selectable
                (Attention.detectAttentionInstruction
                   (Dom.selectQuestionText select))
                (Bank.findEntry bank (Dom.selectQuestionText select))
                (Dom.options select)) as H.
  assert (Hsel : forall o, Resolver.selectable o = true
                           <-> Dom.value o <> EmptyString
                               /\ Dom.optionDisabled o = false).
  { intros o. unfold Resolver.selectable.
    rewrite andb_true_iff, truthy_spec, negb_true_iff. reflexivity. }
  split; [| split].
  - intros c Hc. rewrite Hc in H. destruct H as [Hin Hs]. apply Hsel in Hs.
    destruct Hs as [Hv Hd].
    split; [exact Hin |]. split; [exact Hv |]. split; [exact Hd |].
    destruct (selectedAfter_shares_value select c Hin) as [o [Ho [Hino Hvo]]].
    exists o. split; [exact Ho |]. split; [exact Hino |].
    split; [exact Hvo |]. intros Hunique. now apply Hunique.
  - destruct (Resolver.selectChain _ _ _) as [c |].
    + split; [discriminate |]. intros Hnone. exfalso.
      destruct H as [Hin Hs]. apply Hsel in Hs. destruct Hs as [Hv Hd].
      destruct (Hnone c Hin); congruence.
    + split; [| reflexivity]. intros _ o Ho.
      specialize (H o Ho). unfold Resolver.selectable in H.
      apply andb_false_iff in H. destruct H as [H | H].
      * left. now apply truthy_false.
      * right. now apply negb_false_iff.
  - split; [| reflexivity]. clear H.
    pose proof (selectChain_selectable
                  (Attention.detectAttentionInstruction
                     (Dom.selectQuestionText twinSelect))
                  (Bank.findEntry bank (Dom.selectQuestionText twinSelect))
                  (Dom.options twinSelect)) as Ht.
    destruct (Resolver.selectChain _ _ (Dom.options twinSelect)) as [c |].
    + destruct Ht as [Hin Hs]. cbn in Hin.
      destruct Hin as [<- | [<- | []]]; [discriminate Hs | reflexivity].
    + exfalso.
      assert (Hs : Resolver.selectable (Dom.mkOption "a" "Second" false)
                   = false) by (apply Ht; right; now left).
      discriminate Hs.
Qed.

(** *** Text fields *)

Lemma or_else_nonempty (a b : string) :
  b <> EmptyString -> JS.or_else a b <> EmptyString.
Proof.
  intros Hb. unfold JS.or_else. destruct a; simpl; [exact Hb | discriminate].
Qed.

Lemma opt_or_else_nonempty (a : option string) (b : string) :
  b <> EmptyString -> JS.opt_or_else a b <> EmptyString.
Proof.
  intros Hb. destruct a as [a |]; simpl; [now apply or_else_nonempty | exact Hb].
Qed.

Lemma opt_or_else_first (v b : string) :
  v <> EmptyString -> JS.opt_or_else (Some v) b = v.
Proof. destruct v; simpl; [intros H; now destruct H | reflexivity]. Qed.

Lemma opt_or_else_skip (a : option string) (b : string) :
  Attention.opt_truthy a = false -> JS.opt_or_else a b = b.
Proof.
  destruct a as [[|c a] |]; simpl; trivial. discriminate.
Qed.

Lemma arr_includes_In (l : list string) (x : string) :
  JS.arr_includes l x = true <-> In x l.
Proof.
  unfold JS.arr_includes. rewrite existsb_exists. split.
  - intros [y [Hy He]]. apply String.eqb_eq in He. now subst.
  - intros H. exists x. split; trivial. apply String.eqb_refl.
Qed.

(** No line break in the string. *)
Definition noLineBreak (s : string) : Prop :=
  forall c, In c (list_ascii_of_string s) -> Dom.is_line_break c = false.

Lemma stripLineBreaks_id (s : string) :
  noLineBreak s -> Dom.stripLineBreaks s = s.
Proof.
  unfold noLineBreak. induction s as [|c s IH]; intros H; cbn; trivial.
  rewrite (H c) by now left. rewrite IH; trivial.
  intros d Hd. apply H. now right.
Qed.

Lemma startsNumber_digit (s : string) :
  Dom.startsNumber s = false -> Dom.startsWithDigit s = false.
Proof.
  destruct s as [|c s]; cbn; trivial. intros H.
  now apply orb_false_iff in H as [H%orb_false_iff _].
Qed.

(** A number input with a [<label>] and nothing else to draw a value from. *)
Definition hoursInput : Dom.Input :=
  Dom.mkInput Dom.NumberType ["How many hours do you sleep?"] None None None
              None EmptyString None None None None None EmptyString
              false false true.

(** The string assigned to a short-text input or to a textarea is never
    empty.  A non-empty typed value of the attention directive is what is
    assigned, before any other source; for a textarea without such a value,
    what the answers object holds under the key of the textarea comes next,
    before the bank, the placeholder and the aria-label: a stored long-form
    answer, or, for a key that names a member every object inherits (as
    [constructor] does), the text of that member.  What the control holds
    afterwards depends on its type: a text or telephone input holds the
    assigned string (without its line breaks), hence is not left empty; a
    number, date or time input is emptied when the string does not begin as
    a number does, as for the default "Sample answer" that an input with
    nothing else to draw on is assigned; the pass counts the field as
    interacted with all the same. *)
Theorem text_fields_get_a_value_by_priority
        (bank : list Bank.SerializedAnswerEntry) (longForm : LongForm.Answers)
        (input : Dom.Input) (textarea : Dom.TextArea) (index : nat) :
  Resolver.textSample bank input <> EmptyString
  /\ Script.areaSample bank longForm textarea index <> EmptyString
  /\ (forall v,
         v <> EmptyString ->
         Resolver.typedOf
           (Attention.detectAttentionInstruction (Dom.getQuestionText input))
         = Some v ->
         Resolver.textSample bank input = v)
  /\ (forall v,
         v <> EmptyString ->
         Resolver.typedOf
           (Attention.detectAttentionInstruction (Dom.areaQuestionText textarea))
         = Some v ->
         Script.areaSample bank longForm textarea index = v)
  /\ (Attention.opt_truthy
        (Resolver.typedOf
           (Attention.detectAttentionInstruction
              (Dom.areaQuestionText textarea))) = false ->
      (forall answer,
          answer <> EmptyString ->
          LongForm.own (LongForm.deriveKey textarea index) longForm
          = Some answer ->
          Script.areaSample bank longForm textarea index = answer)
      /\ (LongForm.own (LongForm.deriveKey textarea index) longForm = None ->
          In (LongForm.deriveKey textarea index) LongForm.inheritedNames ->
          Script.areaSample bank longForm textarea index
          = LongForm.memberText
              (LongForm.Inherited (LongForm.deriveKey textarea index))))
  /\ (Dom.inputType input = Dom.TextType \/ Dom.inputType input = Dom.TelType ->
      noLineBreak (Resolver.textSample bank input) ->
      Dom.assignValue (Dom.inputType input) (Resolver.textSample bank input)
      = Dom.Holds (Resolver.textSample bank input))
  /\ (Dom.inputType input = Dom.NumberType
      \/ Dom.inputType input = Dom.DateType
      \/ Dom.inputType input = Dom.TimeType ->
      (Dom.startsNumber (Resolver.textSample bank input) = false ->
       Dom.assignValue (Dom.inputType input) (Resolver.textSample bank input)
       = Dom.Holds EmptyString)
      /\ (Attention.opt_truthy
            (Resolver.typedOf
               (Attention.detectAttentionInstruction
                  (Dom.getQuestionText input))) = false ->
          Attention.opt_truthy
            (Resolver.firstRaw
               (Bank.findEntry bank (Dom.getQuestionText input))) = false ->
          Dom.placeholder input = EmptyString ->
          Attention.opt_truthy (Dom.ariaLabel input) = false ->
          Attention.opt_truthy (Dom.nameAttr input) = false ->
          Resolver.textSample bank input = "Sample answer"
          /\ Dom.assignValue (Dom.inputType input)
                             (Resolver.textSample bank input)
             = Dom.Holds EmptyString))
  /\ (Dom.visible input = true ->
      forall g,
        Script.answerCurrentStep bank longForm (textDocument input) g
        = Script.mkPass true
            [Script.TypeInput input (Resolver.textSample bank input)] g).
Proof.
  assert (Hinherited : forall k,
             LongForm.memberText (LongForm.Inherited k) <> EmptyString).
  { intros k. cbn. destruct (String.eqb k "__proto__"); [discriminate |].
    destruct (String.eqb k "constructor"); discriminate. }
  assert (Hdiscard :
            Dom.inputType input = Dom.NumberType
            \/ Dom.inputType input = Dom.DateType
            \/ Dom.inputType input = Dom.TimeType ->
            forall text,
              Dom.startsNumber text = false ->
              Dom.assignValue (Dom.inputType input) text
              = Dom.Holds EmptyString).
  { intros Htype text Hstart. unfold Dom.assignValue.
    pose proof (startsNumber_digit text Hstart) as Hdigit.
    destruct Htype as [-> | [-> | ->]]; now rewrite ?Hstart, ?Hdigit. }
  split; [| split; [| split; [| split; [| split; [| split; [| split]]]]]];
    [| | | | | | | intros Hvisible g; now apply text_input_pass].
  - unfold Resolver.textSample.
    repeat first [apply opt_or_else_nonempty | apply or_else_nonempty].
    discriminate.
  - unfold Script.areaSample.
    repeat first [apply opt_or_else_nonempty | apply or_else_nonempty].
    discriminate.
  - intros v Hv Ht. unfold Resolver.textSample. rewrite Ht.
    now apply opt_or_else_first.
  - intros v Hv Ht. unfold Script.areaSample. rewrite Ht.
    now apply opt_or_else_first.
  - intros Ht. split.
    + intros answer Ha Hown. unfold Script.areaSample, LongForm.lookup.
      rewrite (opt_or_else_skip _ _ Ht), Hown. cbn [option_map LongForm.memberText].
      now apply opt_or_else_first.
    + intros Hown Hin. unfold Script.areaSample, LongForm.lookup.
      rewrite (opt_or_else_skip _ _ Ht), Hown.
      apply arr_includes_In in Hin. rewrite Hin. cbn [option_map].
      apply opt_or_else_first. apply Hinherited.
  - intros Htype Hno. unfold Dom.assignValue.
    rewrite (stripLineBreaks_id _ Hno). now destruct Htype as [-> | ->].
  - intros Htype. split; [now apply Hdiscard |].
    intros Ht Hraw Hph Haria Hname.
    assert (Hsample : Resolver.textSample bank input = "Sample answer").
    { unfold Resolver.textSample.
      rewrite (opt_or_else_skip _ _ Ht), (opt_or_else_skip _ _ Hraw), Hph.
      unfold JS.or_else at 1. cbn [JS.truthy].
      now rewrite (opt_or_else_skip _ _ Haria), (opt_or_else_skip _ _ Hname). }
    split; [exact Hsample |]. rewrite Hsample. now apply Hdiscard.
Qed.

Lemma text_fields_get_a_value_by_priority_witness :
  Resolver.textSample [] hoursInput = "Sample answer"
  /\ Dom.assignValue Dom.NumberType (Resolver.textSample [] hoursInput)
     = Dom.Holds EmptyString.
Proof.
  destruct (text_fields_get_a_value_by_priority [] [] hoursInput plainArea 0)
    as [_ [_ [_ [_ [_ [_ [Hnumber _]]]]]]].
  apply Hnumber; [now left | reflexivity ..].
Defined.

(* ===================================================================== *)
(** ** Long-form answers *)
(* ===================================================================== *)

















(* ===================================================================== *)
(** ** Length of a run *)
(* ===================================================================== *)

(** A step after which the loop goes on: no completion text, some field
    interacted with, an advance control clicked. *)
Definition Proceeds (bot : Bot) (env : nat -> World) (step : nat) : Prop :=
  hasCompletedSurvey (stepDocument env step) = false
  /\ Script.interacted (snd (stepPass bot env step)) = true
  /\ advance (env step) (activeFrame (page (env step))) = true.

(** The status with which a step that does not proceed ends the run. *)
Definition endingStatus (bot : Bot) (env : nat -> World) (step : nat) : Status :=
  if hasCompletedSurvey (stepDocument env step) then Completed
  else if negb (Script.interacted (snd (stepPass bot env step)))
  then StalledNoInteraction
  else StalledNoAdvance.

Lemma stepLoop_length (bot : Bot) (env : nat -> World) (remaining : nat) :
  forall step events run,
    stepLoop bot env remaining step events = Returned run ->
    (status run = MaxStepsReached
     /\ stepsBegun run = step + remaining
     /\ forall k, step <= k < step + remaining -> Proceeds bot env k)
    \/ (exists last,
           step <= last < step + remaining
           /\ stepsBegun run = S last
           /\ ~ Proceeds bot env last
           /\ status run = endingStatus bot env last
           /\ forall k, step <= k < last -> Proceeds bot env k).
Proof.
  induction remaining as [|remaining IH]; intros step events run Hrun.
  - injection Hrun as <-. left. cbn [status stepsBegun].
    split; [reflexivity |]. split; [lia |]. intros k Hk. lia.
  - rewrite stepLoop_step in Hrun.
    assert (Hstop : forall st,
               ~ Proceeds bot env step ->
               st = endingStatus bot env step ->
               forall ev, Returned (mkRun st (S step) ev) = Returned run ->
               exists last,
                 step <= last < step + S remaining
                 /\ stepsBegun run = S last
                 /\ ~ Proceeds bot env last
                 /\ status run = endingStatus bot env last
                 /\ forall k, step <= k < last -> Proceeds bot env k).
    { intros st Hnot Hst ev [= <-]. exists step. cbn [status stepsBegun].
      split; [lia |]. split; [reflexivity |]. split; [exact Hnot |].
      split; [exact Hst |]. intros k Hk. lia. }
    unfold endingStatus in Hstop.
    destruct (hasCompletedSurvey (stepDocument env step)) eqn:Hdone.
    { right. eapply Hstop; [| reflexivity | exact Hrun].
      intros [H _]. congruence. }
    destruct (Script.interacted (snd (stepPass bot env step))) eqn:Hint;
      cbn [negb] in *.
    2: { right. eapply Hstop; [| reflexivity | exact Hrun].
         intros [_ [H _]]. congruence. }
    destruct (advance (env step) (activeFrame (page (env step)))) eqn:Hadv;
      cbn [negb] in *.
    2: { right. eapply Hstop; [| reflexivity | exact Hrun].
         intros [_ [_ H]]. congruence. }
    assert (Hthis : Proceeds bot env step) by (repeat split; trivial).
    assert (Hfrom : forall bound (P : nat -> Prop),
               (forall k, S step <= k < bound -> P k) -> P step ->
               forall k, step <= k < bound -> P k).
    { intros bound P Hrest Hhere k Hk.
      destruct (Nat.eq_dec k step) as [-> | Hne]; trivial.
      apply Hrest. lia. }
    destruct (IH _ _ _ Hrun) as [[Hs [Hn Hall]] | [last [Hl [Hn [Hnot [Hs Hall]]]]]].
    + left. split; [exact Hs |]. split; [lia |].
      apply Hfrom; trivial. intros k Hk. apply Hall. lia.
    + right. exists last. split; [lia |]. split; [exact Hn |].
      split; [exact Hnot |]. split; [exact Hs |].
      apply Hfrom; trivial.
Qed.

(** A run on an opened page begins at most [maxSteps] steps.  It stops at
    the first step that finds completion text, interacts with nothing or
    finds no advance control, with the matching status; it reports that the
    maximum was reached exactly when all [maxSteps] steps went through, in
    particular at once, without looking at the page, when [maxSteps] is zero
    or negative.  Without an opened page the run throws before any step. *)
Theorem run_stops_at_first_blocked_step (bot : Bot) (env : nat -> World) :
  (pageOpened bot = false ->
   answerSurvey bot env
   = Thrown "The browser page has not been initialised yet.")
  /\ (pageOpened bot = true ->
      exists run,
        answerSurvey bot env = Returned run
        /\ stepsBegun run <= Z.to_nat (maxSteps bot)
        /\ (status run = MaxStepsReached
            <-> forall k, k < Z.to_nat (maxSteps bot) -> Proceeds bot env k)
        /\ (status run = MaxStepsReached ->
            stepsBegun run = Z.to_nat (maxSteps bot))
        /\ (status run <> MaxStepsReached ->
            exists last,
              stepsBegun run = S last
              /\ status run = endingStatus bot env last
              /\ ~ Proceeds bot env last
              /\ forall k, k < last -> Proceeds bot env k)
        /\ ((maxSteps bot <= 0)%Z -> run = mkRun MaxStepsReached 0 [])).
Proof.
  unfold answerSurvey, getPage. split; intros Hpage; rewrite Hpage; cbn [bind].
  - reflexivity.
  - destruct (stepLoop_returns bot env (Z.to_nat (maxSteps bot)) 0 [])
      as [run [suffix [Hrun _]]].
    exists run. split; [exact Hrun |].
    assert (Hend : forall last, endingStatus bot env last = MaxStepsReached ->
                                False).
    { intros last. unfold endingStatus.
      destruct (hasCompletedSurvey _); [discriminate |].
      destruct (negb _); discriminate. }
    destruct (stepLoop_length bot env _ _ _ _ Hrun)
      as [[Hs [Hn Hall]] | [last [Hl [Hn [Hnot [Hs Hall]]]]]];
      cbn [Nat.add] in *.
    + split; [lia |]. split; [| split; [| split]].
      * split; trivial. intros _ k Hk. apply Hall. lia.
      * intros _. exact Hn.
      * intros H. congruence.
      * intros Hneg. replace (Z.to_nat (maxSteps bot)) with 0 in Hrun by lia.
        now injection Hrun as <-.
    + split; [lia |]. split; [| split; [| split]].
      * split.
        -- intros H. rewrite Hs in H. now apply Hend in H.
        -- intros H. exfalso. apply Hnot. apply H. lia.
      * intros H. rewrite Hs in H. now apply Hend in H.
      * intros _. exists last. split; [exact Hn |]. split; [exact Hs |].
        split; [exact Hnot |]. intros k Hk. apply Hall. lia.
      * intros Hneg. lia.
Qed.

Lemma run_stops_at_first_blocked_step_witness :
  exists run,
    answerSurvey defaultBot (fun _ => textWorld "Loading...") = Returned run
    /\ stepsBegun run <= 35.
Proof.
  destruct (proj2 (run_stops_at_first_blocked_step
                     defaultBot (fun _ => textWorld "Loading...")) eq_refl)
    as [run [Hrun [Hle _]]].
  exists run. split; [exact Hrun | exact Hle].
Defined.

(* ===================================================================== *)
(** ** Invariants of the attention directive *)
(* ===================================================================== *)

Lemma fold_left_inv {A B : Type} (P : A -> Prop) (f : A -> B -> A)
      (l : list B) :
  (forall a b, P a -> P (f a b)) -> forall a, P a -> P (fold_left f l a).
Proof.
  intros Hstep. induction l as [|b l IH]; intros a Ha; simpl; auto.
Qed.

Lemma dedupe_go_spec (l : list string) :
  forall seen,
    NoDup (JS.dedupe_go seen l)
    /\ forall x, In x (JS.dedupe_go seen l) <-> In x l /\ ~ In x seen.
Proof.
  induction l as [|y l IH]; intros seen; simpl.
  - split; [constructor | intros x; tauto].
  - destruct (JS.arr_includes seen y) eqn:E.
    + apply arr_includes_In in E. destruct (IH seen) as [Hnd Hin].
      split; trivial. intros x. rewrite Hin. split.
      * intros [H1 H2]. tauto.
      * intros [[<- | H1] H2]; tauto.
    + assert (Hy : ~ In y seen).
      { intros H. apply arr_includes_In in H. congruence. }
      destruct (IH (y :: seen)) as [Hnd Hin]. split.
      * constructor; trivial. rewrite Hin. simpl. tauto.
      * intros x. simpl. rewrite Hin. simpl. split.
        -- intros [<- | [H1 H2]]; tauto.
        -- intros [[<- | H1] H2]; [tauto |].
           destruct (string_dec y x) as [-> | Hne]; tauto.
Qed.

Lemma dedupeZ_go_spec (l : list Z) :
  forall seen,
    NoDup (JS.dedupeZ_go seen l)
    /\ forall x, In x (JS.dedupeZ_go seen l) <-> In x l /\ ~ In x seen.
Proof.
  assert (Hmem : forall (s : list Z) y, existsb (Z.eqb y) s = true <-> In y s).
  { intros s y. rewrite existsb_exists. split.
    - intros [z [Hz He]]. apply Z.eqb_eq in He. now subst.
    - intros H. exists y. split; trivial. apply Z.eqb_refl. }
  induction l as [|y l IH]; intros seen; simpl.
  - split; [constructor | intros x; tauto].
  - destruct (existsb (Z.eqb y) seen) eqn:E.
    + apply Hmem in E. destruct (IH seen) as [Hnd Hin].
      split; trivial. intros x. rewrite Hin. split.
      * intros [H1 H2]. tauto.
      * intros [[<- | H1] H2]; tauto.
    + assert (Hy : ~ In y seen).
      { intros H. apply Hmem in H. congruence. }
      destruct (IH (y :: seen)) as [Hnd Hin]. split.
      * constructor; trivial. rewrite Hin. simpl. tauto.
      * intros x. simpl. rewrite Hin. simpl. split.
        -- intros [<- | [H1 H2]]; tauto.
        -- intros [[<- | H1] H2]; [tauto |].
           destruct (Z.eq_dec y x) as [-> | Hne]; tauto.
Qed.

Definition NonEmpty (s : string) : Prop := s <> EmptyString.

Lemma Forall_snoc {A : Type} (P : A -> Prop) (l : list A) (a : A) :
  Forall P l -> P a -> Forall P (l ++ [a]).
Proof.
  intros Hl Ha. apply Forall_app. split; trivial. now constructor.
Qed.

Lemma pushLabel_nonempty (should : bool) (targets : list string) (value : string) :
  Forall NonEmpty targets ->
  Forall NonEmpty (Attention.pushLabel should targets value).
Proof.
  intros H. unfold Attention.pushLabel.
  destruct should; cbn [negb]; trivial.
  destruct (JS.truthy (Attention.normalize value)) eqn:Hn; cbn [negb]; trivial.
  destruct (JS.includes _ " and ").
  - apply fold_left_inv; trivial. intros acc part Hacc.
    destruct (JS.truthy (JS.trim part)) eqn:Ht; cbn [andb]; trivial.
    destruct (negb _); trivial.
    apply Forall_snoc; trivial. now apply truthy_spec.
  - destruct (negb _); trivial.
    apply Forall_snoc; trivial. now apply truthy_spec.
Qed.

Lemma pushLabel_closed (targets : list string) (value : string) :
  Attention.pushLabel false targets value = targets.
Proof. reflexivity. Qed.

Definition Positive (z : Z) : Prop := (0 < z)%Z /\ JS.isFinite z = true.

Lemma pushIndex_positive (should : bool) (targets : list Z) (value : Z) :
  Forall Positive targets ->
  Forall Positive (Attention.pushIndex should targets value).
Proof.
  intros H. unfold Attention.pushIndex.
  destruct should; cbn [negb]; trivial.
  destruct (JS.isFinite value) eqn:Hf; cbn [negb orb]; trivial.
  destruct (Z.leb_spec value 0); trivial.
  destruct (negb _); trivial.
  apply Forall_snoc; trivial. split; [lia | exact Hf].
Qed.

Section DirectiveParts.

Variable should : bool.
Variables raw lower : string.

Lemma quotedLabels_nonempty (targets : list string) :
  Forall NonEmpty targets ->
  Forall NonEmpty (Attention.quotedLabels should raw lower targets).
Proof.
  intros H. unfold Attention.quotedLabels.
  destruct (Regex.test _ lower); trivial.
  apply fold_left_inv; trivial. intros acc [q |] Hacc; trivial.
  destruct (JS.truthy (JS.trim q)); trivial.
  now apply pushLabel_nonempty.
Qed.

Lemma phraseLabels_nonempty (phrases targets : list string) :
  Forall NonEmpty targets ->
  Forall NonEmpty (Attention.phraseLabels should lower phrases targets).
Proof.
  intros H. unfold Attention.phraseLabels.
  apply fold_left_inv; trivial. intros acc phrase Hacc.
  destruct (JS.includes lower phrase); trivial.
  now apply pushLabel_nonempty.
Qed.

Lemma wordIndexes_positive (targets : list Z) :
  Forall Positive targets ->
  Forall Positive (Attention.wordIndexes should lower targets).
Proof.
  intros H. unfold Attention.wordIndexes.
  apply fold_left_inv; trivial. intros acc entry Hacc.
  destruct (_ || _); trivial. now apply pushIndex_positive.
Qed.

Lemma digitIndex_positive (targets : list Z) :
  Forall Positive targets ->
  Forall Positive (Attention.digitIndex should lower targets).
Proof.
  intros H. unfold Attention.digitIndex.
  destruct (Attention.truthy_capture _); trivial.
  now apply pushIndex_positive.
Qed.

End DirectiveParts.

Lemma quotedLabels_closed (raw lower : string) :
  Attention.quotedLabels false raw lower [] = [].
Proof.
  unfold Attention.quotedLabels. destruct (Regex.test _ lower); trivial.
  apply (fold_left_inv (fun acc => acc = [])); trivial.
  intros acc [q |] ->; trivial. now destruct (JS.truthy _).
Qed.

(** The parts of a directive, as [detectAttentionInstruction] computes them
    from the trimmed text and its lower-case form. *)
Definition directiveLabels (raw lower : string) (attention polite : bool)
  : list string :=
  let labels := Attention.quotedLabels (attention || polite) raw lower [] in
  if attention || polite then
    let labels :=
      Attention.phraseLabels (attention || polite) lower
                             Attention.explicitPhrases labels in
    if Regex.test (Regex.Lit "color") lower || attention
    then Attention.phraseLabels (attention || polite) lower
                                Attention.colorPhrases labels
    else labels
  else labels.

Definition directiveIndexes (lower : string) (attention polite : bool)
  : list Z :=
  if attention || polite
  then Attention.digitIndex (attention || polite) lower
         (Attention.wordIndexes (attention || polite) lower [])
  else [].

Lemma detect_unfold (text : string) :
  let raw := JS.trim text in
  let lower := JS.toLowerCase raw in
  let attention := Regex.test Attention.attentionLanguage lower in
  let polite := Regex.test Attention.politeInstruction lower in
  let result :=
    Attention.mkDirective
      (JS.dedupe (directiveLabels raw lower attention polite))
      (JS.dedupeZ (directiveIndexes lower attention polite))
      (Attention.extractTypedValue raw lower attention)
      (JS.dedupe (Attention.keywordList attention)) in
  Attention.detectAttentionInstruction text =
  if negb (JS.truthy raw) then None
  else if negb (JS.nonempty (Attention.labelTargets result))
          && negb (JS.nonempty (Attention.indexTargets result))
          && negb (JS.nonempty (Attention.preferredKeywords result))
          && negb (Attention.opt_truthy (Attention.typedValue result))
       then None
       else Some result.
Proof. reflexivity. Qed.

Lemma nonempty_false {A : Type} (l : list A) : JS.nonempty l = false <-> l = [].
Proof. destruct l; simpl; split; congruence. Qed.

Lemma six_keywords :
  JS.dedupe (Attention.keywordList true)
  = [ "attention"; "paying attention"; "i am paying attention"; "human";
      "quality"; "instruction" ].
Proof. vm_compute. reflexivity. Qed.

(** A directive is never empty and never redundant: blank text gives none;
    a directive that is returned has a label target, an index target, a
    preferred keyword or a non-empty typed value; its label targets are
    non-empty strings without repetition; its index targets are positive
    finite integers without repetition; and its preferred keywords are
    either none or the six fixed keywords. *)
Theorem directive_is_well_formed (text : string) :
  (JS.trim text = EmptyString ->
   Attention.detectAttentionInstruction text = None)
  /\ forall d,
      Attention.detectAttentionInstruction text = Some d ->
      (Attention.labelTargets d <> []
       \/ Attention.indexTargets d <> []
       \/ Attention.preferredKeywords d <> []
       \/ exists v, Attention.typedValue d = Some v /\ v <> EmptyString)
      /\ NoDup (Attention.labelTargets d)
      /\ Forall (fun t => t <> EmptyString) (Attention.labelTargets d)
      /\ NoDup (Attention.indexTargets d)
      /\ Forall (fun i => (0 < i)%Z) (Attention.indexTargets d)
      /\ (Attention.preferredKeywords d = []
          \/ Attention.preferredKeywords d
             = [ "attention"; "paying attention"; "i am paying attention";
                 "human"; "quality"; "instruction" ]).
Proof.
  pose proof (detect_unfold text) as Hd. cbv zeta in Hd.
  set (raw := JS.trim text) in *.
  set (lower := JS.toLowerCase raw) in *.
  set (attention := Regex.test Attention.attentionLanguage lower) in *.
  set (polite := Regex.test Attention.politeInstruction lower) in *.
  split.
  - intros Hb. rewrite Hd, Hb. reflexivity.
  - intros d H. rewrite Hd in H.
    destruct (negb (JS.truthy raw)); [discriminate H |].
    match type of H with
    | (if ?c then _ else _) = _ => destruct c eqn:Hc; [discriminate H |]
    end.
    injection H as <-.
    cbn [Attention.labelTargets Attention.indexTargets
         Attention.preferredKeywords Attention.typedValue] in *.
    split; [| split; [| split; [| split; [| split]]]].
    + destruct (JS.dedupe (directiveLabels raw lower attention polite))
        as [|l ls]; [| left; discriminate].
      destruct (JS.dedupeZ (directiveIndexes lower attention polite))
        as [|i others]; [| right; left; discriminate].
      destruct (JS.dedupe (Attention.keywordList attention))
        as [|k ks]; [| right; right; left; discriminate].
      right; right; right. cbn in Hc.
      destruct (Attention.extractTypedValue raw lower attention) as [v |];
        [| discriminate Hc].
      exists v. split; trivial. apply truthy_spec.
      cbn in Hc. now destruct (JS.truthy v).
    + apply (dedupe_go_spec _ []).
    + apply Forall_forall. intros t Ht.
      apply (dedupe_go_spec _ []) in Ht. destruct Ht as [Ht _].
      revert t Ht. apply Forall_forall. unfold directiveLabels.
      assert (Hq : Forall NonEmpty
                     (Attention.quotedLabels (attention || polite) raw lower []))
        by (apply quotedLabels_nonempty; constructor).
      destruct (attention || polite); trivial.
      destruct (_ || attention); repeat apply phraseLabels_nonempty; trivial.
    + apply (dedupeZ_go_spec _ []).
    + apply Forall_forall. intros i Hi.
      apply (dedupeZ_go_spec _ []) in Hi. destruct Hi as [Hi _].
      assert (Hall : Forall Positive (directiveIndexes lower attention polite)).
      { unfold directiveIndexes. destruct (attention || polite);
          [| constructor].
        apply digitIndex_positive, wordIndexes_positive. constructor. }
      rewrite Forall_forall in Hall. now apply Hall.
    + destruct attention; [right; apply six_keywords | left; reflexivity].
Qed.

(** Without attention language and without a polite instruction the parser
    collects no target and no keyword: a directive it returns then carries a
    typed value and nothing else. *)
Theorem targets_need_attention_or_polite_language (text : string)
        (d : Attention.Directive) :
  Regex.test Attention.attentionLanguage (JS.toLowerCase (JS.trim text)) = false ->
  Regex.test Attention.politeInstruction (JS.toLowerCase (JS.trim text)) = false ->
  Attention.detectAttentionInstruction text = Some d ->
  Attention.labelTargets d = []
  /\ Attention.indexTargets d = []
  /\ Attention.preferredKeywords d = []
  /\ exists v, Attention.typedValue d = Some v /\ v <> EmptyString.
Proof.
  intros Ha Hp H. rewrite detect_unfold in H. cbv zeta in H.
  rewrite Ha, Hp in H. unfold directiveLabels, directiveIndexes in H.
  cbn [orb] in H. rewrite quotedLabels_closed in H.
  destruct (negb (JS.truthy (JS.trim text))); [discriminate H |].
  cbn in H.
  destruct (Attention.extractTypedValue _ _ false) as [v |] eqn:Hv;
    cbn in H; [| discriminate H].
  destruct (JS.truthy v) eqn:Ht; cbn in H; [| discriminate H].
  injection H as <-. cbn. repeat split.
  exists v. split; trivial. now apply truthy_spec.
Qed.

Lemma targets_need_attention_or_polite_language_witness :
  Attention.labelTargets
    (Attention.mkDirective [] [] (Some "banana") []) = [].
Proof.
  exact (proj1 (targets_need_attention_or_polite_language
                  quotedBananaPrompt
                  (Attention.mkDirective [] [] (Some "banana") [])
                  ltac:(vm_compute; reflexivity)
                  ltac:(vm_compute; reflexivity)
                  ltac:(vm_compute; reflexivity))).
Defined.

(** Attention language always yields a directive: whenever the trimmed,
    lower-cased text contains one of the nine attention phrases, the parser
    returns a directive, and its preferred keywords are the six fixed
    keywords. *)
Theorem attention_language_always_yields_keywords (text phrase : string) :
  In phrase [ "attention"; "quality check"; "instruction check"; "bot check";
              "captcha"; "consistency check"; "control question"; "human";
              "verification" ] ->
  Substring phrase (JS.toLowerCase (JS.trim text)) ->
  exists d,
    Attention.detectAttentionInstruction text = Some d
    /\ Attention.preferredKeywords d
       = [ "attention"; "paying attention"; "i am paying attention"; "human";
           "quality"; "instruction" ].
Proof.
  intros Hin Hsub.
  assert (Ha : Regex.test Attention.attentionLanguage
                          (JS.toLowerCase (JS.trim text)) = true).
  { apply attentionLanguage_spec. now exists phrase. }
  rewrite detect_unfold. cbv zeta. rewrite Ha.
  destruct (JS.trim text) as [|c raw] eqn:Hraw.
  - vm_compute in Ha. discriminate Ha.
  - cbn [JS.truthy negb Attention.preferredKeywords].
    rewrite six_keywords. cbn [JS.nonempty negb].
    rewrite andb_false_r. cbn [andb].
    eexists. split; reflexivity.
Qed.

Lemma attention_language_always_yields_keywords_witness :
  exists d,
    Attention.detectAttentionInstruction "  Are you HUMAN?  " = Some d
    /\ Attention.preferredKeywords d
       = [ "attention"; "paying attention"; "i am paying attention"; "human";
           "quality"; "instruction" ].
Proof.
  apply (attention_language_always_yields_keywords "  Are you HUMAN?  " "human").
  - simpl. tauto.
  - exists "are you ", "?". reflexivity.
Defined.

(* ===================================================================== *)
(** ** [normalize] *)
(* ===================================================================== *)

(** Strings made of lower-case letters, digits and single spaces;
    [after_space] tells that the previous character was a space (or that
    the string must not start with one). *)
Fixpoint tidy (after_space : bool) (s : string) : bool :=
  match s with
  | EmptyString => true
  | String c rest =>
      if Attention.is_alnum c then tidy false rest
      else Ascii.eqb c " " && negb after_space && tidy true rest
  end.

Lemma collapse_tidy (s : string) :
  forall b, tidy b (Attention.collapse b s) = true.
Proof.
  induction s as [|c s IH]; intros b; simpl; trivial.
  destruct (Attention.is_alnum c) eqn:Hc.
  - simpl. rewrite Hc. apply IH.
  - destruct b; [apply IH |].
    simpl. change (Attention.is_alnum " ") with false. cbn. apply IH.
Qed.

Lemma collapse_id (s : string) :
  forall b, tidy b s = true -> Attention.collapse b s = s.
Proof.
  induction s as [|c s IH]; intros b H; simpl in *; trivial.
  destruct (Attention.is_alnum c) eqn:Hc.
  - now rewrite IH.
  - apply andb_true_iff in H. destruct H as [H Hs].
    apply andb_true_iff in H. destruct H as [He Hb].
    apply Ascii.eqb_eq in He. subst c.
    destruct b; [discriminate Hb |]. now rewrite IH.
Qed.

Lemma tidy_weaken (s : string) : tidy true s = true -> tidy false s = true.
Proof.
  destruct s as [|c s]; simpl; trivial.
  destruct (Attention.is_alnum c); trivial.
  rewrite andb_false_r. discriminate.
Qed.

Lemma alnum_facts (c : ascii) :
  Attention.is_alnum c = true ->
  JS.is_upper c = false /\ JS.is_space c = false.
Proof.
  unfold Attention.is_alnum, JS.is_lower, JS.is_digit, JS.is_upper,
    JS.is_space, JS.in_range.
  intros H.
  repeat match goal with
         | |- context [(?a <=? ?b)%nat] => destruct (Nat.leb_spec a b)
         | |- context [(?a =? ?b)%nat] => destruct (Nat.eqb_spec a b)
         | H : context [(?a <=? ?b)%nat] |- _ => destruct (Nat.leb_spec a b)
         end; simpl in *; try discriminate; try lia; split; reflexivity.
Qed.

Lemma toLowerCase_tidy (s : string) :
  forall b, tidy b s = true -> JS.toLowerCase s = s.
Proof.
  induction s as [|c s IH]; intros b H; simpl in *; trivial.
  destruct (Attention.is_alnum c) eqn:Hc.
  - unfold JS.lower_char. destruct (alnum_facts c Hc) as [-> _].
    now rewrite (IH false).
  - apply andb_true_iff in H. destruct H as [H Hs].
    apply andb_true_iff in H. destruct H as [He _].
    apply Ascii.eqb_eq in He. subst c. cbn. now rewrite (IH true).
Qed.

Lemma trimStart_fixed (s : string) :
  tidy true s = true -> JS.trimStart s = s.
Proof.
  destruct s as [|c s]; simpl; trivial.
  destruct (Attention.is_alnum c) eqn:Hc.
  - intros _. now destruct (alnum_facts c Hc) as [_ ->].
  - rewrite andb_false_r. discriminate.
Qed.

Lemma trimStart_tidy (s : string) :
  forall b, tidy b s = true -> tidy true (JS.trimStart s) = true.
Proof.
  intros b H. destruct s as [|c s]; trivial.
  simpl in H. destruct (Attention.is_alnum c) eqn:Hc.
  - cbn [JS.trimStart]. destruct (alnum_facts c Hc) as [_ ->].
    simpl. now rewrite Hc.
  - apply andb_true_iff in H. destruct H as [H Hs].
    apply andb_true_iff in H. destruct H as [He _].
    apply Ascii.eqb_eq in He. subst c. cbn [JS.trimStart].
    change (JS.is_space " ") with true. cbn iota.
    now rewrite trimStart_fixed.
Qed.

(** *** [trimEnd], read from the front *)

Lemma string_app_assoc (a b c : string) :
  ((a ++ b) ++ c = a ++ (b ++ c))%string.
Proof. induction a as [|x a IH]; simpl; [reflexivity | now rewrite IH]. Qed.

Lemma rev_string_app (s : string) :
  forall acc, JS.rev_string acc s
              = (JS.rev_string EmptyString s ++ acc)%string.
Proof.
  induction s as [|c s IH]; intros acc; simpl; trivial.
  rewrite IH, (IH (String c EmptyString)).
  now rewrite string_app_assoc.
Qed.

Lemma rev_string_snoc (s : string) (c : ascii) :
  JS.rev_string EmptyString (s ++ String c EmptyString)
  = String c (JS.rev_string EmptyString s).
Proof.
  induction s as [|d s IH]; simpl; trivial.
  rewrite rev_string_app, IH, (rev_string_app s (String d EmptyString)).
  reflexivity.
Qed.

Lemma trimStart_snoc (s : string) (c : ascii) :
  JS.trimStart (s ++ String c EmptyString)
  = match JS.trimStart s with
    | EmptyString => if JS.is_space c then EmptyString else String c EmptyString
    | String _ _ => (JS.trimStart s ++ String c EmptyString)%string
    end.
Proof.
  induction s as [|d s IH]; simpl; trivial.
  destruct (JS.is_space d); [exact IH | reflexivity].
Qed.

Lemma trimEnd_cons (c : ascii) (s : string) :
  JS.trimEnd (String c s)
  = match JS.trimEnd s with
    | EmptyString => if JS.is_space c then EmptyString else String c EmptyString
    | String _ _ => String c (JS.trimEnd s)
    end.
Proof.
  unfold JS.trimEnd. cbn [JS.rev_string].
  rewrite (rev_string_app s (String c EmptyString)), trimStart_snoc.
  destruct (JS.trimStart (JS.rev_string EmptyString s)) as [|d t] eqn:E.
  - cbn [JS.rev_string]. now destruct (JS.is_space c).
  - rewrite rev_string_snoc.
    destruct (JS.rev_string EmptyString (String d t)) eqn:E'; trivial.
    exfalso. cbn [JS.rev_string] in E'.
    rewrite rev_string_app in E'. destruct (JS.rev_string EmptyString t);
      discriminate E'.
Qed.

Lemma trimEnd_idempotent (s : string) :
  JS.trimEnd (JS.trimEnd s) = JS.trimEnd s.
Proof.
  induction s as [|c s IH]; trivial.
  rewrite trimEnd_cons. destruct (JS.trimEnd s) as [|d t] eqn:E.
  - destruct (JS.is_space c) eqn:Hc; trivial.
    rewrite trimEnd_cons. change (JS.trimEnd EmptyString) with EmptyString.
    cbn iota. now rewrite Hc.
  - rewrite trimEnd_cons, IH. reflexivity.
Qed.

Lemma trimEnd_tidy (s : string) :
  forall b, tidy b s = true -> tidy b (JS.trimEnd s) = true.
Proof.
  induction s as [|c s IH]; intros b H; trivial.
  rewrite trimEnd_cons. simpl in H.
  destruct (Attention.is_alnum c) eqn:Hc.
  - specialize (IH false H).
    destruct (JS.trimEnd s) as [|d t].
    + destruct (JS.is_space c); trivial. simpl. now rewrite Hc.
    + simpl. rewrite Hc. exact IH.
  - apply andb_true_iff in H. destruct H as [H Hs].
    apply andb_true_iff in H. destruct H as [He Hb].
    specialize (IH true Hs).
    destruct (JS.trimEnd s) as [|d t].
    + apply Ascii.eqb_eq in He. subst c. reflexivity.
    + simpl. rewrite Hc, He, Hb. exact IH.
Qed.

Lemma trimStart_trimEnd (s : string) :
  tidy true s = true -> JS.trimStart (JS.trimEnd s) = JS.trimEnd s.
Proof.
  intros H. apply trimStart_fixed. now apply trimEnd_tidy.
Qed.

Lemma normalize_tidy (text : string) :
  tidy true (Attention.normalize text) = true.
Proof.
  unfold Attention.normalize, JS.trim.
  apply trimEnd_tidy. eapply trimStart_tidy. apply collapse_tidy.
Qed.

Lemma tidy_chars (s : string) :
  forall b c,
    tidy b s = true -> In c (list_ascii_of_string s) ->
    Attention.is_alnum c = true \/ c = " "%char.
Proof.
  induction s as [|d s IH]; intros b c H Hin; simpl in *; [destruct Hin |].
  destruct (Attention.is_alnum d) eqn:Hd.
  - destruct Hin as [<- | Hin]; [now left | now apply (IH false)].
  - apply andb_true_iff in H. destruct H as [H Hs].
    apply andb_true_iff in H. destruct H as [He _].
    apply Ascii.eqb_eq in He.
    destruct Hin as [<- | Hin]; [now right | now apply (IH true)].
Qed.

Lemma tidy_no_double_space (before : string) :
  forall b s after,
    tidy b s = true -> s <> (before ++ "  " ++ after)%string.
Proof.
  induction before as [|c before IH]; intros b s after H E; subst s.
  - cbn in H. rewrite andb_false_r in H. discriminate H.
  - simpl in H. destruct (Attention.is_alnum c).
    + now apply (IH false _ after H).
    + apply andb_true_iff in H. destruct H as [_ Hs].
      now apply (IH true _ after Hs).
Qed.

Lemma normalize_trimmed (text : string) :
  JS.trim (Attention.normalize text) = Attention.normalize text.
Proof.
  unfold JS.trim. rewrite (trimStart_fixed _ (normalize_tidy text)).
  unfold Attention.normalize at 1. unfold JS.trim.
  rewrite trimEnd_idempotent. reflexivity.
Qed.

Lemma normalize_fixed (text : string) :
  Attention.normalize (Attention.normalize text) = Attention.normalize text.
Proof.
  pose proof (normalize_tidy text) as Ht.
  unfold Attention.normalize at 1.
  rewrite (toLowerCase_tidy _ true Ht).
  rewrite (collapse_id _ false (tidy_weaken _ Ht)).
  apply normalize_trimmed.
Qed.

(** [normalize] produces only lower-case letters, digits and spaces, with
    no space at either end and no two spaces in a row, and it is idempotent:
    normalizing a normalized text changes nothing (so the bank's stored
    questions, keywords and answers compare as they were stored). *)
Theorem normalize_is_idempotent_and_tidy (text : string) :
  Attention.normalize (Attention.normalize text) = Attention.normalize text
  /\ (forall c,
         In c (list_ascii_of_string (Attention.normalize text)) ->
         JS.is_lower c = true \/ JS.is_digit c = true \/ c = " "%char)
  /\ JS.trim (Attention.normalize text) = Attention.normalize text
  /\ ~ Substring "  " (Attention.normalize text).
Proof.
  pose proof (normalize_tidy text) as Ht.
  split; [| split; [| split]].
  - apply normalize_fixed.
  - intros c Hin. destruct (tidy_chars _ true c Ht Hin) as [H | H].
    + unfold Attention.is_alnum in H. apply orb_true_iff in H. tauto.
    + tauto.
  - apply normalize_trimmed.
  - intros [before [after H]]. now apply (tidy_no_double_space before true _ after Ht).
Qed.

(* ===================================================================== *)
(** ** The answer-bank loader ([SurveyAnswerBank.fromWorkbook]) *)
(* ===================================================================== *)

Module Workbook.










End Workbook.









(* ===================================================================== *)
(** ** Radio groups ([radiosByName]) *)
(* ===================================================================== *)

(** The members recorded under a name. *)
Definition membersOf (n : string) (groups : list (string * list Dom.Input))
  : list Dom.Input :=
  match find (fun group => String.eqb (fst group) n) groups with
  | Some group => snd group
  | None => []
  end.

Lemma addToGroup_members (radio : Dom.Input) (n : string)
      (groups : list (string * list Dom.Input)) :
  membersOf n (Resolver.addToGroup radio groups)
  = if String.eqb n (Dom.name radio)
    then membersOf n groups ++ [radio]
    else membersOf n groups.
Proof.
  unfold membersOf. induction groups as [|[k m] groups IH]; simpl.
  - rewrite (String.eqb_sym (Dom.name radio) n).
    now destruct (String.eqb n (Dom.name radio)).
  - destruct (String.eqb_spec k (Dom.name radio)) as [-> | Hk]; simpl.
    + rewrite (String.eqb_sym (Dom.name radio) n).
      now destruct (String.eqb n (Dom.name radio)).
    + destruct (String.eqb_spec k n) as [-> | Hn]; simpl.
      * destruct (String.eqb_spec n (Dom.name radio)); [congruence | reflexivity].
      * exact IH.
Qed.

Lemma addToGroup_keys (radio : Dom.Input)
      (groups : list (string * list Dom.Input)) :
  (forall k, In k (map fst (Resolver.addToGroup radio groups))
             <-> k = Dom.name radio \/ In k (map fst groups))
  /\ (NoDup (map fst groups) ->
      NoDup (map fst (Resolver.addToGroup radio groups)))
  /\ (Forall (fun group => snd group <> []) groups ->
      Forall (fun group => snd group <> [])
             (Resolver.addToGroup radio groups)).
Proof.
  induction groups as [|[k m] groups [IHin [IHnd IHne]]]; simpl.
  - split.
    { intros k. split; [intros [<- | []]; now left | intros [-> | []]; now left]. }
    split.
    + intros _. constructor; [intros [] | constructor].
    + intros _. constructor; [discriminate | constructor].
  - destruct (String.eqb_spec k (Dom.name radio)) as [-> | Hk]; simpl.
    + split.
      { intros k. split.
        - intros [<- | H]; [now left | right; now right].
        - intros [-> | [<- | H]]; [now left | now left | now right]. }
      split; trivial.
      intros H. inversion H as [|? ? Hm Hrest]; subst.
      constructor; trivial. simpl. now destruct m.
    + split; [| split].
      * intros k'. rewrite IHin. tauto.
      * intros H. inversion H as [|? ? Hnot Hnd]; subst.
        constructor; [| now apply IHnd].
        rewrite IHin. intros [-> | Hin]; [congruence | contradiction].
      * intros H. inversion H; subst. constructor; trivial. now apply IHne.
Qed.

Lemma radiosByName_snoc (radios : list Dom.Input) (radio : Dom.Input) :
  Resolver.radiosByName (radios ++ [radio])
  = Resolver.addToGroup radio (Resolver.radiosByName radios).
Proof. unfold Resolver.radiosByName. now rewrite fold_left_app. Qed.

Lemma radiosByName_facts (radios : list Dom.Input) :
  NoDup (map fst (Resolver.radiosByName radios))
  /\ Forall (fun group => snd group <> []) (Resolver.radiosByName radios)
  /\ (forall n, membersOf n (Resolver.radiosByName radios)
                = filter (fun r => String.eqb n (Dom.name r)) radios)
  /\ (forall k, In k (map fst (Resolver.radiosByName radios))
                <-> exists r, In r radios /\ Dom.name r = k).
Proof.
  induction radios as [|radio radios [IHnd [IHne [IHm IHk]]]] using rev_ind.
  - split; [constructor |]. split; [constructor |]. split; [reflexivity |].
    intros k. simpl. split; [tauto | intros [r [[] _]]].
  - rewrite radiosByName_snoc.
    destruct (addToGroup_keys radio (Resolver.radiosByName radios))
      as [Hin [Hnd Hne]].
    split; [now apply Hnd |]. split; [now apply Hne |]. split.
    + intros n. rewrite addToGroup_members, IHm, filter_app. simpl.
      destruct (String.eqb n (Dom.name radio)); [reflexivity |].
      now rewrite app_nil_r.
    + intros k. rewrite Hin, IHk. split.
      * intros [-> | [r [Hr Hn]]].
        -- exists radio. split; trivial. apply in_or_app. right. now left.
        -- exists r. split; trivial. apply in_or_app. now left.
      * intros [r [Hr Hn]]. apply in_app_or in Hr.
        destruct Hr as [Hr | [<- | []]]; [right; now exists r | now left].
Qed.

Lemma membersOf_In (n : string) (m : list Dom.Input)
      (groups : list (string * list Dom.Input)) :
  NoDup (map fst groups) -> In (n, m) groups -> membersOf n groups = m.
Proof.
  unfold membersOf. induction groups as [|[k m'] groups IH]; intros Hnd Hin.
  - destruct Hin.
  - simpl. inversion Hnd as [|? ? Hnot Hrest]; subst.
    destruct Hin as [[= -> ->] | Hin].
    + now rewrite String.eqb_refl.
    + destruct (String.eqb_spec k n) as [-> | Hne].
      * exfalso. apply Hnot. change n with (fst (n, m)). now apply in_map.
      * now apply IH.
Qed.

(** The visible radios are split by name: group names are distinct and come
    in order of first appearance, no group is empty, a group holds all the
    visible radios of its name in document order, and every visible radio is
    in the group of its name (radios without a name share the group of the
    empty name). *)
Theorem radios_are_partitioned_by_name (visibleRadios : list Dom.Input) :
  let groups := Resolver.radiosByName visibleRadios in
  NoDup (map fst groups)
  /\ (forall n members,
         In (n, members) groups ->
         members <> []
         /\ members
            = filter (fun r => String.eqb n (Dom.name r)) visibleRadios)
  /\ (forall r,
         In r visibleRadios ->
         exists members, In (Dom.name r, members) groups /\ In r members).
Proof.
  intros groups. subst groups.
  destruct (radiosByName_facts visibleRadios) as [Hnd [Hne [Hm Hk]]].
  split; [exact Hnd |]. split.
  - intros n members Hin. split.
    + rewrite Forall_forall in Hne. exact (Hne _ Hin).
    + rewrite <- Hm. symmetry. now apply membersOf_In.
  - intros r Hr.
    assert (Hkey : In (Dom.name r)
                      (map fst (Resolver.radiosByName visibleRadios))).
    { apply Hk. now exists r. }
    apply in_map_iff in Hkey. destruct Hkey as [[k members] [Hfst Hin]].
    simpl in Hfst. subst k. exists members. split; trivial.
    rewrite <- (membersOf_In _ _ _ Hnd Hin), Hm.
    apply filter_In. split; trivial. apply String.eqb_refl.
Qed.

(* ===================================================================== *)
(** ** Checkboxes are only ever checked *)
(* ===================================================================== *)

(** The three stages of the checkbox block, on its running state. *)
Definition boxDirectiveStage (attention : option Attention.Directive)
           (st : Script.Boxes) : Script.Boxes :=
  match attention with
  | Some directive =>
      let required := Script.requiredBoxes directive (Script.boxes st) in
      let st := fold_left (Script.clickUnchecked false) required st in
      Script.mkBoxes (Script.boxes st) (Script.pass st) (JS.nonempty required)
  | None => st
  end.

Definition boxBankStage (entry : option Bank.SerializedAnswerEntry)
           (st : Script.Boxes) : Script.Boxes :=
  match entry with
  | Some e =>
      if negb (Script.matched st) then
        fold_left
          (fun st answer =>
             match Script.find_index
                     (fun candidate =>
                        Resolver.labelMatch
                          (Attention.normalize (Dom.getLabelText candidate))
                          (Bank.normalized answer))
                     (Script.boxes st) 0 with
             | Some index => Script.clickUnchecked true st index
             | None => st
             end)
          (Bank.answers e) st
      else st
  | None => st
  end.

Definition boxRandomStage (st : Script.Boxes) : Script.Pass :=
  if negb (Script.matched st) then
    let selections := Nat.max 1 (Nat.min (List.length (Script.boxes st)) 2) in
    let (weighted, g) :=
      Script.drawWeights (List.length (Script.boxes st)) 0
                         (Script.rng (Script.pass st)) in
    let shuffled :=
      map fst (firstn selections (Script.sortByWeight weighted)) in
    let st :=
      Script.mkBoxes (Script.boxes st)
                     (Script.mkPass (Script.interacted (Script.pass st))
                                    (Script.actions (Script.pass st)) g)
                     (Script.matched st) in
    Script.pass (fold_left (Script.clickUnchecked false) shuffled st)
  else Script.pass st.

Lemma checkboxPass_stages (bank : list Bank.SerializedAnswerEntry)
      (first : Dom.Input) (rest : list Dom.Input) (p : Script.Pass) :
  Script.checkboxPass bank (first :: rest) p
  = boxRandomStage
      (boxBankStage (Bank.findEntry bank (Dom.getQuestionText first))
         (boxDirectiveStage
            (Attention.detectAttentionInstruction (Dom.getQuestionText first))
            (Script.mkBoxes (first :: rest) p false))).
Proof. reflexivity. Qed.

Lemma click_length (boxes : list Dom.Input) :
  forall index, List.length (Script.click boxes index) = List.length boxes.
Proof.
  induction boxes as [|box boxes IH]; intros [|index]; simpl; auto.
Qed.

Lemma isChecked_click (boxes : list Dom.Input) :
  forall index j,
    index < List.length boxes ->
    Script.isChecked (Script.click boxes index) j
    = if Nat.eqb j index then negb (Script.isChecked boxes index)
      else Script.isChecked boxes j.
Proof.
  unfold Script.isChecked.
  induction boxes as [|box boxes IH]; intros index j Hlt; simpl in Hlt; [lia |].
  destruct index as [|index]; destruct j as [|j]; simpl; trivial.
  apply IH. lia.
Qed.

Lemma find_index_range {A : Type} (f : A -> bool) (l : list A) :
  forall start index,
    Script.find_index f l start = Some index ->
    start <= index < start + List.length l.
Proof.
  induction l as [|x l IH]; intros start index H; simpl in H; [discriminate |].
  destruct (f x).
  - injection H as <-. simpl. lia.
  - apply IH in H. simpl. lia.
Qed.

Lemma index_at_range {A : Type} (l : list A) (i : Z) (index : nat) :
  Script.index_at l i = Some index -> index < List.length l.
Proof.
  unfold Script.index_at, JS.at_index.
  destruct (Z.ltb_spec i 0); [discriminate |].
  destruct (nth_error l (Z.to_nat i)) eqn:E; [| discriminate].
  intros [= <-]. apply nth_error_Some. congruence.
Qed.

Lemma existsb_nat_In (i : nat) (l : list nat) :
  existsb (Nat.eqb i) l = true <-> In i l.
Proof.
  rewrite existsb_exists. split.
  - intros [j [Hj He]]. apply Nat.eqb_eq in He. now subst.
  - intros H. exists i. split; trivial. apply Nat.eqb_refl.
Qed.

Lemma Forall_first {A : Type} (P : A -> Prop) (l : list A) :
  forall n, Forall P l -> Forall P (firstn n l).
Proof.
  induction l as [|x l IH]; intros [|n] H; simpl; try constructor.
  - now inversion H.
  - apply IH. now inversion H.
Qed.

(** The three stages of [requiredBoxes]. *)
Definition requiredByLabels (directive : Attention.Directive)
           (boxes : list Dom.Input) : list nat :=
  if JS.nonempty (Attention.labelTargets directive) then
    fold_left
      (fun required target =>
         Script.pushRequired required
           (Script.find_index
              (fun candidate =>
                 Resolver.labelMatch
                   (Attention.normalize (Dom.getLabelText candidate)) target)
              boxes 0))
      (Attention.labelTargets directive) []
  else [].

Definition requiredByKeyword (directive : Attention.Directive)
           (boxes : list Dom.Input) (required : list nat) : list nat :=
  if negb (JS.nonempty required)
     && JS.nonempty (Attention.preferredKeywords directive)
  then
    match Script.find_index
            (fun candidate =>
               Resolver.keywordMatch
                 (Attention.preferredKeywords directive)
                 (Attention.normalize (Dom.getLabelText candidate))) boxes 0 with
    | Some index => required ++ [index]
    | None => required
    end
  else required.

Definition requiredByIndex (directive : Attention.Directive)
           (boxes : list Dom.Input) (required : list nat) : list nat :=
  if negb (JS.nonempty required)
     && JS.nonempty (Attention.indexTargets directive)
  then
    fold_left
      (fun required indexTarget =>
         Script.pushRequired required
           (Script.index_at boxes (indexTarget - 1)%Z))
      (Attention.indexTargets directive) required
  else required.

Lemma requiredBoxes_stages (directive : Attention.Directive)
      (boxes : list Dom.Input) :
  Script.requiredBoxes directive boxes
  = requiredByIndex directive boxes
      (requiredByKeyword directive boxes (requiredByLabels directive boxes)).
Proof. reflexivity. Qed.

Section CheckboxInvariant.

(** The checkboxes and the pass at the start of the block. *)
Variable orig : list Dom.Input.
Variable p0 : Script.Pass.

(** The boxes clicked so far are distinct boxes that were unchecked at the
    start, and a box is checked now when it was checked at the start or has
    been clicked. *)
Definition CheckInv (st : Script.Boxes) : Prop :=
  List.length (Script.boxes st) = List.length orig
  /\ exists clicked,
      Script.actions (Script.pass st)
      = Script.actions p0 ++ map Script.ClickCheckbox clicked
      /\ Script.interacted (Script.pass st)
         = Script.interacted p0 || JS.nonempty clicked
      /\ NoDup clicked
      /\ (forall i, In i clicked ->
                    i < List.length orig /\ Script.isChecked orig i = false)
      /\ forall i, Script.isChecked (Script.boxes st) i
                   = Script.isChecked orig i || existsb (Nat.eqb i) clicked.

Lemma CheckInv_start : CheckInv (Script.mkBoxes orig p0 false).
Proof.
  split; [reflexivity |]. exists []. cbn.
  rewrite app_nil_r, !orb_false_r. repeat split; trivial.
  - constructor.
  - destruct H.
  - destruct H.
  - intros i. now rewrite orb_false_r.
Qed.

Lemma CheckInv_same (st st' : Script.Boxes) :
  Script.boxes st' = Script.boxes st ->
  Script.actions (Script.pass st') = Script.actions (Script.pass st) ->
  Script.interacted (Script.pass st') = Script.interacted (Script.pass st) ->
  CheckInv st -> CheckInv st'.
Proof.
  intros Hb Ha Hi [Hlen [clicked H]]. unfold CheckInv.
  rewrite Hb, Ha, Hi. split; trivial. now exists clicked.
Qed.

Lemma clickUnchecked_inv (mark : bool) (st : Script.Boxes) (index : nat) :
  index < List.length orig ->
  CheckInv st -> CheckInv (Script.clickUnchecked mark st index).
Proof.
  intros Hlt [Hlen [clicked [Hacts [Hint [Hnd [Hin Hchk]]]]]].
  unfold Script.clickUnchecked.
  destruct (Script.isChecked (Script.boxes st) index) eqn:Hc; cbn [negb].
  - split; trivial. now exists clicked.
  - rewrite Hchk in Hc. apply orb_false_iff in Hc. destruct Hc as [Ho Hex].
    assert (Hnew : ~ In index clicked).
    { intros H. apply existsb_nat_In in H. congruence. }
    split; [cbn [Script.boxes]; now rewrite click_length |].
    exists (clicked ++ [index]).
    cbn [Script.boxes Script.pass Script.act Script.actions Script.interacted].
    split; [| split; [| split; [| split]]].
    + rewrite Hacts, map_app, <- app_assoc. reflexivity.
    + assert (Hne : JS.nonempty (clicked ++ [index]) = true)
        by now destruct clicked.
      rewrite Hne. symmetry. apply orb_true_r.
    + apply NoDup_app; trivial.
      * constructor; [intros [] | constructor].
      * intros i Hi [<- | []]. contradiction.
    + intros i Hi. apply in_app_or in Hi.
      destruct Hi as [Hi | [<- | []]]; [now apply Hin | now split].
    + intros i. rewrite isChecked_click by lia.
      rewrite existsb_app. cbn [existsb]. rewrite orb_false_r.
      destruct (Nat.eqb_spec i index) as [-> | Hne].
      * rewrite Hchk, Ho, Hex. reflexivity.
      * rewrite Hchk, orb_false_r. reflexivity.
Qed.

Lemma clicks_inv (mark : bool) (indexes : list nat) :
  Forall (fun index => index < List.length orig) indexes ->
  forall st, CheckInv st ->
             CheckInv (fold_left (Script.clickUnchecked mark) indexes st).
Proof.
  induction indexes as [|index indexes IH]; intros Hall st Hst; simpl; trivial.
  inversion Hall; subst. apply IH; trivial. now apply clickUnchecked_inv.
Qed.

Lemma pushRequired_range (bound : nat) (required : list nat)
      (found : option nat) :
  Forall (fun i => i < bound) required ->
  (forall i, found = Some i -> i < bound) ->
  Forall (fun i => i < bound) (Script.pushRequired required found).
Proof.
  intros Hr Hf. unfold Script.pushRequired.
  destruct found as [i |]; trivial.
  destruct (existsb _ required); trivial.
  apply Forall_snoc; trivial. now apply Hf.
Qed.

Lemma requiredBoxes_range (directive : Attention.Directive)
      (boxes : list Dom.Input) :
  Forall (fun i => i < List.length boxes)
         (Script.requiredBoxes directive boxes).
Proof.
  rewrite requiredBoxes_stages.
  assert (H1 : Forall (fun i => i < List.length boxes)
                      (requiredByLabels directive boxes)).
  { unfold requiredByLabels. destruct (JS.nonempty _); [| constructor].
    apply fold_left_inv; [| constructor].
    intros acc target Hacc. apply pushRequired_range; trivial.
    intros i Hi. apply find_index_range in Hi. lia. }
  assert (H2 : Forall (fun i => i < List.length boxes)
                      (requiredByKeyword directive boxes
                         (requiredByLabels directive boxes))).
  { unfold requiredByKeyword. destruct (_ && _); trivial.
    destruct (Script.find_index _ boxes 0) as [i |] eqn:Hi; trivial.
    apply Forall_snoc; trivial. apply find_index_range in Hi. lia. }
  unfold requiredByIndex. destruct (_ && _); trivial.
  apply fold_left_inv; trivial.
  intros acc indexTarget Hacc. apply pushRequired_range; trivial.
  intros i Hi. now apply index_at_range in Hi.
Qed.

Lemma boxDirectiveStage_inv (attention : option Attention.Directive)
      (st : Script.Boxes) :
  CheckInv st -> CheckInv (boxDirectiveStage attention st).
Proof.
  intros Hst. unfold boxDirectiveStage.
  destruct attention as [directive |]; trivial. cbv zeta.
  eapply CheckInv_same; [reflexivity | reflexivity | reflexivity |].
  apply clicks_inv; trivial.
  destruct Hst as [Hlen _]. rewrite <- Hlen. apply requiredBoxes_range.
Qed.

Lemma boxBankStage_inv (entry : option Bank.SerializedAnswerEntry)
      (st : Script.Boxes) :
  CheckInv st -> CheckInv (boxBankStage entry st).
Proof.
  intros Hst. unfold boxBankStage.
  destruct entry as [e |]; trivial.
  destruct (negb (Script.matched st)); trivial.
  apply fold_left_inv; trivial.
  intros acc answer Hacc.
  destruct (Script.find_index _ (Script.boxes acc) 0) as [index |] eqn:Hi;
    trivial.
  apply clickUnchecked_inv; trivial.
  apply find_index_range in Hi. destruct Hacc as [Hlen _]. lia.
Qed.

Lemma drawWeights_range (count : nat) :
  forall index g,
    Forall (fun x => fst x < index + count)
           (fst (Script.drawWeights count index g)).
Proof.
  induction count as [|count IH]; intros index g; cbn [Script.drawWeights].
  - constructor.
  - unfold Rng.random.
    specialize (IH (S index) (Rng.mk (Rng.draws g) (S (Rng.used g)))).
    destruct (Script.drawWeights count (S index) _) as [rest g''].
    cbn [fst] in *. constructor; [simpl; lia |].
    eapply Forall_impl; [| exact IH]. intros x Hx. simpl in Hx. lia.
Qed.

Lemma insertByWeight_Forall (P : nat * Q -> Prop) (x : nat * Q)
      (sorted : list (nat * Q)) :
  P x -> Forall P sorted -> Forall P (Script.insertByWeight x sorted).
Proof.
  intros Hx. induction sorted as [|y sorted IH]; intros H; simpl.
  - now constructor.
  - inversion H; subst. destruct (Qle_bool (snd y) (snd x)).
    + constructor; auto.
    + constructor; trivial.
Qed.

Lemma sortByWeight_Forall (P : nat * Q -> Prop) (l : list (nat * Q)) :
  Forall P l -> Forall P (Script.sortByWeight l).
Proof.
  unfold Script.sortByWeight. intros H.
  assert (Hgen : forall acc, Forall P acc ->
                             Forall P (fold_left
                                         (fun sorted x =>
                                            Script.insertByWeight x sorted)
                                         l acc)).
  { induction H as [|x l Hx Hl IH]; intros acc Hacc; simpl; trivial.
    apply IH. now apply insertByWeight_Forall. }
  apply Hgen. constructor.
Qed.

Lemma boxRandomStage_inv (st : Script.Boxes) :
  CheckInv st ->
  exists st', CheckInv st' /\ boxRandomStage st = Script.pass st'.
Proof.
  intros Hst. unfold boxRandomStage.
  destruct (negb (Script.matched st)); [| now exists st].
  pose proof (drawWeights_range (List.length (Script.boxes st)) 0
                                (Script.rng (Script.pass st))) as Hr.
  destruct (Script.drawWeights _ 0 _) as [weighted g]. cbn [fst] in Hr.
  eexists. split; [| reflexivity].
  apply clicks_inv.
  - apply Forall_map. apply Forall_first. apply sortByWeight_Forall.
    destruct Hst as [Hlen _]. rewrite <- Hlen. exact Hr.
  - eapply CheckInv_same; [| | | exact Hst]; reflexivity.
Qed.

End CheckboxInvariant.

Lemma checkboxPass_clicks
      (bank : list Bank.SerializedAnswerEntry)
      (visibleBoxes : list Dom.Input) (p : Script.Pass) :
  exists clicked,
    Script.actions (Script.checkboxPass bank visibleBoxes p)
    = Script.actions p ++ map Script.ClickCheckbox clicked
    /\ NoDup clicked
    /\ (forall i, In i clicked ->
                  exists box, nth_error visibleBoxes i = Some box
                              /\ Dom.checked box = false)
    /\ Script.interacted (Script.checkboxPass bank visibleBoxes p)
       = Script.interacted p || JS.nonempty clicked.
Proof.
  destruct visibleBoxes as [|first rest].
  - exists []. cbn. rewrite app_nil_r, orb_false_r. repeat split.
    + constructor.
    + intros i [].
  - rewrite checkboxPass_stages.
    set (orig := first :: rest).
    pose proof (CheckInv_start orig p) as H0.
    apply (boxDirectiveStage_inv orig p
             (Attention.detectAttentionInstruction (Dom.getQuestionText first)))
      in H0.
    apply (boxBankStage_inv orig p
             (Bank.findEntry bank (Dom.getQuestionText first))) in H0.
    apply boxRandomStage_inv in H0.
    destruct H0 as [st' [[Hlen [clicked [Hacts [Hint [Hnd [Hin _]]]]]] ->]].
    exists clicked. split; [exact Hacts |]. split; [exact Hnd |].
    split; [| exact Hint].
    intros i Hi. destruct (Hin i Hi) as [Hlt Hc].
    unfold Script.isChecked in Hc.
    destruct (nth_error orig i) as [box |] eqn:Hbox.
    + now exists box.
    + apply nth_error_None in Hbox. lia.
Qed.

Lemma checkboxes_clicks
      (bank : list Bank.SerializedAnswerEntry)
      (visibleBoxes : list Dom.Input) (p : Script.Pass) :
  exists clicked,
    Script.actions (Script.checkboxPass bank visibleBoxes p)
    = Script.actions p ++ map Script.ClickCheckbox clicked
    /\ Script.interacted (Script.checkboxPass bank visibleBoxes p)
       = Script.interacted p || JS.nonempty clicked.
Proof.
  destruct (checkboxPass_clicks bank visibleBoxes p)
    as [clicked [Ha [_ [_ Hi]]]].
  now exists clicked.
Qed.

(** The checkbox block only ever checks boxes: every click it makes goes to
    a visible checkbox that was unchecked when the block started, no box is
    clicked twice (so none is checked and then unchecked again), and the
    block counts as an interaction exactly when it clicked something. *)
Theorem checkboxes_are_never_unchecked
        (bank : list Bank.SerializedAnswerEntry)
        (visibleBoxes : list Dom.Input) (p : Script.Pass) :
  exists clicked,
    Script.actions (Script.checkboxPass bank visibleBoxes p)
    = Script.actions p ++ map Script.ClickCheckbox clicked
    /\ NoDup clicked
    /\ (forall i, In i clicked ->
                  exists box, nth_error visibleBoxes i = Some box
                              /\ Dom.checked box = false)
    /\ Script.interacted (Script.checkboxPass bank visibleBoxes p)
       = Script.interacted p || JS.nonempty clicked.
Proof.
  exact (checkboxPass_clicks bank visibleBoxes p).
Qed.

(* ===================================================================== *)
(** ** The scan order of the field pass *)
(* ===================================================================== *)

Lemma radioAttentionStages_in (attention : option Attention.Directive)
      (group : list Dom.Input) (p : Dom.Input) :
  radioAttentionStages attention group = Some p -> In p group.
Proof.
  assert (H1 : forall q, Resolver.radioLabelStage attention group = Some q ->
                         In q group).
  { intros q H. unfold Resolver.radioLabelStage in H.
    destruct (JS.nonempty _); [| discriminate H].
    apply assign_until_some in H.
    destruct H as [[t [_ Hf]] | [_ H]]; [| discriminate H].
    now apply find_some in Hf. }
  assert (H2 : forall q,
             Resolver.radioKeywordStage attention group
               (Resolver.radioLabelStage attention group) = Some q ->
             In q group).
  { intros q H. unfold Resolver.radioKeywordStage in H.
    destruct (_ && _); [now apply find_some in H | now apply H1]. }
  intros H. unfold radioAttentionStages, Resolver.radioIndexStage in H.
  destruct (_ && _); [| now apply H2].
  apply first_hit_some in H.
  destruct H as [[i [_ Hi]] | H]; [now apply at_index_In in Hi | now apply H2].
Qed.

Lemma radioOption_in_group (bank : list Bank.SerializedAnswerEntry)
      (group : list Dom.Input) (g : Rng.t) (p : Dom.Input) :
  fst (Resolver.radioOption bank group g) = Some p -> In p group.
Proof.
  assert (Hchain : forall attention entry,
             fst (Resolver.radioChain attention entry group g) = Some p ->
             In p group).
  { intros attention entry H. unfold Resolver.radioChain in H.
    fold (radioAttentionStages attention group) in H.
    destruct (radioAttentionStages attention group) as [q |] eqn:Hatt.
    - apply radioAttentionStages_in in Hatt.
      destruct entry; cbn in H; now injection H as <-.
    - assert (Hrand : fst (Resolver.chooseRandom group g) = Some p ->
                      In p group).
      { unfold Resolver.chooseRandom. destruct group; [discriminate |].
        destruct (Rng.randomIndex _ g) as [index g']. cbn [fst].
        apply at_index_In. }
      unfold Resolver.radioBankStage in H. destruct entry as [e |]; auto.
      destruct (Resolver.assign_until _ (Bank.answers e) None) as [q |] eqn:Hb;
        auto.
      cbn in H. injection H as ->. apply assign_until_some in Hb.
      destruct Hb as [[a [_ Hf]] | [_ Hn]]; [| discriminate Hn].
      now apply find_some in Hf. }
  unfold Resolver.radioOption. destruct group as [|first rest]; apply Hchain.
Qed.

(** A pass state reached from [p] by actions that all satisfy [K]. *)
Definition Extends (K : Script.Action -> Prop) (p p' : Script.Pass) : Prop :=
  exists added,
    Script.actions p' = Script.actions p ++ added
    /\ Forall K added
    /\ Script.interacted p' = Script.interacted p || JS.nonempty added.

Lemma Extends_refl (K : Script.Action -> Prop) (p : Script.Pass) :
  Extends K p p.
Proof.
  exists []. rewrite app_nil_r, orb_false_r. repeat split. constructor.
Qed.

Lemma nonempty_app {A : Type} (a b : list A) :
  JS.nonempty (a ++ b) = JS.nonempty a || JS.nonempty b.
Proof. destruct a; reflexivity. Qed.

Lemma Extends_trans (K : Script.Action -> Prop) (p1 p2 p3 : Script.Pass) :
  Extends K p1 p2 -> Extends K p2 p3 -> Extends K p1 p3.
Proof.
  intros [a1 [H1 [K1 I1]]] [a2 [H2 [K2 I2]]]. exists (a1 ++ a2).
  split; [now rewrite H2, H1, app_assoc |].
  split; [apply Forall_app; now split |].
  now rewrite I2, I1, nonempty_app, orb_assoc.
Qed.

(** A click on a radio that is one of the given radios. *)
Definition RadioClickIn (radios : list Dom.Input) (a : Script.Action) : Prop :=
  exists radio, a = Script.ClickRadio radio /\ In radio radios.

Lemma radioPass_extends (bank : list Bank.SerializedAnswerEntry)
      (radios : list Dom.Input) (groups : list (string * list Dom.Input)) :
  (forall group r, In group groups -> In r (snd group) -> In r radios) ->
  forall p,
    Extends (RadioClickIn radios) p (Script.radioPass bank groups p).
Proof.
  unfold Script.radioPass.
  induction groups as [|group groups IH]; intros Hsub p; cbn [fold_left].
  - apply Extends_refl.
  - eapply Extends_trans; [| apply IH].
    + pose proof (radioOption_in_group bank (snd group) (Script.rng p)) as Hin.
      destruct (Resolver.radioOption bank (snd group) (Script.rng p))
        as [[radio |] g]; cbn [fst] in Hin.
      * exists [Script.ClickRadio radio]. cbn. rewrite orb_true_r.
        repeat split. constructor; [| constructor].
        exists radio. split; trivial.
        apply (Hsub group); [now left | now apply Hin].
      * exists []. cbn. rewrite app_nil_r, orb_false_r.
        repeat split. constructor.
    + intros group' r Hg Hr. apply (Hsub group'); [now right | exact Hr].
Qed.

(** What the select, short-text and long-form blocks do, as lists. *)
Definition selectActions (bank : list Bank.SerializedAnswerEntry)
           (selects : list Dom.Select) : list Script.Action :=
  flat_map
    (fun select =>
       match Resolver.selectChoice bank select with
       | Some choice => [Script.AssignSelect select (Dom.value choice)]
       | None => []
       end)
    selects.

Definition textActions (bank : list Bank.SerializedAnswerEntry)
           (inputs : list Dom.Input) : list Script.Action :=
  map (fun input => Script.TypeInput input (Resolver.textSample bank input))
      (firstn 2 inputs).

Fixpoint areaActions (bank : list Bank.SerializedAnswerEntry)
         (longForm : LongForm.Answers) (index : nat)
         (areas : list Dom.TextArea) : list Script.Action :=
  match areas with
  | [] => []
  | textarea :: rest =>
      Script.TypeArea (deriveKey textarea index)
                      (Script.areaSample bank longForm textarea index)
      :: areaActions bank longForm (S index) rest
  end.

(** A pass state reached from [p] by exactly the actions [added]. *)
Definition Adds (added : list Script.Action) (p p' : Script.Pass) : Prop :=
  Script.actions p' = Script.actions p ++ added
  /\ Script.interacted p' = Script.interacted p || JS.nonempty added.

Lemma Adds_act (a : Script.Action) (rest : list Script.Action)
      (p p' : Script.Pass) :
  Adds rest (Script.act a p) p' -> Adds (a :: rest) p p'.
Proof.
  intros [Ha Hi]. split.
  - rewrite Ha. cbn. now rewrite <- app_assoc.
  - rewrite Hi. cbn. now rewrite orb_true_r.
Qed.

Lemma selectPass_adds (bank : list Bank.SerializedAnswerEntry)
      (selects : list Dom.Select) :
  forall p, Adds (selectActions bank selects) p
                 (Script.selectPass bank selects p).
Proof.
  unfold Script.selectPass, selectActions.
  induction selects as [|select selects IH]; intros p; cbn [fold_left flat_map].
  - split; [now rewrite app_nil_r | now rewrite orb_false_r].
  - destruct (Resolver.selectChoice bank select) as [choice |]; cbn [app].
    + apply Adds_act, IH.
    + apply IH.
Qed.

Lemma textPass_adds (bank : list Bank.SerializedAnswerEntry)
      (inputs : list Dom.Input) (p : Script.Pass) :
  Adds (textActions bank inputs) p (Script.textPass bank inputs p).
Proof.
  unfold Script.textPass, textActions. revert p.
  induction (firstn 2 inputs) as [|input rest IH]; intros p; cbn [fold_left map].
  - split; [now rewrite app_nil_r | now rewrite orb_false_r].
  - apply Adds_act, IH.
Qed.

Lemma areaPass_adds (bank : list Bank.SerializedAnswerEntry)
      (longForm : LongForm.Answers) (areas : list Dom.TextArea) :
  forall index p,
    Adds (areaActions bank longForm index areas) p
         (Script.areaPass bank longForm index areas p).
Proof.
  induction areas as [|textarea areas IH]; intros index p;
    cbn [Script.areaPass areaActions].
  - split; [now rewrite app_nil_r | now rewrite orb_false_r].
  - apply Adds_act, IH.
Qed.

Lemma areaActions_length (bank : list Bank.SerializedAnswerEntry)
      (longForm : LongForm.Answers) (areas : list Dom.TextArea) :
  forall index,
    List.length (areaActions bank longForm index areas) = List.length areas.
Proof.
  induction areas as [|textarea areas IH]; intros index; cbn; auto.
Qed.

(** The field pass works in a fixed order: first clicks on visible radios,
    then clicks on checkboxes, then one assignment for each visible select
    that has a selectable option (the value of the option chosen for it),
    then a value for the first two visible short-text inputs and for no
    other, then a value for every visible textarea, keyed as [deriveKey]
    says.  It reports an interaction exactly when it did one of these
    things. *)
Theorem field_pass_follows_scan_order
        (bank : list Bank.SerializedAnswerEntry) (longForm : LongForm.Answers)
        (doc : Dom.Document) (g : Rng.t) :
  let result := Script.answerCurrentStep bank longForm doc g in
  (exists radioClicks boxClicks,
      Script.actions result
      = radioClicks
          ++ map Script.ClickCheckbox boxClicks
          ++ selectActions bank (filter Dom.visibleSelect (Dom.selects doc))
          ++ textActions bank (filter Dom.visible (Dom.textInputs doc))
          ++ areaActions bank longForm 0
                         (filter Dom.visibleArea (Dom.textareas doc))
      /\ Forall (fun a => exists radio,
                     a = Script.ClickRadio radio
                     /\ In radio (Dom.radios doc)
                     /\ Dom.visible radio = true)
                radioClicks)
  /\ Script.interacted result = JS.nonempty (Script.actions result)
  /\ List.length (textActions bank (filter Dom.visible (Dom.textInputs doc)))
     = Nat.min 2 (List.length (filter Dom.visible (Dom.textInputs doc)))
  /\ List.length (areaActions bank longForm 0
                              (filter Dom.visibleArea (Dom.textareas doc)))
     = List.length (filter Dom.visibleArea (Dom.textareas doc)).
Proof.
  intros result. subst result. unfold Script.answerCurrentStep.
  set (p0 := Script.mkPass false [] g).
  set (visibleRadios := filter Dom.visible (Dom.radios doc)).
  assert (H1 : Extends (RadioClickIn visibleRadios) p0
                 (Script.radioPass bank (Resolver.radiosByName visibleRadios) p0)).
  { apply radioPass_extends. intros [n members] r Hg Hr. cbn [snd] in Hr.
    destruct (radiosByName_facts visibleRadios) as [Hnd [_ [Hm _]]].
    rewrite <- (membersOf_In _ _ _ Hnd Hg), Hm in Hr.
    now apply filter_In in Hr. }
  destruct H1 as [radioClicks [Ha1 [Hk1 Hi1]]].
  set (p1 := Script.radioPass bank _ p0) in *.
  destruct (checkboxes_clicks bank (filter Dom.visible (Dom.checkboxes doc)) p1)
    as [boxClicks [Ha2 Hi2]].
  set (p2 := Script.checkboxPass bank _ p1) in *.
  destruct (selectPass_adds bank (filter Dom.visibleSelect (Dom.selects doc)) p2)
    as [Ha3 Hi3].
  set (p3 := Script.selectPass bank _ p2) in *.
  destruct (textPass_adds bank (filter Dom.visible (Dom.textInputs doc)) p3)
    as [Ha4 Hi4].
  set (p4 := Script.textPass bank _ p3) in *.
  destruct (areaPass_adds bank longForm
              (filter Dom.visibleArea (Dom.textareas doc)) 0 p4) as [Ha5 Hi5].
  set (p5 := Script.areaPass bank longForm 0 _ p4) in *.
  cbn in Ha1, Hi1.
  split; [| split; [| split]].
  - exists radioClicks, boxClicks. split.
    + rewrite Ha5, Ha4, Ha3, Ha2, Ha1. now rewrite <- !app_assoc.
    + eapply Forall_impl; [| exact Hk1].
      intros a [radio [-> Hin]]. exists radio. split; trivial.
      now apply filter_In in Hin.
  - rewrite Hi5, Hi4, Hi3, Hi2, Hi1, Ha5, Ha4, Ha3, Ha2, Ha1.
    rewrite !nonempty_app.
    assert (Hmap : JS.nonempty (map Script.ClickCheckbox boxClicks)
                   = JS.nonempty boxClicks) by now destruct boxClicks.
    now rewrite Hmap.
  - unfold textActions. rewrite length_map. apply length_firstn.
  - apply areaActions_length.
Qed.

(* ===================================================================== *)
(** ** The question text and the label text of an input *)
(* ===================================================================== *)

(** A radio with a [<label>] and an aria-label that differ. *)
Definition agreeRadio : Dom.Input :=
  Dom.mkInput Dom.RadioType ["Agree"] (Some "I agree") None None (Some "Agree")
              EmptyString (Some "Do you agree?") None None
              (Some "q2") None EmptyString false false true.

(** For an input with a non-empty first label, [getQuestionText] and
    [getLabelText] both return that label, whatever legend, heading or
    aria-label there is; without a label, both return the aria-label when it
    is set and not empty.  So the question of a group of labelled radios is
    the label of its first radio: the group is resolved with the directive
    and the bank entry of that label, not of the legend or the heading over
    the group. *)
Theorem labelled_input_is_its_own_question
        (bank : list Bank.SerializedAnswerEntry)
        (input : Dom.Input) (group : list Dom.Input) (g : Rng.t) :
  (forall first rest,
      Dom.labelTexts input = first :: rest -> first <> EmptyString ->
      Dom.getQuestionText input = first
      /\ Dom.getLabelText input = first
      /\ Resolver.radioOption bank (input :: group) g
         = Resolver.radioChain (Attention.detectAttentionInstruction first)
                               (Bank.findEntry bank first)
                               (input :: group) g)
  /\ (forall text,
         Dom.labelTexts input = [] ->
         Dom.ariaLabel input = Some text -> text <> EmptyString ->
         Dom.getQuestionText input = text /\ Dom.getLabelText input = text).
Proof.
  split.
  - intros first rest Hlabels Hfirst.
    assert (Hq : Dom.getQuestionText input = first).
    { unfold Dom.getQuestionText. rewrite Hlabels. cbn [hd_error].
      now apply opt_or_else_first. }
    split; [exact Hq |]. split.
    + unfold Dom.getLabelText. now rewrite Hlabels.
    + unfold Resolver.radioOption. rewrite Hq.
      apply truthy_spec in Hfirst. now rewrite Hfirst.
  - intros text Hlabels Haria Htext. split.
    + unfold Dom.getQuestionText. rewrite Hlabels, Haria. cbn [hd_error].
      cbn [JS.opt_or_else]. now apply (opt_or_else_first text).
    + unfold Dom.getLabelText. rewrite Hlabels, Haria. cbn [Dom.present].
      apply truthy_spec in Htext. rewrite Htext.
      apply truthy_spec in Htext. now apply opt_or_else_first.
Qed.

Lemma labelled_input_is_its_own_question_witness :
  Dom.getQuestionText agreeRadio = "Agree"
  /\ Dom.getLabelText agreeRadio = "Agree".
Proof.
  destruct (labelled_input_is_its_own_question
              [] agreeRadio [] (constantRng 0)) as [H _].
  destruct (H "Agree" [] eq_refl) as [Hq [Hl _]]; [discriminate |].
  now split.
Defined.

(* ===================================================================== *)
(** ** The command line ([parseCliArgs], [runSurveyJunkieBotCli]) *)
(* ===================================================================== *)

Module Cli.

(** The number [Number.parseInt(text, 10)], kept as the text it is read
    from. *)
Inductive ParsedInt : Type :=
| ParseInt10 (text : string).

(** [Partial<SurveyJunkieBotOptions>]: [None] is a property that is not
    set. *)
Record CliOptions : Type := mkCliOptions {
  email : option string;
  password : option string;
  surveyUrl : option string;
  headless : option bool;
  idleTimeoutMs : option ParsedInt;
  maxSteps : option ParsedInt;
  answerWorkbookPath : option string;
  useGptLongForm : option bool;
  openAIApiKey : option string;
  gptModel : option string;
  gptPrompt : option string
}.

Definition noOptions : CliOptions :=
  mkCliOptions None None None None None None None None None None None.

(** The [switch (key)] of the loop. *)
Definition setOption (options : CliOptions) (key value : string)
  : CliOptions :=
  let 'mkCliOptions e p s h i m a u k gm gp := options in
  if String.eqb key "--email" then
    mkCliOptions (Some value) p s h i m a u k gm gp
  else if String.eqb key "--password" then
    mkCliOptions e (Some value) s h i m a u k gm gp
  else if String.eqb key "--survey" then
    mkCliOptions e p (Some value) h i m a u k gm gp
  else if String.eqb key "--headless" then
    mkCliOptions e p s (Some (negb (String.eqb value "false"))) i m a u k gm gp
  else if String.eqb key "--max-steps" then
    mkCliOptions e p s h i (Some (ParseInt10 value)) a u k gm gp
  else if String.eqb key "--idle-timeout" then
    mkCliOptions e p s h (Some (ParseInt10 value)) m a u k gm gp
  else if String.eqb key "--answers" then
    mkCliOptions e p s h i m (Some value) u k gm gp
  else if String.eqb key "--gpt-long-form" then
    mkCliOptions e p s h i m a (Some (negb (String.eqb value "false"))) k gm gp
  else if String.eqb key "--openai-api-key" then
    mkCliOptions e p s h i m a u (Some value) gm gp
  else if String.eqb key "--gpt-model" then
    mkCliOptions e p s h i m a u k (Some value) gp
  else if String.eqb key "--gpt-prompt" then
    mkCliOptions e p s h i m a u k gm (Some value)
  else options.

(** One turn of the loop: [const [key, rawValue] = arg.split("=")], the
    [continue] on a missing or empty [rawValue], then the switch on the
    trimmed value. *)
Definition applyArg (options : CliOptions) (arg : string) : CliOptions :=
  match JS.split arg "=" with
  | key :: rawValue :: _ =>
      if JS.truthy rawValue
      then setOption options key (JS.trim rawValue)
      else options
  | _ => options
  end.

Definition parseCliArgs (argv : list string) : CliOptions :=
  fold_left applyArg (skipn 2 argv) noOptions.

(** The variables of [process.env] that the command line reads. *)
Record Env : Type := mkEnv {
  SURVEYJUNKIE_EMAIL : option string;
  SURVEYJUNKIE_PASSWORD : option string;
  SURVEYJUNKIE_SURVEY_URL : option string;
  SURVEYJUNKIE_HEADLESS : option string;
  SURVEYJUNKIE_IDLE_TIMEOUT_MS : option string;
  SURVEYJUNKIE_MAX_STEPS : option string;
  SURVEYJUNKIE_ANSWER_WORKBOOK : option string;
  SURVEYJUNKIE_USE_GPT_LONG_FORM : option string;
  OPENAI_API_KEY : option string;
  OPENAI_MODEL : option string;
  SURVEYJUNKIE_GPT_MODEL : option string;
  SURVEYJUNKIE_GPT_PROMPT : option string
}.

(** [a ?? b]. *)
Definition nullish {A : Type} (a b : option A) : option A :=
  match a with
  | Some _ => a
  | None => b
  end.

(** [/^(false|0)$/i.test(s)]. *)
Definition falseOrZero (s : string) : bool :=
  String.eqb (JS.toLowerCase s) "false" || String.eqb s "0".

(** [text ? Number.parseInt(text, 10) : undefined] on a variable of the
    environment. *)
Definition parsedIfSet (text : option string) : option ParsedInt :=
  match text with
  | Some s => if JS.truthy s then Some (ParseInt10 s) else None
  | None => None
  end.

(** The object handed to [new SurveyJunkieBot]. *)
Record BotArguments : Type := mkBotArguments {
  b_email : string;
  b_password : string;
  b_surveyUrl : option string;
  b_headless : option bool;
  b_idleTimeoutMs : option ParsedInt;
  b_maxSteps : option ParsedInt;
  b_answerWorkbookPath : option string;
  b_useGptLongForm : bool;
  b_openAIApiKey : option string;
  b_gptModel : option string;
  b_gptPrompt : option string
}.

(** What [runSurveyJunkieBotCli] does: it reports missing credentials and
    sets the exit code to 1, or it constructs the bot from these arguments
    and runs it. *)
Inductive CliResult : Type :=
| MissingCredentials
| Launched (arguments : BotArguments).

Definition runSurveyJunkieBotCli (argv : list string) (env : Env)
  : CliResult :=
  let cliOptions := parseCliArgs argv in
  let email := nullish (email cliOptions) (SURVEYJUNKIE_EMAIL env) in
  let password := nullish (password cliOptions) (SURVEYJUNKIE_PASSWORD env) in
  let surveyUrl :=
    nullish (surveyUrl cliOptions) (SURVEYJUNKIE_SURVEY_URL env) in
  let headless :=
    match headless cliOptions with
    | Some b => Some b
    | None =>
        match SURVEYJUNKIE_HEADLESS env with
        | Some s => Some (negb (falseOrZero s))
        | None => None
        end
    end in
  let idleTimeoutMs :=
    nullish (idleTimeoutMs cliOptions)
            (parsedIfSet (SURVEYJUNKIE_IDLE_TIMEOUT_MS env)) in
  let maxSteps :=
    nullish (maxSteps cliOptions) (parsedIfSet (SURVEYJUNKIE_MAX_STEPS env)) in
  let answerWorkbookPath :=
    nullish (answerWorkbookPath cliOptions)
            (SURVEYJUNKIE_ANSWER_WORKBOOK env) in
  let useGptLongForm :=
    match useGptLongForm cliOptions with
    | Some b => b
    | None =>
        match SURVEYJUNKIE_USE_GPT_LONG_FORM env with
        | Some s => String.eqb s "true"
        | None => false
        end
    end in
  let openAIApiKey := nullish (openAIApiKey cliOptions) (OPENAI_API_KEY env) in
  let gptModel :=
    nullish (nullish (gptModel cliOptions) (OPENAI_MODEL env))
            (SURVEYJUNKIE_GPT_MODEL env) in
  let gptPrompt :=
    nullish (gptPrompt cliOptions) (SURVEYJUNKIE_GPT_PROMPT env) in
  match email, password with
  | Some e, Some p =>
      if negb (JS.truthy e) || negb (JS.truthy p)
      then MissingCredentials
      else
        Launched
          (mkBotArguments e p surveyUrl headless idleTimeoutMs maxSteps
                          answerWorkbookPath useGptLongForm openAIApiKey
                          gptModel gptPrompt)
  | _, _ => MissingCredentials
  end.

End Cli.

(** No ["="] in the string. *)
Definition noEquals (s : string) : Prop := JS.includes s "=" = false.

Lemma noEquals_cons (c : ascii) (s : string) :
  noEquals (String c s) ->
  JS.startsWith (String c s) "=" = false /\ noEquals s.
Proof.
  unfold noEquals. cbn [JS.includes]. intros H.
  apply orb_false_iff in H. exact H.
Qed.

Lemma rev_string_twice (s : string) :
  forall a b, JS.rev_string a (JS.rev_string b s)
              = JS.rev_string (s ++ a)%string b.
Proof.
  induction s as [|c s IH]; intros a b; cbn; [reflexivity | apply IH].
Qed.

Lemma split_go_last (s : string) :
  noEquals s ->
  forall cur fuel,
    String.length s < fuel ->
    JS.split_go "=" cur fuel s
    = [JS.rev_string EmptyString (JS.rev_string cur s)].
Proof.
  induction s as [|c s IH]; intros Hs cur fuel Hfuel.
  - destruct fuel; reflexivity.
  - destruct fuel as [|fuel]; [inversion Hfuel |].
    apply noEquals_cons in Hs. destruct Hs as [Hc Hs].
    cbn [JS.split_go]. rewrite Hc. cbn [JS.rev_string].
    apply IH; trivial. cbn in Hfuel. lia.
Qed.

Lemma split_go_piece (s t : string) :
  noEquals s ->
  forall cur fuel,
    String.length (s ++ String "=" t)%string < fuel ->
    exists fuel',
      String.length t < fuel'
      /\ JS.split_go "=" cur fuel (s ++ String "=" t)%string
         = JS.rev_string EmptyString (JS.rev_string cur s)
           :: JS.split_go "=" EmptyString fuel' t.
Proof.
  induction s as [|c s IH]; intros Hs cur fuel Hfuel.
  - destruct fuel as [|fuel]; [inversion Hfuel |].
    exists fuel. cbn in Hfuel. split; [lia | reflexivity].
  - destruct fuel as [|fuel]; [inversion Hfuel |].
    apply noEquals_cons in Hs. destruct Hs as [Hc Hs].
    cbn in Hfuel.
    destruct (IH Hs (String c cur) fuel) as [fuel' [Hlt Heq]]; [lia |].
    exists fuel'. split; trivial.
    change ((String c s ++ String "=" t)%string)
      with (String c (s ++ String "=" t)%string).
    cbn [JS.split_go].
    assert (Hc' : JS.startsWith (String c (s ++ String "=" t)%string) "="
                  = false).
    { cbn [JS.startsWith] in Hc |- *. exact Hc. }
    rewrite Hc'. exact Heq.
Qed.

Lemma rev_rev_string (s : string) :
  JS.rev_string EmptyString (JS.rev_string EmptyString s) = s.
Proof.
  rewrite rev_string_twice. cbn.
  induction s as [|c s IH]; cbn; [trivial | now rewrite IH].
Qed.

(** The pieces of an argument without ["="], with one and with more. *)
Lemma split_bare (key : string) :
  noEquals key -> JS.split key "=" = [key].
Proof.
  intros Hk. unfold JS.split. rewrite split_go_last; [| trivial | lia].
  now rewrite rev_rev_string.
Qed.

Lemma split_key_value (key value : string) :
  noEquals key -> noEquals value ->
  JS.split (key ++ String "=" value)%string "=" = [key; value].
Proof.
  intros Hk Hv. unfold JS.split.
  destruct (split_go_piece key value Hk EmptyString
              (S (String.length (key ++ String "=" value)%string)))
    as [fuel' [Hlt ->]]; [lia |].
  rewrite split_go_last; trivial. now rewrite !rev_rev_string.
Qed.

Lemma split_key_value_more (key value rest : string) :
  noEquals key -> noEquals value ->
  exists others,
    JS.split (key ++ String "=" (value ++ String "=" rest))%string "="
    = key :: value :: others.
Proof.
  intros Hk Hv. unfold JS.split.
  destruct (split_go_piece key (value ++ String "=" rest)%string Hk EmptyString
              (S (String.length
                    (key ++ String "=" (value ++ String "=" rest))%string)))
    as [fuel1 [Hlt1 ->]]; [lia |].
  destruct (split_go_piece value rest Hv EmptyString fuel1 Hlt1)
    as [fuel2 [Hlt2 ->]].
  rewrite !rev_rev_string. eexists. reflexivity.
Qed.

Lemma applyArg_bare (options : Cli.CliOptions) (key : string) :
  noEquals key -> Cli.applyArg options key = options.
Proof.
  intros Hk. unfold Cli.applyArg. now rewrite split_bare.
Qed.

Lemma applyArg_key_value (options : Cli.CliOptions) (key value : string) :
  noEquals key -> noEquals value ->
  Cli.applyArg options (key ++ String "=" value)%string
  = if JS.truthy value
    then Cli.setOption options key (JS.trim value)
    else options.
Proof.
  intros Hk Hv. unfold Cli.applyArg. now rewrite split_key_value.
Qed.

Lemma applyArg_key_value_more (options : Cli.CliOptions)
      (key value rest : string) :
  noEquals key -> noEquals value ->
  Cli.applyArg options (key ++ String "=" (value ++ String "=" rest))%string
  = Cli.applyArg options (key ++ String "=" value)%string.
Proof.
  intros Hk Hv. rewrite (applyArg_key_value options key value Hk Hv).
  unfold Cli.applyArg.
  destruct (split_key_value_more key value rest Hk Hv) as [others ->].
  reflexivity.
Qed.

Lemma parseCliArgs_last (node script : string) (args : list string)
      (arg : string) :
  Cli.parseCliArgs (node :: script :: args ++ [arg])
  = Cli.applyArg (Cli.parseCliArgs (node :: script :: args)) arg.
Proof.
  unfold Cli.parseCliArgs. cbn [skipn]. now rewrite fold_left_app.
Qed.

(** An argument is cut at its first two ["="]: what follows the second one
    is dropped, so [key=value=rest] sets what [key=value] sets.  An argument
    without ["="], or with nothing after it, sets nothing, and the first two
    entries of [argv] are never read. *)
Theorem cli_value_ends_at_second_equals
        (node script : string) (args : list string)
        (key value rest : string)
        (Hkey : noEquals key) (Hvalue : noEquals value) :
  Cli.parseCliArgs
    (node :: script :: args ++ [key ++ "=" ++ value ++ "=" ++ rest]%string)
  = Cli.parseCliArgs (node :: script :: args ++ [key ++ "=" ++ value]%string)
  /\ Cli.parseCliArgs (node :: script :: args ++ [key])
     = Cli.parseCliArgs (node :: script :: args)
  /\ Cli.parseCliArgs (node :: script :: args ++ [key ++ "="]%string)
     = Cli.parseCliArgs (node :: script :: args)
  /\ Cli.parseCliArgs [node; script] = Cli.noOptions.
Proof.
  rewrite !parseCliArgs_last.
  split; [| split; [| split]].
  - apply applyArg_key_value_more; trivial.
  - apply applyArg_bare; trivial.
  - change (key ++ "=")%string with (key ++ String "=" EmptyString)%string.
    rewrite applyArg_key_value; trivial. reflexivity.
  - reflexivity.
Qed.

Lemma cli_value_ends_at_second_equals_witness :
  Cli.password
    (Cli.parseCliArgs ["node"; "bot.ts"; "--password=ab=cd"])
  = Some "ab".
Proof.
  destruct (cli_value_ends_at_second_equals
              "node" "bot.ts" [] "--password" "ab" "cd"
              eq_refl eq_refl) as [H _].
  cbn [app String.append] in H. rewrite H. reflexivity.
Defined.

Lemma setOption_email (options : Cli.CliOptions) (value : string) :
  Cli.email (Cli.setOption options "--email" value) = Some value.
Proof. now destruct options. Qed.

Lemma setOption_password (options : Cli.CliOptions) (value : string) :
  Cli.password (Cli.setOption options "--password" value) = Some value.
Proof. now destruct options. Qed.

(** A credential given last on the command line decides, whatever the
    environment holds: its trimmed value is the one the bot is constructed
    with, and when that value is blank the run is refused even if the
    environment has the credential. *)
Theorem cli_credentials_override_environment
        (node script : string) (args : list string) (value : string)
        (env : Cli.Env)
        (Hvalue : noEquals value) (Hset : value <> EmptyString) :
  let byEmail :=
    Cli.runSurveyJunkieBotCli
      (node :: script :: args ++ ["--email=" ++ value]%string) env in
  let byPassword :=
    Cli.runSurveyJunkieBotCli
      (node :: script :: args ++ ["--password=" ++ value]%string) env in
  (JS.trim value = EmptyString ->
   byEmail = Cli.MissingCredentials /\ byPassword = Cli.MissingCredentials)
  /\ (forall arguments,
         byEmail = Cli.Launched arguments ->
         Cli.b_email arguments = JS.trim value
         /\ Cli.b_password arguments <> EmptyString)
  /\ (forall arguments,
         byPassword = Cli.Launched arguments ->
         Cli.b_password arguments = JS.trim value
         /\ Cli.b_email arguments <> EmptyString).
Proof.
  assert (Htruthy : JS.truthy value = true).
  { destruct value; [now destruct Hset | reflexivity]. }
  assert (Hemail :
            Cli.email
              (Cli.parseCliArgs
                 (node :: script :: args ++ ["--email=" ++ value]%string))
            = Some (JS.trim value)).
  { rewrite parseCliArgs_last.
    change ("--email=" ++ value)%string
      with ("--email" ++ String "=" value)%string.
    rewrite applyArg_key_value, Htruthy; [| reflexivity | exact Hvalue].
    apply setOption_email. }
  assert (Hpassword :
            Cli.password
              (Cli.parseCliArgs
                 (node :: script :: args ++ ["--password=" ++ value]%string))
            = Some (JS.trim value)).
  { rewrite parseCliArgs_last.
    change ("--password=" ++ value)%string
      with ("--password" ++ String "=" value)%string.
    rewrite applyArg_key_value, Htruthy; [| reflexivity | exact Hvalue].
    apply setOption_password. }
  assert (Hnonempty : forall s, JS.truthy s = true -> s <> EmptyString).
  { intros s H ->. discriminate H. }
  cbv zeta. unfold Cli.runSurveyJunkieBotCli.
  rewrite Hemail, Hpassword. cbn [Cli.nullish].
  split; [| split].
  - intros ->. split.
    + now destruct (Cli.nullish _ _).
    + destruct (Cli.nullish _ _) as [e |]; trivial.
      cbn. now rewrite orb_true_r.
  - intros arguments H.
    destruct (Cli.nullish _ (Cli.SURVEYJUNKIE_PASSWORD env)) as [p |];
      [| discriminate H].
    destruct (JS.truthy (JS.trim value)); [| discriminate H].
    destruct (JS.truthy p) eqn:Hp; [| discriminate H].
    cbn in H. injection H as <-. cbn. split; auto.
  - intros arguments H.
    destruct (Cli.nullish _ (Cli.SURVEYJUNKIE_EMAIL env)) as [e |];
      [| discriminate H].
    destruct (JS.truthy e) eqn:He; [| discriminate H].
    destruct (JS.truthy (JS.trim value)); [| discriminate H].
    cbn in H. injection H as <-. cbn. split; auto.
Qed.

Lemma cli_credentials_override_environment_witness :
  Cli.runSurveyJunkieBotCli
    ["node"; "bot.ts"; "--password=secret"; "--email= "]
    (Cli.mkEnv (Some "someone@example.com") (Some "secret") None None None
               None None None None None None None)
  = Cli.MissingCredentials.
Proof.
  refine (proj1 (proj1 (cli_credentials_override_environment
                          "node" "bot.ts" ["--password=secret"] " "
                          (Cli.mkEnv (Some "someone@example.com")
                                     (Some "secret") None None None
                                     None None None None None None None)
                          eq_refl _) eq_refl)).
  discriminate.
Defined.
